(** * Verification of the article extractor (src/extractors/content_extractor.py)

    The extractor works on a BeautifulSoup tree that it mutates in place.
    The tree is embedded as a rose tree whose elements carry a unique
    identifier standing for the identity of the Python object; every
    in-place operation of the source ([decompose], [extract],
    [replace_with], [insert_before]) becomes a function from trees to
    trees addressed by that identifier.  Loops of the source that walk a
    list returned by [find_all] while they mutate the tree are folds over
    the list of identifiers taken before the loop, as in the source.

    What the embedding takes from the library:
    - HTML parsing is a parameter of the pipeline ([parse]);
    - a tag that an earlier turn of a loop destroyed ([decompose]) is a
      tag that [find_node] no longer finds.  The library answers [None]
      or the empty list when such a tag is asked for its parent, its
      name, its text or the tags below it.  Asking it for an attribute
      ([link.get]) or for its hash raises an exception.  What [str] of
      it does is left open by the library and differs between its
      releases: [destroyed_str];
    - a tag that [replace_with] took out of the soup is still alive, with
      what is below it; the loop over the links keeps these subtrees;
    - the other library calls of the source raise no exception on the
      trees of the embedding;
    - strings are ASCII strings; the scores of the body locator, floats
      in the source, are rationals. *)

From Stdlib Require Import String Ascii List Bool Arith ZArith QArith Lia.
Import ListNotations.
Open Scope nat_scope.
Open Scope string_scope.
Set Warnings "-register-all".

(* ================================================================== *)
(** ** Python strings *)
(* ================================================================== *)

Module PyStr.

(** [needle in hay] *)
Fixpoint contains (needle hay : string) : bool :=
  if String.prefix needle hay then true
  else match hay with
       | EmptyString => false
       | String _ rest => contains needle rest
       end.

Definition lower_ascii (c : ascii) : ascii :=
  let n := nat_of_ascii c in
  if ((65 <=? n) && (n <=? 90))%nat then ascii_of_nat (n + 32) else c.

(** [s.lower()] on the ASCII range *)
Fixpoint lower (s : string) : string :=
  match s with
  | EmptyString => EmptyString
  | String c rest => String (lower_ascii c) (lower rest)
  end.

Definition is_space (c : ascii) : bool :=
  let n := nat_of_ascii c in
  (((9 <=? n) && (n <=? 13)) || ((28 <=? n) && (n <=? 32)))%nat.

Fixpoint lstrip (s : string) : string :=
  match s with
  | EmptyString => EmptyString
  | String c rest => if is_space c then lstrip rest else s
  end.

(** drops the trailing white space: a character is kept when something
    that is not white space follows it or it is not white space itself *)
Fixpoint rstrip (s : string) : string :=
  match s with
  | EmptyString => EmptyString
  | String c rest =>
      match rstrip rest with
      | EmptyString => if is_space c then EmptyString else String c EmptyString
      | r => String c r
      end
  end.

(** [s.strip()] *)
Definition strip (s : string) : string := rstrip (lstrip s).

(** [len(s.split())]: the number of maximal runs of characters that are
    not white space.  [inword] says whether the previous character
    belonged to a word. *)
Fixpoint count_words_from (inword : bool) (s : string) : nat :=
  match s with
  | EmptyString => 0
  | String c rest =>
      if is_space c then count_words_from false rest
      else (if inword then 0 else 1) + count_words_from true rest
  end.

Definition word_count (s : string) : nat := count_words_from false s.

(** [sep.join(l)] *)
Definition join (sep : string) (l : list string) : string := String.concat sep l.

(** [x in l] for a list of strings *)
Definition mem (x : string) (l : list string) : bool :=
  existsb (String.eqb x) l.

Definition is_empty (s : string) : bool :=
  match s with EmptyString => true | _ => false end.

(** the double quote character, as a one-character string *)
Definition dq : string := String (ascii_of_nat 34) EmptyString.

End PyStr.

(* ================================================================== *)
(** ** The document tree *)
(* ================================================================== *)

(** An attribute value is a string, or a list of strings for the
    multi-valued attributes ([class], [rel], ...). *)
Inductive attr_value : Type :=
| AStr (s : string)
| AList (l : list string).

(** [Tag.attrs]: a dict, kept in insertion order. *)
Definition attrs_t : Type := list (string * attr_value).

(** A node is a [NavigableString] or a [Tag].  [uid] is the identity of
    the Python object. *)
Inductive node : Type :=
| Text (s : string)
| Elem (uid : nat) (name : string) (attrs : attrs_t) (contents : list node).

Definition is_tag (n : node) : bool :=
  match n with Elem _ _ _ _ => true | Text _ => false end.

Definition uid_of (n : node) : option nat :=
  match n with Elem u _ _ _ => Some u | Text _ => None end.

Definition has_uid (i : nat) (n : node) : bool :=
  match n with Elem u _ _ _ => Nat.eqb u i | Text _ => false end.

Definition name_of (n : node) : string :=
  match n with Elem _ nm _ _ => nm | Text _ => "" end.

Definition attrs_of (n : node) : attrs_t :=
  match n with Elem _ _ a _ => a | Text _ => [] end.

Definition contents_of (n : node) : list node :=
  match n with Elem _ _ _ cs => cs | Text _ => [] end.

(** [n] when it is a tag with one of the names [names] *)
Definition named (names : list string) (n : node) : bool :=
  is_tag n && PyStr.mem (name_of n) names.

(** the tags of the subtree of [n] in document order, [n] first *)
Fixpoint self_and_descendants (n : node) : list node :=
  match n with
  | Text _ => []
  | Elem _ _ _ cs => n :: flat_map self_and_descendants cs
  end.

(** [Tag.descendants], tags only *)
Definition descendants (n : node) : list node :=
  flat_map self_and_descendants (contents_of n).

(** [n.find_all(names)] *)
Definition find_all (names : list string) (n : node) : list node :=
  filter (named names) (descendants n).

(** [n.find_all()] and [n.find_all(True)] *)
Definition find_all_tags (n : node) : list node := descendants n.

(** [n.find_all(names, recursive=False)] *)
Definition find_all_direct (names : list string) (n : node) : list node :=
  filter (named names) (contents_of n).

(** [n.find_all(recursive=False)] *)
Definition children_tags (n : node) : list node :=
  filter is_tag (contents_of n).

(** the strings below [n] in document order *)
Fixpoint all_strings (n : node) : list string :=
  match n with
  | Text s => [s]
  | Elem _ _ _ cs => flat_map all_strings cs
  end.

(** [n.get_text(strip=True)]: every string stripped, the empty ones
    dropped, the rest concatenated *)
Definition get_text_strip (n : node) : string :=
  String.concat ""
    (filter (fun s => negb (PyStr.is_empty s)) (map PyStr.strip (all_strings n))).

(** number of tags in a tree, the measure of the cleaning loop *)
Fixpoint tag_count (n : node) : nat :=
  match n with
  | Text _ => 0
  | Elem _ _ _ cs => S (list_sum (map tag_count cs))
  end.

(** *** Attributes *)

Fixpoint attr_get (k : string) (a : attrs_t) : option attr_value :=
  match a with
  | [] => None
  | (k', v) :: rest => if String.eqb k' k then Some v else attr_get k rest
  end.

(** [attrs[k] = v]: an existing key keeps its place *)
Fixpoint attr_set (k : string) (v : attr_value) (a : attrs_t) : attrs_t :=
  match a with
  | [] => [(k, v)]
  | (k', v') :: rest =>
      if String.eqb k' k then (k, v) :: rest else (k', v') :: attr_set k v rest
  end.

(** [del attrs[k]] *)
Definition attr_del (k : string) (a : attrs_t) : attrs_t :=
  filter (fun kv => negb (String.eqb (fst kv) k)) a.

(** [str(v)] of an attribute value; a list prints as Python prints it *)
Definition py_str (v : attr_value) : string :=
  match v with
  | AStr s => s
  | AList l => "[" ++ String.concat ", " (map (fun s => "'" ++ s ++ "'") l) ++ "]"
  end.

(** [' '.join(str(v) for v in attrs.values()).lower()] *)
Definition attrs_str (a : attrs_t) : string :=
  PyStr.lower (PyStr.join " " (map (fun kv => py_str (snd kv)) a)).

(** [' '.join(element.get('class', []))]; a [class] that is a plain string
    is joined character by character, as Python does *)
Definition class_joined (a : attrs_t) : string :=
  match attr_get "class" a with
  | None => ""
  | Some (AList l) => PyStr.join " " l
  | Some (AStr s) =>
      PyStr.join " " (map (fun c => String c EmptyString) (list_ascii_of_string s))
  end.

(** *** Serialization: [str(tag)] *)

Module Html.

Definition escape_char (c : ascii) : string :=
  match nat_of_ascii c with
  | 38 => "&amp;"
  | 60 => "&lt;"
  | 62 => "&gt;"
  | _ => String c EmptyString
  end.

(** the minimal formatter: [&], [<] and [>] become entities *)
Fixpoint escape (s : string) : string :=
  match s with
  | EmptyString => EmptyString
  | String c rest => escape_char c ++ escape rest
  end.

Fixpoint replace_dq (s : string) : string :=
  match s with
  | EmptyString => EmptyString
  | String c rest =>
      (if Nat.eqb (nat_of_ascii c) 34 then "&quot;" else String c EmptyString)
        ++ replace_dq rest
  end.

(** an attribute value in quotes: double quotes, single quotes when the
    value holds a double quote and no single quote, [&quot;] otherwise *)
Definition quoted (v : string) : string :=
  let e := escape v in
  if PyStr.contains PyStr.dq e then
    if PyStr.contains "'" e then PyStr.dq ++ replace_dq e ++ PyStr.dq
    else "'" ++ e ++ "'"
  else PyStr.dq ++ e ++ PyStr.dq.

Definition attr_text (v : attr_value) : string :=
  match v with
  | AStr s => s
  | AList l => PyStr.join " " l
  end.

Definition render_attrs (a : attrs_t) : string :=
  String.concat ""
    (map (fun kv => " " ++ fst kv ++ "=" ++ quoted (attr_text (snd kv))) a).

(** the void elements of the HTML tree builder *)
Definition void_tags : list string :=
  ["area"; "base"; "br"; "col"; "embed"; "hr"; "img"; "input"; "keygen";
   "link"; "menuitem"; "meta"; "param"; "source"; "track"; "wbr";
   "basefont"; "bgsound"; "command"; "frame"; "image"; "isindex";
   "nextid"; "spacer"].

(** the root of a soup, the [BeautifulSoup] object, has this name and
    prints as its contents only *)
Definition document_name : string := "[document]".

Fixpoint to_html (n : node) : string :=
  match n with
  | Text s => escape s
  | Elem _ nm a cs =>
      let inner := String.concat "" (map to_html cs) in
      if String.eqb nm document_name then inner
      else match cs with
           | [] =>
               if PyStr.mem nm void_tags
               then "<" ++ nm ++ render_attrs a ++ "/>"
               else "<" ++ nm ++ render_attrs a ++ "></" ++ nm ++ ">"
           | _ => "<" ++ nm ++ render_attrs a ++ ">" ++ inner ++ "</" ++ nm ++ ">"
           end
  end.

End Html.

(** *** Navigation and in-place edits, by identity *)

(** the tag with identity [i] below [n], the first in document order;
    [None] stands for an object that is no longer in the tree *)
Fixpoint find_node (i : nat) (n : node) : option node :=
  match n with
  | Text _ => None
  | Elem _ _ _ cs =>
      (fix go (l : list node) : option node :=
         match l with
         | [] => None
         | c :: r =>
             if has_uid i c then Some c
             else match find_node i c with
                  | Some x => Some x
                  | None => go r
                  end
         end) cs
  end.

(** [Tag.parents] of the tag with identity [i], the nearest first and the
    root [n] last; [None] when the tag is not below [n] *)
Fixpoint ancestors_in (i : nat) (n : node) : option (list node) :=
  match n with
  | Text _ => None
  | Elem _ _ _ cs =>
      (fix go (l : list node) : option (list node) :=
         match l with
         | [] => None
         | c :: r =>
             if has_uid i c then Some [n]
             else match ancestors_in i c with
                  | Some p => Some (p ++ [n])%list
                  | None => go r
                  end
         end) cs
  end.

(** [Tag.parent] *)
Definition parent_of (i : nat) (root : node) : option node :=
  match ancestors_in i root with
  | Some (p :: _) => Some p
  | _ => None
  end.

(** [tag.find_parent(names)] is not [None] *)
Definition has_parent_named (names : list string) (i : nat) (root : node) : bool :=
  match ancestors_in i root with
  | Some ps => existsb (named names) ps
  | None => false
  end.

(** replaces, in the children list that holds it, the tag with identity
    [i] by the nodes [repl] computes from it; [None] when the tag is not
    below [n] *)
Fixpoint edit (i : nat) (repl : node -> list node) (n : node) : option node :=
  match n with
  | Text _ => None
  | Elem u nm a cs =>
      option_map (Elem u nm a)
        ((fix go (l : list node) : option (list node) :=
            match l with
            | [] => None
            | c :: r =>
                if has_uid i c then Some (repl c ++ r)%list
                else match edit i repl c with
                     | Some c' => Some (c' :: r)
                     | None => option_map (cons c) (go r)
                     end
            end) cs)
  end.

(** an edit of a tag that is not in the tree changes nothing *)
Definition apply_edit (i : nat) (repl : node -> list node) (root : node) : node :=
  match edit i repl root with
  | Some root' => root'
  | None => root
  end.

(** [tag.decompose()]; decomposing the soup itself leaves it empty *)
Definition decompose (i : nat) (root : node) : node :=
  match root with
  | Text s => Text s
  | Elem u nm a cs =>
      if Nat.eqb u i then Elem u nm a [] else apply_edit i (fun _ => []) root
  end.

(** [n] without its descendants named in [names] *)
Fixpoint prune (names : list string) (n : node) : node :=
  match n with
  | Text s => Text s
  | Elem u nm a cs =>
      Elem u nm a
        (flat_map (fun c => if named names c then [] else [prune names c]) cs)
  end.

(** What [for c in element.find_all(names): element.insert_before(c)]
    (or [c.extract()] followed by [insert_before]) leaves before
    [element]: the tags found, in document order; a tag found inside
    another one has been taken out of it by its own move. *)
Definition hoist (names : list string) (element : node) : list node :=
  map (prune names) (find_all names element).

Definition uids (l : list node) : list nat :=
  flat_map (fun n => match uid_of n with Some u => [u] | None => [] end) l.

Definition has_any (names : list string) (element : node) : bool :=
  match find_all names element with [] => false | _ => true end.

(* ================================================================== *)
(** ** Exceptions *)
(* ================================================================== *)

(** what a function that can raise gives *)
Inductive outcome (A : Type) : Type :=
| Returned (a : A)
| Raised.

Arguments Returned {A} a.
Arguments Raised {A}.

(** What [str(tag)] does when an earlier turn of a loop destroyed the
    tag.  The library leaves it open: a release such as 4.12.3 raises an
    exception, a release such as 4.15.0 returns a text, in which the
    source then looks for "related" and does not find it. *)
Inductive destroyed_str : Type :=
| StrRaises
| StrPrints.

(* ================================================================== *)
(** ** The cleaning stage: [_clean_extracted_content] *)
(* ================================================================== *)

Definition interactive_tags : list string :=
  ["button"; "input"; "select"; "textarea"; "form";
   "dialog"; "details"; "menu"; "menuitem";
   "iframe"; "embed"; "object"; "audio"; "time"].

Definition is_empty_container (element : node) : bool :=
  if negb (is_tag element) then false
  else if PyStr.mem (name_of element) ["img"; "video"; "figure"; "picture"] then false
  else PyStr.is_empty (get_text_strip element).

(** an attribute value that holds "related": a string, or one item of a
    list *)
Definition related_value (v : attr_value) : bool :=
  match v with
  | AStr s => PyStr.contains "related" (PyStr.lower s)
  | AList l => existsb (fun s => PyStr.contains "related" (PyStr.lower s)) l
  end.

Definition nonempty_attrs (a : attrs_t) : bool :=
  match a with [] => false | _ => true end.

(** [should_remove_container(element)]; [root] is the soup, for
    [element.find_parent('p')].  The checks are in the order of the
    source, and each [if] of the source that returns is one line. *)
Definition should_remove_container (root element : node) : bool :=
  match element with
  | Text _ => false
  | Elem u nm a _ =>
      if has_any ["h1"] element || PyStr.mem nm ["html"; "body"] then false
      else if PyStr.mem nm ["p"; "article"] then false
      else if Nat.ltb 1 (length (find_all_direct ["p"] element)) then false
      else if (PyStr.mem nm interactive_tags
               || existsb (fun c => PyStr.mem (name_of c) interactive_tags)
                          (find_all_tags element))
              && negb (has_any ["p"; "img"; "h1"; "h2"; "h3"] element) then true
      else if PyStr.mem nm ["a"; "span"] && has_parent_named ["p"] u root then false
      else if PyStr.mem nm ["a"; "span"]
              && Nat.ltb (PyStr.word_count (get_text_strip element)) 10 then true
      else if nonempty_attrs a
              && PyStr.contains "share" (PyStr.lower (class_joined a)) then true
      else if nonempty_attrs a && PyStr.contains "share" (attrs_str a) then true
      else if PyStr.contains "related" (PyStr.lower (Html.to_html element))
              && negb (has_any ["p"] element) then true
      else if nonempty_attrs a
              && (PyStr.contains "share" (attrs_str a)
                  || PyStr.contains "save" (attrs_str a)) then true
      else if nonempty_attrs a
              && existsb (fun kv => related_value (snd kv)) a
              && negb (has_any ["p"] element) then true
      else false
  end.

(** the state of a pass: the soup and the counter [removed] *)
Definition pass_state : Type := (node * nat)%type.

(** [child[attr] = element[attr]] for [attr] in [id], [class] when the
    element has it and the child has not *)
Definition copy_attr (k : string) (element child : node) : node :=
  match child with
  | Text s => Text s
  | Elem u nm a cs =>
      match attr_get k (attrs_of element), attr_get k a with
      | Some v, None => Elem u nm (attr_set k v a) cs
      | _, _ => child
      end
  end.

Definition important_tags : list string :=
  ["p"; "h1"; "img"; "picture"; "figure"; "video"].

(** one turn of the first loop of [clean_pass], for the [div] or
    [section] with identity [i] *)
Definition clean_div_step (st : pass_state) (i : nat) : pass_state :=
  let '(root, removed) := st in
  match parent_of i root, find_node i root with
  | Some _, Some element =>
      if PyStr.mem (name_of element) ["html"; "body"] then st
      else
        let has_p := has_any ["p"] element in
        let has_h1 := has_any ["h1"] element in
        let has_media := has_any ["img"; "picture"; "figure"; "video"] element in
        if negb (has_p || has_h1 || has_media) then
          (apply_edit i (hoist important_tags) root, S removed)
        else if Nat.ltb 0 (length (find_all_direct ["p"] element)) then st
        else match children_tags element with
             | [child] =>
                 if PyStr.mem (name_of child) ["article"; "main"; "div"; "section"]
                 then (apply_edit i (fun e => [copy_attr "class" e (copy_attr "id" e child)]) root,
                       S removed)
                 else st
             | _ => st
             end
  | _, _ => st
  end.

(** one turn of the third loop.  A tag destroyed earlier in the loop has
    no name, no text and no children: it passes the tests, is decomposed
    again, which changes nothing, and is counted. *)
Definition clean_empty_step (st : pass_state) (i : nat) : pass_state :=
  let '(root, removed) := st in
  match find_node i root with
  | None => (root, S removed)
  | Some element =>
      if negb (PyStr.mem (name_of element) ["img"; "video"; "figure"; "picture"])
         && is_empty_container element
         && negb (Nat.ltb 0 (length (find_all_direct
                                 ["p"; "img"; "h1"; "h2"; "h3"; "picture"] element)))
      then (decompose i root, S removed)
      else st
  end.

(** The two files of the extractor have the same [clean_pass]; they
    differ in [should_remove_container], which is a parameter here, as
    is what the library does with [str] of a destroyed tag. *)
Section CleaningPass.

Variable lib : destroyed_str.
Variable should_remove : node -> node -> bool.

(** one turn of the second loop, for the tag with identity [i], when
    [should_remove_container(element)] returns; on a tag destroyed
    earlier in the loop it answers no *)
Definition clean_container_step_with (st : pass_state) (i : nat) : pass_state :=
  let '(root, removed) := st in
  match find_node i root with
  | None => st
  | Some element =>
      if should_remove root element then
        match (if PyStr.mem (name_of element) interactive_tags
               then parent_of i root else None) with
        | Some parent =>
            if negb (PyStr.mem (name_of parent) ["html"; "body"])
               && negb (has_any ["p"] parent)
               && Nat.ltb (PyStr.word_count (get_text_strip parent)) 10
            then (match uid_of parent with
                  | Some pu => decompose pu root
                  | None => root
                  end, S removed)
            else (decompose i root, S removed)
        | None => (apply_edit i (hoist ["p"]) root, S removed)
        end
      else st
  end.

(** The second loop.  [should_remove_container(element)] is called
    outside the inner [try] and takes [str(element)] of every tag it
    does not settle before: when the tag was destroyed earlier in the
    loop and [str] raises, the exception leaves the loops.  The boolean
    says so. *)
Fixpoint container_loop (ids : list nat) (st : pass_state) : pass_state * bool :=
  match ids with
  | [] => (st, false)
  | i :: rest =>
      match find_node i (fst st), lib with
      | None, StrRaises => (st, true)
      | _, _ => container_loop rest (clean_container_step_with st i)
      end
  end.

(** the three loops of [clean_pass()]: the soup and the counter they
    end with, and whether they ended on an exception *)
Definition run_pass_with (soup : node) : pass_state * bool :=
  let st1 := fold_left clean_div_step (uids (find_all ["div"; "section"] soup)) (soup, 0) in
  let '(st2, raised) := container_loop (uids (find_all_tags (fst st1))) st1 in
  if raised then (st2, true)
  else (fold_left clean_empty_step (uids (find_all_tags (fst st2))) st2, false).

(** [clean_pass()]: the soup after the pass and the number it returns,
    which is 0 in the [except] branch *)
Definition clean_pass_with (soup : node) : pass_state :=
  let '(st, raised) := run_pass_with soup in
  if raised then (fst st, 0) else st.

(** the pass ends in its [except] branch *)
Definition pass_raised_with (soup : node) : bool := snd (run_pass_with soup).

(** the [while True] loop, with a bound on the number of passes *)
Fixpoint clean_loop_with (fuel : nat) (soup : node) : option node :=
  match fuel with
  | 0 => None
  | S fuel' =>
      let '(soup', removed) := clean_pass_with soup in
      if Nat.eqb removed 0 then Some soup' else clean_loop_with fuel' soup'
  end.

(** the loop run with one pass more than the soup has tags *)
Definition clean_fixpoint_with (soup : node) : option node :=
  clean_loop_with (S (tag_count soup)) soup.

End CleaningPass.

(** the pass of src/extractors/content_extractor.py *)
Definition clean_container_step : pass_state -> nat -> pass_state :=
  clean_container_step_with should_remove_container.

Definition clean_pass (lib : destroyed_str) : node -> pass_state :=
  clean_pass_with lib should_remove_container.

Definition pass_raised (lib : destroyed_str) : node -> bool :=
  pass_raised_with lib should_remove_container.

Definition clean_loop (lib : destroyed_str) : nat -> node -> option node :=
  clean_loop_with lib should_remove_container.

Definition clean_fixpoint (lib : destroyed_str) : node -> option node :=
  clean_fixpoint_with lib should_remove_container.

(** *** Media: [_standardize_media_dimensions] *)

Definition media_style : string := "width: 256px; height: 256px; object-fit: cover;".
Definition picture_style : string := "width: 256px; height: 256px; display: inline-block;".

(** the selectors [img], [video], [picture] and [iframe[src*=video]] *)
Definition media_selected (nm : string) (a : attrs_t) : bool :=
  PyStr.mem nm ["img"; "video"; "picture"]
  || (String.eqb nm "iframe"
      && match attr_get "src" a with
         | Some v => PyStr.contains "video" (Html.attr_text v)
         | None => false
         end).

Definition standardize_attrs (nm : string) (a : attrs_t) : attrs_t :=
  if String.eqb nm "source" then
    attr_set "height" (AStr "256") (attr_set "width" (AStr "256") a)
  else
    attr_del "sizes" (attr_del "data-height" (attr_del "data-width"
      (attr_set "height" (AStr "256") (attr_set "width" (AStr "256")
         (attr_set "style" (AStr media_style) a))))).

(** the two loops over one tag: the selectors, then the [picture] style *)
Definition standardize_tag (nm : string) (a : attrs_t) : attrs_t :=
  let a1 := if media_selected nm a then standardize_attrs nm a else a in
  if String.eqb nm "picture" then attr_set "style" (AStr picture_style) a1 else a1.

Fixpoint standardize_below (n : node) : node :=
  match n with
  | Text s => Text s
  | Elem u nm a cs => Elem u nm (standardize_tag nm a) (map standardize_below cs)
  end.

(** [select] and [find_all] look below the soup, not at it *)
Definition standardize_media_dimensions (soup : node) : node :=
  match soup with
  | Text s => Text s
  | Elem u nm a cs => Elem u nm a (map standardize_below cs)
  end.

(* ================================================================== *)
(** ** Noise filtering: [_remove_noise] *)
(* ================================================================== *)

Definition attr_value_eqb (v w : attr_value) : bool :=
  match v, w with
  | AStr s, AStr t => String.eqb s t
  | AList l, AList m =>
      Nat.eqb (length l) (length m)
      && forallb (fun st => String.eqb (fst st) (snd st)) (combine l m)
  | _, _ => false
  end.

(** equality of two [attrs] dicts: the same keys with the same values *)
Definition attrs_eqb (a b : attrs_t) : bool :=
  let sub (x y : attrs_t) :=
    forallb (fun kv => match attr_get (fst kv) y with
                       | Some w => attr_value_eqb (snd kv) w
                       | None => false
                       end) x in
  sub a b && sub b a.

(** [Tag.__eq__]: two tags are equal when their names, their attributes
    and their contents are; the identity does not count *)
Fixpoint node_eqb (n m : node) : bool :=
  match n, m with
  | Text s, Text t => String.eqb s t
  | Elem _ nm a cs, Elem _ nm' a' cs' =>
      String.eqb nm nm' && attrs_eqb a a'
      && (fix all2 (l : list node) (l' : list node) : bool :=
            match l, l' with
            | [], [] => true
            | c :: r, c' :: r' => node_eqb c c' && all2 r r'
            | _, _ => false
            end) cs cs'
  | _, _ => false
  end.

(** An entry of the set [protected_elements]: the identity of the tag and
    the text its hash was taken from when it entered the set
    ([Tag.__hash__] hashes [str(tag)]). *)
Definition protected_set : Type := list (string * nat).

(** [h1] and [h1.parent] for every [h1] of the soup *)
Definition protect (soup : node) : protected_set :=
  flat_map
    (fun h1 =>
       match uid_of h1 with
       | None => []
       | Some u =>
           (Html.to_html h1, u)
             :: match parent_of u soup with
                | Some p => match uid_of p with
                            | Some pu => [(Html.to_html p, pu)]
                            | None => []
                            end
                | None => []
                end
       end)
    (find_all ["h1"] soup).

(** [element in protected_elements] in the soup [root]: an entry whose
    stored hash is the hash of the element as it is now, and whose tag is
    the element or is equal to it as it is now.  Hashes are compared as
    the texts they are hashes of. *)
Definition in_protected (prot : protected_set) (root element : node) : bool :=
  existsb
    (fun entry =>
       String.eqb (fst entry) (Html.to_html element)
       && (has_uid (snd entry) element
           || match (if has_uid (snd entry) root then Some root
                     else find_node (snd entry) root) with
              | Some p => node_eqb p element
              | None => false
              end))
    prot.

(** [element.find(lambda tag: tag in protected_elements)] is not [None] *)
Definition contains_protected (prot : protected_set) (root element : node) : bool :=
  existsb (in_protected prot root) (descendants element).

(** [audio_pattern.search(attrs_str)] on the lowered text *)
Definition audio_match (s : string) : bool :=
  PyStr.contains "audio" s || PyStr.contains "player" s
  || PyStr.contains "podcast" s || PyStr.contains "sound" s.

(** the first loop: the structural tags to remove *)
Definition noise_structural (prot : protected_set) (soup : node) : list nat :=
  uids (filter (fun element =>
                  negb (in_protected prot soup element
                        || contains_protected prot soup element))
               (find_all ["header"; "footer"; "aside"; "nav"] soup)).

(** the second and third loops *)
Definition noise_audio (prot : protected_set) (soup : node) : list nat :=
  (uids (find_all ["audio"; "time"; "svg"] soup)
   ++ uids (filter (fun element =>
                      negb (in_protected prot soup element)
                      && audio_match (attrs_str (attrs_of element)))
                   (find_all_tags soup)))%list.

Definition truthy (v : option attr_value) : bool :=
  match v with
  | Some (AStr s) => negb (PyStr.is_empty s)
  | Some (AList l) => match l with [] => false | _ => true end
  | None => false
  end.

Definition link_target (a : attrs_t) : string :=
  match attr_get "target" a with
  | Some v => PyStr.lower (Html.attr_text v)
  | None => ""
  end.

(** *** The loop over the links *)

(** The loop walks the links found before it started and changes the
    soup as it goes.  A link that [replace_with] took out of the soup is
    detached but alive, with the links below it, and a later turn works
    on it where it is.  A link that was below a decomposed tag is
    destroyed, and the turn that reaches it raises. *)
Record link_state : Type := mk_links {
  links_soup : node;              (* the soup *)
  links_detached : list node;     (* the subtrees taken out alive *)
  links_to_remove : list nat;     (* [elements_to_remove] *)
  links_raised : bool             (* a turn raised *)
}.

(** the tag with identity [i] in the tree [t], [t] itself or below it *)
Definition alive_in (i : nat) (t : node) : option node :=
  if has_uid i t then Some t else find_node i t.

Fixpoint alive_among (i : nat) (trees : list node) : option node :=
  match trees with
  | [] => None
  | t :: rest =>
      match alive_in i t with
      | Some n => Some n
      | None => alive_among i rest
      end
  end.

(** [element in protected_elements] during the loop; a tag of the set is
    looked up in the soup and in the detached subtrees, and a destroyed
    one is equal to no tag *)
Definition in_protected_among (prot : protected_set) (trees : list node)
    (element : node) : bool :=
  existsb
    (fun entry =>
       String.eqb (fst entry) (Html.to_html element)
       && (has_uid (snd entry) element
           || match alive_among (snd entry) trees with
              | Some p => node_eqb p element
              | None => false
              end))
    prot.

(** [Tag.parents] of the tag with identity [i] of the tree [t] *)
Definition parents_in (i : nat) (t : node) : list node :=
  match ancestors_in i t with
  | Some ps => ps
  | None => []
  end.

(** what a turn does with its link *)
Inductive link_action : Type :=
| Keep                          (* [continue], or no [href] and no target *)
| ReplaceWith (text : string)   (* [link.replace_with(text)] *)
| Decompose                     (* [link.decompose()] *)
| Append (parent : node).       (* [elements_to_remove.append(parent)] *)

(** the tests of a turn on a link that is alive, with the parents
    [parents], the nearest first *)
Definition link_action_of (prot : protected_set) (alive : list node)
    (parents : list node) (link : node) : link_action :=
  if in_protected_among prot alive link then Keep
  else if truthy (attr_get "href" (attrs_of link))
          || PyStr.mem (link_target (attrs_of link)) ["_self"; "_blank"] then
    if existsb (named ["p"]) parents then
      let text := get_text_strip link in
      if negb (PyStr.is_empty text) then ReplaceWith text else Decompose
    else
      match parents with
      | parent :: _ =>
          if negb (in_protected_among prot alive parent)
             && negb (PyStr.mem (name_of parent)
                        ["article"; "main"; "div"; "section"; "body"; "html"])
          then Append parent
          else Decompose
      | [] => Decompose
      end
  else Keep.

(** the turn on the link [link], with identity [i], below the root of
    the tree [t]: the tree after the turn, the subtree the turn detaches
    and the tags it appends to [elements_to_remove] *)
Definition link_turn_in (prot : protected_set) (alive : list node)
    (t : node) (i : nat) (link : node) : node * list node * list nat :=
  match link_action_of prot alive (parents_in i t) link with
  | Keep => (t, [], [])
  | ReplaceWith text => (apply_edit i (fun _ => [Text text]) t, [link], [])
  | Decompose => (decompose i t, [], [])
  | Append parent => (t, [], uids [parent])
  end.

(** The turn on a link that is in one of the detached subtrees: the
    subtrees after the turn and the tags appended, or [None] when the
    link is in none of them.  A link that is the root of a detached
    subtree has no parent. *)
Fixpoint link_turn_detached (prot : protected_set) (alive : list node)
    (i : nat) (trees : list node) : option (list node * list nat) :=
  match trees with
  | [] => None
  | t :: rest =>
      if has_uid i t then
        match link_action_of prot alive [] t with
        | Keep => Some (t :: rest, [])
        | _ => Some (rest, [])
        end
      else
        match find_node i t with
        | Some link =>
            let '(t', detached, appended) := link_turn_in prot alive t i link in
            Some ((t' :: detached ++ rest)%list, appended)
        | None =>
            match link_turn_detached prot alive i rest with
            | Some (rest', appended) => Some (t :: rest', appended)
            | None => None
            end
        end
  end.

(** One turn of the loop over the links.  The link is in the soup, or in
    a detached subtree, or it was destroyed: then [link.get('href')]
    raises, and nothing around the loop catches the exception. *)
Definition remove_link_step (prot : protected_set)
    (st : link_state) (i : nat) : link_state :=
  if links_raised st then st
  else
    let alive := links_soup st :: links_detached st in
    match find_node i (links_soup st) with
    | Some link =>
        let '(soup', detached, appended) :=
          link_turn_in prot alive (links_soup st) i link in
        mk_links soup' (detached ++ links_detached st)%list
                 (links_to_remove st ++ appended)%list false
    | None =>
        match link_turn_detached prot alive i (links_detached st) with
        | Some (detached', appended) =>
            mk_links (links_soup st) detached'
                     (links_to_remove st ++ appended)%list false
        | None =>
            mk_links (links_soup st) (links_detached st) (links_to_remove st) true
        end
    end.

(** the last loop: [if element.parent: element.decompose()]; a tag that
    is not in the soup has no parent or is in a detached subtree, and the
    soup stays as it is *)
Definition remove_listed (root : node) (i : nat) : node :=
  match parent_of i root with
  | Some _ => decompose i root
  | None => root
  end.

(** the state in which the loop over the links ends *)
Definition link_loop (soup : node) : link_state :=
  let prot := protect soup in
  fold_left (remove_link_step prot) (uids (find_all ["a"] soup))
    (mk_links soup [] (noise_structural prot soup ++ noise_audio prot soup)%list false).

(** the soup as [_remove_noise] leaves it: after the last loop, or as it
    is when the loop over the links raises *)
Definition remove_noise_soup (soup : node) : node :=
  let st := link_loop soup in
  if links_raised st then links_soup st
  else fold_left remove_listed (links_to_remove st) (links_soup st).

(** [_remove_noise(soup)]: the soup it leaves when it returns *)
Definition remove_noise (soup : node) : outcome node :=
  if links_raised (link_loop soup) then Raised
  else Returned (remove_noise_soup soup).

(* ================================================================== *)
(** ** The body: [_find_article_container] *)
(* ================================================================== *)

Definition min_text_length : nat := 150.
Definition min_word_count : nat := 35.
Definition min_paragraph_count : nat := 3.

Definition heading_names : list string := ["h1"; "h2"; "h3"; "h4"; "h5"; "h6"].

Definition p_count (element : node) : nat := length (find_all ["p"] element).
Definition text_length (element : node) : nat := String.length (get_text_strip element).

(** Scores are Python floats in the source; they are rationals here. *)
Definition Qnat (n : nat) : Q := inject_Z (Z.of_nat n).
Definition Qltb (x y : Q) : bool := negb (Qle_bool y x).

(** [get_content_density(element)] *)
Definition get_content_density (element : node) : Q :=
  let paragraphs := p_count element in
  let headings := length (find_all heading_names element) in
  let total_nodes := length (children_tags element) in
  let density := Qmake (Z.of_nat (text_length element))
                       (Pos.of_nat (Nat.max total_nodes 1)) in
  Qplus (Qplus density (Qnat (paragraphs * 100))) (Qnat (headings * 50)).

Definition semantic_bonus (nm : string) (base : Q) : Q :=
  if String.eqb nm "article" then Qmult base (Qmake 15 10)
  else if String.eqb nm "main" then Qmult base (Qmake 13 10)
  else base.

(** [score_container(element)]: the score and the best container *)
Fixpoint score_container (element : node) : Q * option node :=
  match element with
  | Text _ => (Qnat 0, None)
  | Elem _ nm _ cs =>
      let base_score := semantic_bonus nm (get_content_density element) in
      let '(best_child_score, best_child) :=
        fold_left
          (fun (best : Q * option node) (child : node) =>
             if named ["div"; "article"; "main"; "section"] child then
               let '(child_score, child_container) := score_container child in
               if Qltb (fst best) child_score then (child_score, child_container)
               else best
             else best)
          cs (Qnat 0, None) in
      let total_score := Qplus base_score (Qmult best_child_score (Qmake 8 10)) in
      match best_child with
      | Some bc =>
          if Qltb best_child_score base_score then (total_score, Some element)
          else (total_score, Some bc)
      | None => (total_score, Some element)
      end
  end.

(** the candidates a list of seeds gives: [(score, container)] for the
    seeds with a positive score *)
Definition candidates_of (seeds : list node) : list (Q * node) :=
  flat_map
    (fun seed =>
       match score_container seed with
       | (score, Some container) =>
           if Qltb (Qnat 0) score then [(score, container)] else []
       | (_, None) => []
       end)
    seeds.

(** the names given to the second [find_all]; the last two are written
    as CSS selectors in the source, and [find_all] compares them with tag
    names like the others *)
Definition all_container_names : list string :=
  ["article"; "main";
   "div[class*=" ++ PyStr.dq ++ "content" ++ PyStr.dq ++ "]";
   "div[class*=" ++ PyStr.dq ++ "article" ++ PyStr.dq ++ "]"].

(** the tags the search starts from, at the root level and, when these
    give no candidate, anywhere *)
Definition root_seeds (soup : node) : list node :=
  find_all_direct ["article"; "main"] soup.

Definition fallback_seeds (soup : node) : list node :=
  find_all all_container_names soup.

Definition article_candidates (soup : node) : list (Q * node) :=
  match candidates_of (root_seeds soup) with
  | [] => candidates_of (fallback_seeds soup)
  | cands => cands
  end.

(** [max(candidates, key=lambda x: x[0])]: the first of the greatest *)
Fixpoint max_by_score (best : Q * node) (l : list (Q * node)) : Q * node :=
  match l with
  | [] => best
  | c :: r => if Qltb (fst best) (fst c) then max_by_score c r else max_by_score best r
  end.

Definition find_article_container (soup : node) : option node :=
  match article_candidates soup with
  | [] => None
  | cands =>
      match filter (fun sc => Nat.leb min_paragraph_count (p_count (snd sc))
                              && Nat.leb min_text_length (text_length (snd sc)))
                   cands with
      | [] => None
      | c :: r => Some (snd (max_by_score c r))
      end
  end.

(** ** The complete-article check: [_is_complete_article] *)

(** [tag.find_previous_siblings(names)] for the tag with identity [i]:
    the tags before it in the contents of its parent *)
Fixpoint siblings_before (i : nat) (l : list node) : list node :=
  match l with
  | [] => []
  | c :: r => if has_uid i c then [] else c :: siblings_before i r
  end.

Definition previous_siblings (names : list string) (i : nat) (root : node) : list node :=
  match parent_of i root with
  | Some parent => filter (named names) (siblings_before i (contents_of parent))
  | None => []
  end.

(** [elements_before] for the first [h1] below [element], if any *)
Definition elements_before_h1 (element : node) : option nat :=
  match find_all ["h1"] element with
  | [] => None
  | first_h1 :: _ =>
      match uid_of first_h1 with
      | Some u => Some (length (previous_siblings ["p"; "div"; "section"] u element))
      | None => None
      end
  end.

Definition is_complete_article (element : node) : bool :=
  match elements_before_h1 element with
  | Some elements_before =>
      if Nat.ltb 2 elements_before then false
      else Nat.leb min_paragraph_count (p_count element)
           && Nat.leb (min_text_length * 2) (text_length element)
  | None => false
  end.

(* ================================================================== *)
(** ** Header, merge and the pipeline *)
(* ================================================================== *)

(** [BeautifulSoup(markup, 'html.parser')] with the contents [cs] *)
Definition mk_soup (cs : list node) : node := Elem 0 Html.document_name [] cs.

Definition metadata_patterns : list string :=
  ["author"; "byline"; "date"; "time"; "published";
   "meta"; "tag"; "category"; "topic"; "share"; "social"].

Definition is_metadata_element (element : node) : bool :=
  match element with
  | Text _ => false
  | Elem _ _ a _ =>
      let classes := PyStr.lower (class_joined a) in
      let text := PyStr.lower (get_text_strip element) in
      existsb (fun pattern => PyStr.contains pattern classes
                              || PyStr.contains pattern text)
              metadata_patterns
  end.

Definition id_attr_lower (a : attrs_t) : string :=
  match attr_get "id" a with
  | Some v => PyStr.lower (Html.attr_text v)
  | None => ""
  end.

(** the test of the loop over [h1.parents] *)
Definition looks_like_header (parent : node) : bool :=
  let classes := PyStr.lower (class_joined (attrs_of parent)) in
  let id_attr := id_attr_lower (attrs_of parent) in
  PyStr.contains "header" classes || PyStr.contains "title" classes
  || PyStr.contains "header" id_attr || PyStr.contains "title" id_attr
  || PyStr.contains "meta" classes || PyStr.contains "info" classes.

(** the loop over [h1.parents], which stops at [body] *)
Fixpoint header_like_parent (parents : list node) : option node :=
  match parents with
  | [] => None
  | parent :: rest =>
      if String.eqb (name_of parent) "body" then None
      else if PyStr.mem (name_of parent) ["div"; "section"] && looks_like_header parent
           then Some parent
           else header_like_parent rest
  end.

(** the tags after the tag with identity [i] in a list of contents *)
Fixpoint siblings_after (i : nat) (l : list node) : list node :=
  match l with
  | [] => []
  | c :: r => if has_uid i c then filter is_tag r else siblings_after i r
  end.

(** the loop over [h1.find_next_siblings()]: the metadata tags up to the
    first [p] or [div] that is not one *)
Fixpoint metadata_after (l : list node) : list node :=
  match l with
  | [] => []
  | sibling :: rest =>
      if is_metadata_element sibling then sibling :: metadata_after rest
      else if PyStr.mem (name_of sibling) ["p"; "div"] then []
      else metadata_after rest
  end.

(** The results of [is_duplicate]: a boolean, or for a [header] the new
    header or [None]. *)
Inductive dup_result : Type :=
| DupBool (b : bool)
| DupHeader (h : option node).

(** how Python reads the result as a condition *)
Definition dup_truth (r : dup_result) : bool :=
  match r with
  | DupBool b => b
  | DupHeader (Some _) => true
  | DupHeader None => false
  end.

(** the sets [seen_text] and [seen_images] *)
Record seen_sets : Type := mk_seen { seen_text : list string; seen_images : list string }.

Definition src_of (element : node) : string :=
  match attr_get "src" (attrs_of element) with
  | Some v => Html.attr_text v
  | None => ""
  end.

(** the loop over the images of a [figure]: [true] at the first source
    seen before; the sources before it stay in the set *)
Fixpoint nested_images_seen (imgs : list node) (images : list string)
  : bool * list string :=
  match imgs with
  | [] => (false, images)
  | img :: rest =>
      if PyStr.mem (src_of img) images then (true, images)
      else nested_images_seen rest (src_of img :: images)
  end.

(** [is_duplicate(element)].  The loop over [element.children] of a
    [header] appends the child it keeps to the new header, which takes it
    out of the list the loop walks: the next child moves into its place
    and the loop skips it ([skip]). *)
Fixpoint is_duplicate (seen : seen_sets) (element : node) : dup_result * seen_sets :=
  match element with
  | Text _ => (DupBool false, seen)
  | Elem _ nm _ cs =>
      if PyStr.mem nm ["p"; "h1"; "h2"; "h3"; "h4"; "h5"; "h6"] then
        let text := get_text_strip element in
        if PyStr.mem text (seen_text seen) then (DupBool true, seen)
        else (DupBool false, mk_seen (text :: seen_text seen) (seen_images seen))
      else if PyStr.mem nm ["img"; "picture"; "figure"] then
        let img_src := src_of element in
        if PyStr.mem img_src (seen_images seen) then (DupBool true, seen)
        else
          let images := img_src :: seen_images seen in
          if String.eqb nm "figure" then
            let '(dup, images') := nested_images_seen (find_all ["img"] element) images in
            (DupBool dup, mk_seen (seen_text seen) images')
          else (DupBool false, mk_seen (seen_text seen) images)
      else if String.eqb nm "header" then
        let '(kept, seen') :=
          (fix walk (skip : bool) (l : list node) (seen : seen_sets)
             : list node * seen_sets :=
             match l with
             | [] => ([], seen)
             | child :: rest =>
                 if skip then walk false rest seen
                 else if is_tag child then
                   let '(r, seen1) := is_duplicate seen child in
                   if dup_truth r then walk false rest seen1
                   else let '(k, seen2) := walk true rest seen1 in (child :: k, seen2)
                 else walk false rest seen
             end) false cs seen in
        match kept with
        | [] => (DupHeader None, seen')
        | _ => (DupHeader (Some (Elem 0 "header" [("class", AList ["article-header"])] kept)),
                seen')
        end
      else (DupBool false, seen)
  end.

(** the loops of [_merge_content] over the children of the header soup
    and of the body soup: what is appended to the new container *)
Fixpoint merge_children (skip : bool) (l : list node) (seen : seen_sets)
  : list node * seen_sets :=
  match l with
  | [] => ([], seen)
  | element :: rest =>
      if skip then merge_children false rest seen
      else if is_tag element then
        let '(r, seen1) := is_duplicate seen element in
        if String.eqb (name_of element) "header" then
          match r with
          | DupHeader (Some processed_header) =>
              let '(k, seen2) := merge_children false rest seen1 in
              (processed_header :: k, seen2)
          | _ => merge_children false rest seen1
          end
        else if dup_truth r then merge_children false rest seen1
        else let '(k, seen2) := merge_children true rest seen1 in (element :: k, seen2)
      else merge_children false rest seen
  end.

Section Pipeline.

(** the HTML parser: the contents of the soup it builds *)
Variable parse : string -> list node.

(** what the library does with [str] of a destroyed tag *)
Variable lib : destroyed_str.

(** [BeautifulSoup(str(tag), 'html.parser')] *)
Definition reparse (n : node) : node := mk_soup (parse (Html.to_html n)).

Definition find_h1_container (soup : node) : option node :=
  match find_all ["h1"] soup with
  | [] => None
  | h1 :: _ =>
      match uid_of h1 with
      | None => None
      | Some u =>
          let parents := match ancestors_in u soup with Some ps => ps | None => [] end in
          match find (named ["header"]) parents with
          | Some header_container => Some header_container
          | None =>
              match header_like_parent parents with
              | Some parent => Some parent
              | None =>
                  let siblings := match parents with
                                  | parent :: _ => contents_of parent
                                  | [] => []
                                  end in
                  let before :=
                    filter is_metadata_element
                           (filter is_tag (siblings_before u siblings)) in
                  let after := metadata_after (siblings_after u siblings) in
                  Some (Elem 0 "header" [("class", AList ["extracted-header"])]
                          (flat_map (fun s => parse (Html.to_html s)) before
                           ++ parse (Html.to_html h1)
                           ++ flat_map (fun s => parse (Html.to_html s)) after)%list)
              end
          end
      end
  end.

Definition merge_content (header body : node) : node :=
  let seen0 := mk_seen [] [] in
  let '(from_header, seen1) :=
    merge_children false (contents_of (reparse header)) seen0 in
  let body_content := prune ["h1"] (reparse body) in
  let '(from_body, _) := merge_children false (contents_of body_content) seen1 in
  Elem 0 "article" [("class", AList ["extracted-content"])] (from_header ++ from_body)%list.

(** the soup at the end of [_clean_extracted_content], which the function
    prints; [None] when it returns the empty string before parsing *)
Definition clean_extracted_soup (html_content : string) : option node :=
  if PyStr.is_empty html_content || negb (PyStr.contains "<h1" html_content) then None
  else
    match clean_fixpoint lib (mk_soup (parse html_content)) with
    | Some soup => Some (standardize_media_dimensions soup)
    | None => None
    end.

Definition clean_extracted_content (html_content : string) : string :=
  match clean_extracted_soup html_content with
  | Some soup => Html.to_html soup
  | None => ""
  end.

(** the merged container [extract] hands to the cleaning stage; [None]
    on each path that returns the empty string.  The call of
    [_remove_noise] is in no [try]: when it raises, [extract] raises. *)
Definition extract_merged (html : string) : outcome (option node) :=
  if negb (PyStr.contains "<h1" html) then Returned None
  else
    match remove_noise (mk_soup (parse html)) with
    | Raised => Raised
    | Returned soup =>
        Returned
          match find_h1_container soup with
          | None => None
          | Some header_container =>
              match find_article_container soup with
              | None => None
              | Some body_container =>
                  if Nat.ltb (p_count body_container) min_paragraph_count then None
                  else Some (merge_content header_container body_container)
              end
          end
    end.

Definition extract (html : string) : outcome string :=
  match extract_merged html with
  | Raised => Raised
  | Returned (Some merged_container) =>
      Returned (clean_extracted_content (Html.to_html merged_container))
  | Returned None => Returned ""
  end.

(** the soup [extract] prints, when it prints one *)
Definition extract_soup (html : string) : option node :=
  match extract_merged html with
  | Returned (Some merged_container) =>
      clean_extracted_soup (Html.to_html merged_container)
  | _ => None
  end.

End Pipeline.

(* ================================================================== *)
(** ** A parser for the examples *)
(* ================================================================== *)

(** The pipeline takes its parser as a parameter.  The examples run it
    with this one, which reads well-formed markup: tags with attributes
    in single or double quotes, closing tags, void tags and text.  Like the library
    parser it lowers the tag names and reads [class] as a list; each tag
    gets the next identity, from 1. *)
Module Fixture.

Inductive token : Type :=
| TOpen (name : string) (attrs : attrs_t)
| TClose (name : string)
| TText (s : string).

Definition is_char (n : nat) (c : ascii) : bool := Nat.eqb (nat_of_ascii c) n.

Fixpoint span_until (stop : ascii -> bool) (s : string) : string * string :=
  match s with
  | EmptyString => ("", "")
  | String c r =>
      if stop c then ("", s)
      else let '(a, b) := span_until stop r in (String c a, b)
  end.

Definition drop1 (s : string) : string :=
  match s with EmptyString => "" | String _ r => r end.

Fixpoint words (fuel : nat) (s : string) : list string :=
  match fuel with
  | 0 => []
  | S f =>
      match PyStr.lstrip s with
      | EmptyString => []
      | s' => let '(w, r) := span_until PyStr.is_space s' in w :: words f r
      end
  end.

Definition attr_of (k v : string) : string * attr_value :=
  if String.eqb k "class" then (k, AList (words (String.length v) v)) else (k, AStr v).

Fixpoint parse_attrs (fuel : nat) (s : string) : attrs_t :=
  match fuel with
  | 0 => []
  | S f =>
      match PyStr.lstrip s with
      | EmptyString => []
      | s' =>
          let '(k, r) := span_until (fun c => is_char 61 c || PyStr.is_space c) s' in
          match r with
          | String e (String q r') =>
              if is_char 61 e && (is_char 34 q || is_char 39 q) then
                let '(v, r'') := span_until (Ascii.eqb q) r' in
                attr_of k v :: parse_attrs f (drop1 r'')
              else (k, AStr "") :: parse_attrs f (String q r')
          | _ => [(k, AStr "")]
          end
      end
  end.

Definition strip_slash (s : string) : string :=
  let t := PyStr.rstrip s in
  match String.length t with
  | 0 => t
  | S n => if String.eqb (String.substring n 1 t) "/" then String.substring 0 n t else t
  end.

Fixpoint lex (fuel : nat) (s : string) : list token :=
  match fuel with
  | 0 => []
  | S f =>
      match s with
      | EmptyString => []
      | String c r =>
          if is_char 60 c then
            let '(inside, rest) := span_until (is_char 62) r in
            match inside with
            | String c' nm =>
                if is_char 47 c' then TClose (PyStr.lower (PyStr.strip nm)) :: lex f (drop1 rest)
                else
                  let '(nm, at_) := span_until PyStr.is_space (strip_slash inside) in
                  TOpen (PyStr.lower nm) (parse_attrs (String.length at_) at_)
                    :: lex f (drop1 rest)
            | EmptyString => lex f (drop1 rest)
            end
          else
            let '(t, rest) := span_until (is_char 60) s in TText t :: lex f rest
      end
  end.

(** an open tag: its identity, name and attributes, and the nodes read
    before it in its parent, the last first *)
Definition frame : Type := (nat * string * attrs_t * list node)%type.

Fixpoint close_all (cur : list node) (stack : list frame) : list node :=
  match stack with
  | [] => rev cur
  | (u, nm, a, saved) :: st => close_all (Elem u nm a (rev cur) :: saved) st
  end.

Fixpoint build (toks : list token) (next : nat) (cur : list node) (stack : list frame)
  : list node :=
  match toks with
  | [] => close_all cur stack
  | TText s :: r => build r next (Text s :: cur) stack
  | TOpen nm a :: r =>
      if PyStr.mem nm Html.void_tags then build r (S next) (Elem next nm a [] :: cur) stack
      else build r (S next) [] ((next, nm, a, cur) :: stack)
  | TClose _ :: r =>
      match stack with
      | [] => build r next cur stack
      | (u, nm, a, saved) :: st => build r next (Elem u nm a (rev cur) :: saved) st
      end
  end.

Definition parse (html : string) : list node :=
  build (lex (S (String.length html)) html) 1 [] [].

End Fixture.

(* ================================================================== *)
(** ** Documents and soups for the examples *)
(* ================================================================== *)

Module Examples.

(** a merged container with a sharing block that holds a paragraph, an
    empty block and a block that only wraps another one *)
Definition share_soup : node :=
  mk_soup
    [Elem 1 "article" [("class", AList ["extracted-content"])]
       [Elem 2 "header" [] [Elem 3 "h1" [] [Text "Title"]];
        Elem 4 "div" [("class", AList ["share"])] [Elem 5 "p" [] [Text "hello world"]];
        Elem 6 "div" [] [Elem 7 "span" [] []];
        Elem 8 "div" [] [Elem 9 "div" [] [Elem 10 "p" [] [Text "a"]; Elem 11 "p" [] [Text "b"]]]]].

(** a merged container with two sharing lists *)
Definition share_lists_soup : node :=
  mk_soup
    [Elem 1 "article" [("class", AList ["extracted-content"])]
       [Elem 2 "h1" [] [Text "Title"];
        Elem 3 "ul" [("class", AList ["share"])] [Elem 4 "li" [] [Text "x"]];
        Elem 5 "ul" [("class", AList ["share"])] [Elem 6 "li" [] [Text "y"]]]].

Definition long_paragraph : string :=
  "<p>Lorem ipsum dolor sit amet, consectetur adipiscing elit, sed do eiusmod tempor incididunt ut labore et dolore magna aliqua. Ut enim ad minim veniam, quis nostrud exercitation.</p>".

(** a page with a header and an article of three paragraphs and an image *)
Definition article_doc : string :=
  "<div><header><h1>Title</h1></header><article>" ++ long_paragraph
  ++ "<p>Second paragraph.</p><p>Third paragraph.</p><img src='a.png'/></article></div>".

(** a page whose header holds two headlines, and whose article has the
    same paragraph twice and an empty one *)
Definition repeated_doc : string :=
  "<div><header><h1>Title</h1>or<h1>Other</h1></header><article>" ++ long_paragraph
  ++ long_paragraph ++ "<p></p></article></div>".

Definition lorem : string :=
  "Lorem ipsum dolor sit amet, consectetur adipiscing elit, sed do eiusmod tempor incididunt ut labore et dolore magna aliqua. Ut enim ad minim veniam, quis nostrud exercitation.".

(** an article whose first headline comes after three blocks, and which
    has a second headline at the top of a section *)
Definition buried_article : node :=
  Elem 1 "article" []
    [Elem 2 "div" [] [Text "one"]; Elem 3 "div" [] [Text "two"];
     Elem 4 "div" [] [Text "three"];
     Elem 5 "h1" [] [Text "First"];
     Elem 6 "section" [] [Elem 7 "h1" [] [Text "Second"]];
     Elem 8 "p" [] [Text lorem]; Elem 9 "p" [] [Text lorem]; Elem 10 "p" [] [Text "end"]].

(** an article with its headline at the top *)
Definition complete_article : node :=
  Elem 1 "article" []
    [Elem 2 "h1" [] [Text "First"];
     Elem 3 "p" [] [Text lorem]; Elem 4 "p" [] [Text lorem]; Elem 5 "p" [] [Text "end"]].

(** an article with its only headline after four blocks *)
Definition comments_article : node :=
  Elem 1 "article" []
    [Elem 2 "div" [] [Text "one"]; Elem 3 "div" [] [Text "two"];
     Elem 4 "div" [] [Text "three"]; Elem 5 "div" [] [Text "four"];
     Elem 6 "h1" [] [Text "First"];
     Elem 7 "p" [] [Text lorem]; Elem 8 "p" [] [Text lorem]; Elem 9 "p" [] [Text "end"]].

(** a page whose text is in a [div] of class [content] *)
Definition content_div : node :=
  Elem 4 "div" [("class", AList ["content"])]
    [Elem 5 "p" [] [Text lorem]; Elem 6 "p" [] [Text "two"]; Elem 7 "p" [] [Text "three"]].

Definition content_div_soup : node :=
  mk_soup [Elem 1 "html" [] [Elem 2 "body" [] [Elem 3 "h1" [] [Text "Title"]; content_div]]].

(** the markup of that page *)
Definition content_div_doc : string :=
  "<html><body><h1>Title</h1><div class='content'><p>" ++ lorem
  ++ "</p><p>two</p><p>three</p></div></body></html>".

(** a headline and a navigation block side by side in a [div] *)
Definition nav_beside_h1_soup : node :=
  mk_soup [Elem 1 "div" []
             [Elem 2 "h1" [] [Text "Title"];
              Elem 3 "nav" [] [Text "menu"];
              Elem 4 "p" [] [Text "Some text."]]].

(** a page whose article is below [body], not at the root *)
Definition nested_article_soup : node :=
  mk_soup [Elem 1 "html" [] [Elem 2 "body" []
    [Elem 3 "h1" [] [Text "Title"];
     Elem 4 "article" [] [Elem 5 "p" [] [Text lorem]]]]].

(** a page with no [h1] tag, and the text [<h1] in the name of another tag *)
Definition no_h1_doc : string :=
  "<div><h1x>Title</h1x><p>Some text.</p></div>".


(** a page with no [h1] tag and a link inside a link *)
Definition nested_links_doc : string :=
  "<div><h1x>Title</h1x><p>Some text.</p></div>"
  ++ "<div><a href='/a'>one<a href='/b'>two</a></a></div>".

Definition nested_links_soup : node := mk_soup (Fixture.parse nested_links_doc).

(** a page whose headline tags are in upper case *)
Definition uppercase_doc : string := "<H1>Title</H1>".

End Examples.

(* ================================================================== *)
(** ** Measures and invariants of the proofs *)
(* ================================================================== *)

(** the number of tags of a list of nodes *)
Definition weight (l : list node) : nat := list_sum (map tag_count l).

(** What every turn of the three loops of [clean_pass] does: nothing, or
    it counts one removal; the tree never gains tags, and it loses some
    when the tag visited is still in the tree. *)
Definition turn_ok (step : pass_state -> nat -> pass_state) : Prop :=
  forall st i,
    step st i = st \/
    (snd (step st i) = S (snd st) /\
     tag_count (fst (step st i)) <= tag_count (fst st) /\
     (find_node i (fst st) <> None ->
      tag_count (fst (step st i)) < tag_count (fst st))).

(** The state of a pass started on [soup]: nothing counted and the soup
    as it was, or something counted and fewer tags. *)
Definition pass_inv (soup : node) (st : pass_state) : Prop :=
  (snd st = 0 /\ fst st = soup) \/
  (0 < snd st /\ tag_count (fst st) < tag_count soup).

(** the identity and the name of every tag of a tree, in document order;
    an edit changes the contents of the ancestors of the tag it replaces
    and leaves these alone *)
Fixpoint labels (n : node) : list (nat * string) :=
  match n with
  | Text _ => []
  | Elem u nm _ cs => (u, nm) :: flat_map labels cs
  end.

Definition labels_below (n : node) : list (nat * string) :=
  flat_map labels (contents_of n).

Definition tag_label (n : node) : nat * string :=
  match n with
  | Elem u nm _ _ => (u, nm)
  | Text _ => (0, "")
  end.

(** [new] has the labels of [old] less a run of them *)
Definition cut_of (old new : list (nat * string)) : Prop :=
  exists l1 m l2, old = (l1 ++ m ++ l2)%list /\ new = (l1 ++ l2)%list.

(** [new] is a part of [old], and has no identity twice when [old] has
    none *)
Definition shrunk (old new : list (nat * string)) : Prop :=
  incl new old /\ (NoDup (map fst old) -> NoDup (map fst new)).

(** an [img] or [picture] tag with both sizes set *)
Definition sized (e : node) : Prop :=
  named ["img"; "picture"] e = true ->
  attr_get "width" (attrs_of e) = Some (AStr "256")
  /\ attr_get "height" (attrs_of e) = Some (AStr "256").

From Stdlib Require Import Permutation Qminmax.

(* ================================================================== *)
(** ** More of the cleaning stage *)
(* ================================================================== *)

(** *** The tests of the three loops of a pass *)

(** the first loop removes a [div] or [section] with no paragraph,
    headline or media below it *)
Definition removable_block (e : node) : bool :=
  named ["div"; "section"] e
  && negb (has_any ["p"] e || has_any ["h1"] e
           || has_any ["img"; "picture"; "figure"; "video"] e).

(** the first loop replaces by its child a [div] or [section] with no
    direct paragraph and a single tag child, which is a structural tag *)
Definition redundant_wrapper (e : node) : bool :=
  named ["div"; "section"] e
  && negb (Nat.ltb 0 (length (find_all_direct ["p"] e)))
  && match children_tags e with
     | [child] => PyStr.mem (name_of child) ["article"; "main"; "div"; "section"]
     | _ => false
     end.

(** the third loop removes a tag with no text, which is not a media tag
    and has no paragraph, image or headline as a child *)
Definition removable_empty (e : node) : bool :=
  negb (PyStr.mem (name_of e) ["img"; "video"; "figure"; "picture"])
  && is_empty_container e
  && negb (Nat.ltb 0 (length (find_all_direct
                                ["p"; "img"; "h1"; "h2"; "h3"; "picture"] e))).


(* ================================================================== *)
(** ** The stable variant: src/extractors/content_extractor_stable.py *)
(* ================================================================== *)

(** the moves of [for element in soup.children: container.append(element)]:
    the tags appended; the child after an appended tag is skipped, as in
    the loops of [_merge_content] *)
Fixpoint append_children (skip : bool) (l : list node) : list node :=
  match l with
  | [] => []
  | element :: rest =>
      if skip then append_children false rest
      else if is_tag element then element :: append_children true rest
      else append_children false rest
  end.

Module Stable.

(** [should_remove_container] of the stable file: it has the tests of the
    other file but those for "share" and "save" *)
Definition should_remove_container (root element : node) : bool :=
  match element with
  | Text _ => false
  | Elem u nm a _ =>
      if has_any ["h1"] element || PyStr.mem nm ["html"; "body"] then false
      else if PyStr.mem nm ["p"; "article"] then false
      else if Nat.ltb 1 (length (find_all_direct ["p"] element)) then false
      else if (PyStr.mem nm interactive_tags
               || existsb (fun c => PyStr.mem (name_of c) interactive_tags)
                          (find_all_tags element))
              && negb (has_any ["p"; "img"; "h1"; "h2"; "h3"] element) then true
      else if PyStr.mem nm ["a"; "span"] && has_parent_named ["p"] u root then false
      else if PyStr.mem nm ["a"; "span"]
              && Nat.ltb (PyStr.word_count (get_text_strip element)) 10 then true
      else if PyStr.contains "related" (PyStr.lower (Html.to_html element))
              && negb (has_any ["p"] element) then true
      else if nonempty_attrs a
              && existsb (fun kv => related_value (snd kv)) a
              && negb (has_any ["p"] element) then true
      else false
  end.

Definition clean_pass (lib : destroyed_str) : node -> pass_state :=
  clean_pass_with lib should_remove_container.

Definition pass_raised (lib : destroyed_str) : node -> bool :=
  pass_raised_with lib should_remove_container.

Definition clean_fixpoint (lib : destroyed_str) : node -> option node :=
  clean_fixpoint_with lib should_remove_container.

(** [self.content_patterns.search(s)]: one of the words of the pattern is
    in [s], in any case *)
Definition content_words : list string :=
  ["article"; "content"; "main"; "post"; "entry"; "story"; "text"; "body";
   "news"; "blog"; "detail"; "single"; "page-content"; "post-content"].

Definition content_patterns_search (s : string) : bool :=
  existsb (fun w => PyStr.contains w (PyStr.lower s)) content_words.

Definition id_attr (a : attrs_t) : string :=
  match attr_get "id" a with
  | Some v => Html.attr_text v
  | None => ""
  end.

(** [sum(len(a.get_text(strip=True)) for a in links)] *)
Definition link_text_length (links : list node) : nat :=
  list_sum (map text_length links).

(** the link density factor of both scores: [score *= (1 - link_density)]
    when the element has links *)
Definition link_penalty (element : node) (divisor : nat) (score : Q) : Q :=
  match find_all ["a"] element with
  | [] => score
  | links =>
      Qmult score
        (Qminus (Qnat 1) (Qdiv (Qnat (link_text_length links)) (Qnat divisor)))
  end.

(** [score_article(element)] of [_find_article_container] *)
Definition score_article (element : node) : Q :=
  let text_len := text_length element in
  let s0 := Qmin (Qdiv (Qnat text_len) (Qnat 500)) (Qnat 20) in
  let s1 := if has_any ["h1"] element then Qplus s0 (Qnat 25) else s0 in
  let s2 := Qplus (Qplus s1 (Qnat (p_count element * 2)))
                  (Qnat (length (find_all ["img"] element) * 3)) in
  let s3 := link_penalty element (Nat.max text_len 1) s2 in
  if String.eqb (name_of element) "article" then Qmult s3 (Qmake 15 10) else s3.

(** [best_article] and [best_article_score] *)
Definition best_t : Type := (option node * Q)%type.

(** one turn of the four loops: an element with enough text replaces the
    best when its score is greater *)
Definition consider (best : best_t) (element : node) : best_t :=
  if Nat.leb min_text_length (text_length element) then
    let score := score_article element in
    if Qltb (snd best) score then (Some element, score) else best
  else best.

(** [not best_article or best_article_score < 30] *)
Definition needs_more (best : best_t) : bool :=
  match fst best with
  | None => true
  | Some _ => Qltb (snd best) (Qnat 30)
  end.

(** [soup.find_all(attrs={'role': role})] *)
Definition has_role (role : string) (element : node) : bool :=
  match attr_get "role" (attrs_of element) with
  | Some (AStr s) => String.eqb s role
  | Some (AList l) => PyStr.mem role l || String.eqb (PyStr.join " " l) role
  | None => false
  end.

(** the test of the fourth loop before the text length *)
Definition content_named (element : node) : bool :=
  content_patterns_search (id_attr (attrs_of element))
  || content_patterns_search (class_joined (attrs_of element)).

(** the [has_content] test of the fourth loop *)
Definition has_heading_or_paragraph (element : node) : bool :=
  has_any heading_names element || Nat.leb 1 (p_count element).

Definition find_article_container (soup : node) : option node :=
  let b1 := fold_left consider (find_all ["article"] soup) (None, Qnat 0) in
  let b2 := if needs_more b1
            then fold_left consider (find_all ["main"] soup) b1 else b1 in
  let b3 := if needs_more b2
            then fold_left consider
                   (filter (has_role "main") (find_all_tags soup)
                    ++ filter (has_role "article") (find_all_tags soup))%list b2
            else b2 in
  let b4 := if needs_more b3
            then fold_left
                   (fun best element =>
                      if content_named element
                         && Nat.leb min_text_length (text_length element)
                         && has_heading_or_paragraph element
                      then consider best element else best)
                   (find_all ["div"; "section"] soup) b3
            else b3 in
  fst b4.

(** the score of the second strategy of [extract] *)
Definition score_candidate (candidate : node) : Q :=
  let text_len := text_length candidate in
  let s0 := Qmin (Qdiv (Qnat text_len) (Qnat 500)) (Qnat 20) in
  let s1 := Qplus (Qplus s0 (Qnat (p_count candidate * 2)))
                  (Qnat (length (find_all ["img"] candidate) * 3)) in
  let s2 := if content_patterns_search (id_attr (attrs_of candidate))
            then Qplus s1 (Qnat 10) else s1 in
  let s3 := if content_patterns_search (class_joined (attrs_of candidate))
            then Qplus s2 (Qnat 10) else s2 in
  link_penalty candidate text_len s3.

(** the candidates of the second strategy: the articles with an [h1] and
    enough text, or else the [div] and [section] tags with an [h1],
    enough text and two paragraphs *)
Definition article_candidates (soup : node) : list node :=
  match filter (fun article => has_any ["h1"] article
                               && Nat.leb min_text_length (text_length article))
               (find_all ["article"] soup) with
  | [] => filter (fun element => has_any ["h1"] element
                                 && Nat.leb min_text_length (text_length element)
                                 && Nat.leb 2 (p_count element))
                 (find_all ["div"; "section"] soup)
  | articles => articles
  end.

Definition better_candidate (best : best_t) (candidate : node) : best_t :=
  let score := score_candidate candidate in
  if Qltb (snd best) score then (Some candidate, score) else best.

Definition best_candidate (candidates : list node) : option node :=
  fst (fold_left better_candidate candidates (None, Qnat 0)).

(** the first [main], [div] or [section] with one [h1], enough text and
    two paragraphs *)
Definition fallback_container (soup : node) : option node :=
  find (fun element => Nat.eqb (length (find_all ["h1"] element)) 1
                       && Nat.leb min_text_length (text_length element)
                       && Nat.leb 2 (p_count element))
       (find_all ["main"; "div"; "section"] soup).

Section Pipeline.

Variable parse : string -> list node.
Variable lib : destroyed_str.

(** [_clean_extracted_content] of the stable file *)
Definition clean_extracted_soup (html_content : string) : option node :=
  if PyStr.is_empty html_content || negb (PyStr.contains "<h1" html_content) then None
  else
    match clean_fixpoint lib (mk_soup (parse html_content)) with
    | Some soup => Some (standardize_media_dimensions soup)
    | None => None
    end.

Definition clean_extracted_content (html_content : string) : string :=
  match clean_extracted_soup html_content with
  | Some soup => Html.to_html soup
  | None => ""
  end.

(** The first strategy: [Some] of what [extract] returns from it, [None]
    when [extract] goes on to the second.  Appending the [h1] the parser
    finds in [str(first_h1)] raises when it finds none, and the [except]
    branch returns the cleaned article alone. *)
Definition strategy_one (soup : node) : option string :=
  match find_article_container soup with
  | None => None
  | Some article_container =>
      if is_complete_article article_container
      then Some (clean_extracted_content (Html.to_html article_container))
      else
        match find_all ["h1"] soup with
        | [] => None
        | first_h1 :: _ =>
            match find_all ["h1"] (reparse parse first_h1) with
            | [] => Some (clean_extracted_content (Html.to_html article_container))
            | new_h1 :: _ =>
                let article_content := prune ["h1"] (reparse parse article_container) in
                let new_container :=
                  Elem 0 "article" [("class", AList ["extracted-content"])]
                       (new_h1 :: append_children false (contents_of article_content)) in
                Some (clean_extracted_content (Html.to_html new_container))
            end
        end
  end.

(** the second strategy, likewise *)
Definition strategy_two (soup : node) : option string :=
  match best_candidate (article_candidates soup) with
  | Some best =>
      let result := Html.to_html best in
      if Nat.eqb (length (find_all ["h1"] (mk_soup (parse result)))) 1
      then Some (clean_extracted_content result)
      else None
  | None => None
  end.

(** [extract] of the stable file; [_remove_noise] is called in no [try] *)
Definition extract (html : string) : outcome string :=
  if negb (PyStr.contains "<h1" html) then Returned ""
  else
    match remove_noise (mk_soup (parse html)) with
    | Raised => Raised
    | Returned soup =>
        Returned
          match strategy_one soup with
          | Some result => result
          | None =>
              match strategy_two soup with
              | Some result => result
              | None =>
                  match fallback_container soup with
                  | Some element => clean_extracted_content (Html.to_html element)
                  | None => ""
                  end
              end
          end
    end.

End Pipeline.

End Stable.

(** what [_find_article_container] of the stable file chooses among: the
    [article] and [main] tags, the tags of role [main] or [article], and
    the [div] and [section] tags with a content word in their [id] or
    [class] and a heading or a paragraph below them *)
Definition stable_eligible (soup e : node) : Prop :=
  In e (descendants soup)
  /\ (named ["article"; "main"] e = true
      \/ Stable.has_role "main" e = true
      \/ Stable.has_role "article" e = true
      \/ (named ["div"; "section"] e = true
          /\ Stable.content_named e = true
          /\ Stable.has_heading_or_paragraph e = true)).

(** the invariant of its four loops *)
Definition best_ok (soup : node) (best : Stable.best_t) : Prop :=
  forall e, fst best = Some e ->
            stable_eligible soup e /\ min_text_length <= text_length e.


Module MoreExamples.

(** a page for the stable variant: an article with its headline at the
    top *)
Definition stable_doc : string :=
  "<html><body><article><h1>Title</h1>" ++ Examples.long_paragraph
  ++ Examples.long_paragraph ++ "<p>Third paragraph.</p></article></body></html>".

(** a soup with an embedded video and a [picture] *)
Definition media_soup : node :=
  mk_soup
    [Elem 1 "div" []
       [Elem 2 "iframe" [("src", AStr "https://example.org/video/1");
                         ("data-width", AStr "640")] [];
        Elem 3 "picture" [("sizes", AStr "100vw")]
          [Elem 4 "source" [("srcset", AStr "a.webp")] [];
           Elem 5 "img" [("src", AStr "a.png"); ("width", AStr "640")] []]]].

(** [article_doc] after noise filtering, and its [article] *)
Definition article_soup : node :=
  remove_noise_soup (mk_soup (Fixture.parse Examples.article_doc)).

Definition article_body : node :=
  match find_all ["article"] article_soup with
  | article :: _ => article
  | [] => Text ""
  end.

(** a page with a date beside the headline *)
Definition time_soup : node :=
  mk_soup [Elem 1 "div" []
             [Elem 2 "h1" [] [Text "Title"];
              Elem 3 "time" [("datetime", AStr "2024-01-01")] [Text "today"];
              Elem 4 "p" [] [Text "Some text."]]].

(** a paragraph with a link in it *)
Definition link_soup : node :=
  mk_soup [Elem 1 "div" []
             [Elem 2 "h1" [] [Text "Title"];
              Elem 3 "p" []
                [Text "See ";
                 Elem 4 "a" [("href", AStr "https://example.org")] [Text " the report "];
                 Text " for more."]]].

Definition stable_soup : node :=
  remove_noise_soup (mk_soup (Fixture.parse stable_doc)).

(** the [article] of [stable_soup] *)
Definition stable_container : node :=
  match find_all ["article"] stable_soup with
  | article :: _ => article
  | [] => Text ""
  end.

End MoreExamples.

(** *** What media normalization may change *)

(** the attributes [_standardize_media_dimensions] writes or deletes *)
Definition sizing_keys : list string :=
  ["style"; "width"; "height"; "data-width"; "data-height"; "sizes"].

Definition other_attrs (a : attrs_t) : attrs_t :=
  filter (fun kv => negb (PyStr.mem (fst kv) sizing_keys)) a.

(** a tree without its sizing attributes *)
Fixpoint erase_sizing (n : node) : node :=
  match n with
  | Text s => Text s
  | Elem u nm a cs => Elem u nm (other_attrs a) (map erase_sizing cs)
  end.

(** the style a normalized media tag ends with *)
Definition final_style (nm : string) : string :=
  if String.eqb nm "picture" then picture_style else media_style.

(** the attributes of a media tag after normalization *)
Definition normalized (nm : string) (a : attrs_t) : Prop :=
  attr_get "style" a = Some (AStr (final_style nm))
  /\ attr_get "width" a = Some (AStr "256")
  /\ attr_get "height" a = Some (AStr "256")
  /\ attr_get "data-width" a = None
  /\ attr_get "data-height" a = None
  /\ attr_get "sizes" a = None.

(** *** The loops of the merge, for the proofs *)

(** the loop of [is_duplicate] over the children of a [header], with the
    test of a child as a parameter; [is_duplicate] runs it with itself *)
Definition header_walk (dup : seen_sets -> node -> dup_result * seen_sets) :=
  fix walk (skip : bool) (l : list node) (seen : seen_sets)
    : list node * seen_sets :=
    match l with
    | [] => ([], seen)
    | child :: rest =>
        if skip then walk false rest seen
        else if is_tag child then
          let '(r, seen1) := dup seen child in
          if dup_truth r then walk false rest seen1
          else let '(k, seen2) := walk true rest seen1 in (child :: k, seen2)
        else walk false rest seen
    end.

(** the tags whose text [is_duplicate] compares *)
Definition text_tag (e : node) : bool :=
  named ["p"; "h1"; "h2"; "h3"; "h4"; "h5"; "h6"] e.

(** the number of tags named [names] in a list of trees *)
Definition count_named (names : list string) (l : list node) : nat :=
  length (filter (named names) (flat_map self_and_descendants l)).

(** [seen_text] only grows *)
Definition grows (seen seen' : seen_sets) : Prop :=
  incl (seen_text seen) (seen_text seen').


(** what a loop of the merge emits, from the set [seen] to the set
    [seen']: the texts of the paragraphs and headings it emits are new,
    recorded, and all different *)
Definition fresh_texts (seen seen' : seen_sets) (out : list node) : Prop :=
  grows seen seen'
  /\ (forall e, In e out -> text_tag e = true ->
        In (get_text_strip e) (seen_text seen')
        /\ ~ In (get_text_strip e) (seen_text seen))
  /\ NoDup (map get_text_strip (filter text_tag out)).

(** *** Strings, for the proofs *)

(** a string with something other than white space at both ends *)
Definition trimmed (s : string) : Prop :=
  s <> "" /\ PyStr.lstrip s = s /\ PyStr.rstrip s = s.

(** the text of a list of strings: stripped, the empty ones dropped *)
Definition text_of (l : list string) : string :=
  String.concat ""
    (filter (fun s => negb (PyStr.is_empty s)) (map PyStr.strip l)).

(* ================================================================== *)
(** ** [_find_h1_container] of the stable file *)
(* ================================================================== *)

Module StableHeader.

(** the [has_content] test of the walk *)
Definition has_content (container : node) : bool :=
  has_any ["img"] container
  || has_any ["h2"; "h3"] container
  || Nat.ltb 0 (length (find_all ["p"; "figure"] container))
  || Nat.ltb 500 (text_length container).

(** how the [while] loop ends: it returns a container, it stops at
    [body], or it asks [None] for its parent, which raises *)
Inductive walk_end : Type :=
| Stop (container : option node)
| AtBody
| NoParent.

(** The loop over the ancestors of the [h1], the nearest first and the
    soup last.  Each turn ends with [container = container.parent] twice:
    the loop looks at every second ancestor, and when [container] is the
    soup its parent is [None], whose [parent] the second line asks for. *)
Fixpoint walk (containers : list node) : walk_end :=
  match containers with
  | [] => Stop None
  | container :: rest =>
      if String.eqb (name_of container) "body" then AtBody
      else if PyStr.mem (name_of container) ["article"; "main"] then Stop (Some container)
      else if String.eqb (name_of container) "div" && has_content container
           then Stop (Some container)
           else match rest with
                | [] => NoParent
                | _ :: rest' => walk rest'
                end
  end.

Definition find_h1_container (soup : node) : outcome (option node) :=
  match find_all ["h1"] soup with
  | [] => Returned None
  | h1 :: _ =>
      match uid_of h1 with
      | None => Returned None
      | Some u =>
          let parents := match ancestors_in u soup with Some ps => ps | None => [] end in
          match walk parents with
          | Stop container => Returned container
          | NoParent => Raised
          | AtBody =>
              Returned (match find (named ["div"; "header"]) parents with
                        | Some container => Some container
                        | None => hd_error parents
                        end)
          end
      end
  end.

(** an ancestor at which the walk goes on *)
Definition passed (container : node) : bool :=
  negb (String.eqb (name_of container) "body")
  && negb (PyStr.mem (name_of container) ["article"; "main"])
  && negb (String.eqb (name_of container) "div" && has_content container).

End StableHeader.

(* ================================================================== *)
(** ** [clean_url_fragment] of scraper/test_scraper.py *)
(* ================================================================== *)

Module Url.

(** [s.replace(old, new)] for a non-empty [old]: the occurrences of [old]
    are taken from the left and do not overlap.  [skip] counts the
    characters of the occurrence just replaced that are still to pass. *)
Fixpoint replace_from (old new : string) (skip : nat) (s : string) : string :=
  match s with
  | EmptyString => EmptyString
  | String c rest =>
      match skip with
      | S k => replace_from old new k rest
      | O =>
          if String.prefix old s
          then String.append new (replace_from old new (String.length old - 1) rest)
          else String c (replace_from old new 0 rest)
      end
  end.

Definition replace (old new s : string) : string := replace_from old new 0 s.

(** [s.split(sep)[0]] for a separator of one character *)
Fixpoint before (sep : ascii) (s : string) : string :=
  match s with
  | EmptyString => EmptyString
  | String c rest => if Ascii.eqb c sep then EmptyString else String c (before sep rest)
  end.

Definition clean_url_fragment (url : string) : string :=
  let url := replace "//" "" (replace "http://" "" (replace "https://" "" url)) in
  before "?"%char url.

End Url.

(* ================================================================== *)
(** * Proofs *)
(* ================================================================== *)

(** ** Induction on trees *)

Lemma node_induction (P : node -> Prop) :
  (forall s, P (Text s)) ->
  (forall u nm a cs, Forall P cs -> P (Elem u nm a cs)) ->
  forall n, P n.
Proof.
  intros HT HE. fix IH 1. intros [s | u nm a cs].
  - apply HT.
  - apply HE. induction cs as [| c cs IHcs]; constructor.
    + apply IH.
    + apply IHcs.
Qed.

Lemma list_sum_app_map {A} (f : A -> nat) (l1 l2 : list A) :
  list_sum (map f (l1 ++ l2)) = list_sum (map f l1) + list_sum (map f l2).
Proof. rewrite map_app, list_sum_app. reflexivity. Qed.

(** ** Edits and the number of tags *)

Lemma weight_cons c l : weight (c :: l) = tag_count c + weight l.
Proof. reflexivity. Qed.

Lemma weight_app l1 l2 : weight (l1 ++ l2) = weight l1 + weight l2.
Proof. apply list_sum_app_map. Qed.

Lemma has_uid_tag_count i c : has_uid i c = true -> 0 < tag_count c.
Proof. destruct c; simpl; [discriminate | lia]. Qed.

(** An edit fails exactly when the tag is not in the tree. *)
Lemma edit_none_iff i repl n :
  edit i repl n = None <-> find_node i n = None.
Proof.
  induction n as [s | u nm a cs IH] using node_induction.
  - simpl. tauto.
  - simpl. induction cs as [| c r IHr].
    + simpl. tauto.
    + inversion IH as [| ? ? IHc IHrest]; subst. specialize (IHr IHrest).
      destruct (has_uid i c).
      * simpl. split; discriminate.
      * destruct (edit i repl c) as [c' |] eqn:Ec.
        -- destruct (find_node i c) eqn:Fc.
           ++ simpl. split; discriminate.
           ++ destruct IHc as [_ IHc]. discriminate (IHc eq_refl).
        -- destruct IHc as [IHc _]. rewrite (IHc eq_refl).
           rewrite <- IHr. clear.
           match goal with
           | |- context [option_map (cons c) ?g] => destruct g
           end; simpl; split; congruence.
Qed.

(** An edit that succeeds acts on the tag [find_node] returns, and the
    tags of the result are those of the tree, less those of the tag
    replaced, plus those of its replacement. *)
Lemma edit_some i repl n :
  forall n', edit i repl n = Some n' ->
  exists e, find_node i n = Some e /\ has_uid i e = true /\
            tag_count n' + tag_count e = tag_count n + weight (repl e).
Proof.
  induction n as [s | u nm a cs IH] using node_induction; intros n' H.
  - discriminate.
  - simpl in H. simpl find_node.
    match type of H with
    | option_map _ ?g = _ => destruct g as [cs' |] eqn:E; [| discriminate]
    end.
    inversion H; subst; clear H.
    enough (K : exists e,
      (fix go (l : list node) : option node :=
         match l with
         | [] => None
         | c :: r =>
             if has_uid i c then Some c
             else match find_node i c with
                  | Some x => Some x
                  | None => go r
                  end
         end) cs = Some e /\ has_uid i e = true /\
      weight cs' + tag_count e = weight cs + weight (repl e)).
    { destruct K as (e & Fe & Ue & Ce). exists e. repeat split; auto.
      simpl. fold (weight cs') (weight cs). lia. }
    revert cs' E. induction cs as [| c r IHr]; intros cs' E.
    + discriminate.
    + inversion IH as [| ? ? IHc IHrest]; subst.
      destruct (has_uid i c) eqn:Hc.
      * inversion E; subst. exists c. repeat split; auto.
        rewrite weight_app, weight_cons. lia.
      * destruct (edit i repl c) as [c' |] eqn:Ec.
        -- inversion E; subst.
           destruct (IHc _ eq_refl) as (e & Fe & Ue & Ce).
           exists e. rewrite Fe. repeat split; auto.
           rewrite !weight_cons. lia.
        -- apply edit_none_iff in Ec. rewrite Ec.
           match type of E with
           | option_map _ ?g = _ => destruct g as [r' |] eqn:Er; [| discriminate]
           end.
           inversion E; subst.
           destruct (IHr IHrest _ eq_refl) as (e & Fe & Ue & Ce).
           exists e. repeat split; auto. rewrite !weight_cons. lia.
Qed.

Lemma find_node_has_uid i n e : find_node i n = Some e -> has_uid i e = true.
Proof.
  intros F. destruct (edit i (fun _ => []) n) as [n' |] eqn:E.
  - destruct (edit_some _ _ _ _ E) as (e' & Fe & Ue & _). congruence.
  - apply edit_none_iff in E. congruence.
Qed.

(** The tree after an edit of a tag that is in the tree. *)
Lemma apply_edit_count i repl root e :
  find_node i root = Some e ->
  tag_count (apply_edit i repl root) + tag_count e
  = tag_count root + weight (repl e).
Proof.
  intros F. unfold apply_edit. destruct (edit i repl root) as [r' |] eqn:E.
  - destruct (edit_some _ _ _ _ E) as (e' & Fe & _ & Ce). congruence.
  - apply edit_none_iff in E. congruence.
Qed.

Lemma apply_edit_absent i repl root :
  find_node i root = None -> apply_edit i repl root = root.
Proof.
  intros F. unfold apply_edit. apply (edit_none_iff i repl) in F. now rewrite F.
Qed.

(** ** Where [find_node] and [ancestors_in] look *)

Lemma self_and_descendants_tag c :
  self_and_descendants c = if is_tag c then c :: descendants c else [].
Proof. destruct c; reflexivity. Qed.

Lemma descendants_cons u nm a c r :
  descendants (Elem u nm a (c :: r))
  = (self_and_descendants c ++ descendants (Elem u nm a r))%list.
Proof. reflexivity. Qed.

Lemma has_uid_is_tag i c : has_uid i c = true -> is_tag c = true.
Proof. destruct c; simpl; congruence. Qed.

Lemma find_node_in i n :
  forall e, find_node i n = Some e -> In e (descendants n) /\ has_uid i e = true.
Proof.
  induction n as [s | u nm a cs IH] using node_induction; intros e F.
  - discriminate.
  - simpl in F. induction cs as [| c r IHr]; [discriminate |].
    inversion IH as [| ? ? IHc IHrest]; subst.
    rewrite descendants_cons, self_and_descendants_tag.
    destruct (has_uid i c) eqn:Hc.
    + inversion F; subst. rewrite (has_uid_is_tag _ _ Hc). split; auto.
      apply in_or_app. left. now left.
    + destruct (find_node i c) as [x |] eqn:Fc.
      * inversion F; subst. destruct (IHc _ eq_refl) as [I U]. split; auto.
        apply in_or_app. left. destruct (is_tag c) eqn:T.
        -- now right.
        -- destruct c; [destruct I | discriminate].
      * destruct (IHr IHrest F) as [I U]. split; auto.
        apply in_or_app. now right.
Qed.

Lemma in_find_node i n :
  forall e, In e (descendants n) -> has_uid i e = true ->
  exists e', find_node i n = Some e'.
Proof.
  induction n as [s | u nm a cs IH] using node_induction; intros e I U.
  - destruct I.
  - simpl. induction cs as [| c r IHr]; [destruct I |].
    inversion IH as [| ? ? IHc IHrest]; subst.
    rewrite descendants_cons, self_and_descendants_tag in I.
    destruct (has_uid i c) eqn:Hc; [eauto |].
    destruct (find_node i c) as [x |] eqn:Fc; [eauto |].
    apply in_app_or in I. destruct I as [I | I].
    + destruct (is_tag c); [| destruct I].
      destruct I as [I | I]; [subst; congruence |].
      destruct (IHc _ I U) as [e' Fe]. congruence.
    + apply (IHr IHrest I).
Qed.

Lemma in_uids i l : In i (uids l) <-> exists e, In e l /\ has_uid i e = true.
Proof.
  unfold uids. rewrite in_flat_map. split.
  - intros (e & I & H). exists e. split; auto.
    destruct e as [| u ? ? ?]; simpl in *; [destruct H |].
    destruct H as [H | []]. subst. apply Nat.eqb_refl.
  - intros (e & I & H). exists e. split; auto.
    destruct e as [| u ? ? ?]; simpl in *; [discriminate |].
    apply Nat.eqb_eq in H. now left.
Qed.

(** every identity of a snapshot is found in the tree it was taken from *)
Lemma snapshot_found i root :
  In i (uids (descendants root)) -> exists e, find_node i root = Some e.
Proof.
  intros I. apply in_uids in I. destruct I as (e & I & U).
  eapply in_find_node; eauto.
Qed.

Lemma in_filter_uids i (f : node -> bool) l :
  In i (uids (filter f l)) -> In i (uids l).
Proof.
  rewrite !in_uids. intros (e & I & U). exists e. split; auto.
  apply filter_In in I. tauto.
Qed.

Lemma descendants_of_child u nm a cs c x :
  In c cs -> In x (self_and_descendants c) -> In x (descendants (Elem u nm a cs)).
Proof.
  intros I X. unfold descendants. simpl. apply in_flat_map. eauto.
Qed.

(** the ancestors are tags of the tree: the root or tags below it *)
Lemma ancestors_in_spec i n :
  forall ps, ancestors_in i n = Some ps ->
  Forall (fun p => is_tag p = true /\ (p = n \/ In p (descendants n))) ps.
Proof.
  induction n as [s | u nm a cs IH] using node_induction; intros ps A.
  - discriminate.
  - simpl in A.
    enough (K : Forall (fun p => is_tag p = true /\
                (p = Elem u nm a cs \/ exists c, In c cs /\ In p (self_and_descendants c))) ps).
    { eapply Forall_impl; [| exact K]. intros p [T [E | (c & I & X)]]; split; auto.
      right. eapply descendants_of_child; eauto. }
    remember (Elem u nm a cs) as N eqn:EN.
    assert (TN : is_tag N = true) by (subst; reflexivity).
    clear EN. revert ps A. induction cs as [| c r IHr]; intros ps A; [discriminate |].
    inversion IH as [| ? ? IHc IHrest]; subst.
    destruct (has_uid i c) eqn:Hc.
    + inversion A; subst. constructor; auto.
    + destruct (ancestors_in i c) as [p |] eqn:Ac.
      * inversion A; subst. apply Forall_app. split.
        -- eapply Forall_impl; [| exact (IHc _ eq_refl)].
           intros x [T [E | D]]; split; auto; right; exists c; split;
             try (now left).
           ++ subst. rewrite self_and_descendants_tag, T. now left.
           ++ rewrite self_and_descendants_tag.
              destruct (is_tag c) eqn:Tc; [now right |].
              destruct c; [destruct D | discriminate].
        -- constructor; auto.
      * eapply Forall_impl; [| exact (IHr IHrest _ A)].
        intros x [T [E | (c' & I & X)]]; split; auto.
        right. exists c'. split; auto. now right.
Qed.

Lemma parent_of_spec i root p :
  parent_of i root = Some p ->
  exists pu, uid_of p = Some pu /\ has_uid pu p = true /\
             (p = root \/ In p (descendants root)).
Proof.
  unfold parent_of. destruct (ancestors_in i root) as [[| q ps] |] eqn:A;
    try discriminate.
  intros H. inversion H; subst. apply ancestors_in_spec in A.
  inversion A as [| ? ? [T D] _]; subst.
  destruct p as [| pu ? ? ?]; [discriminate |].
  exists pu. simpl. rewrite Nat.eqb_refl. auto.
Qed.

(** ** Hoisting keeps fewer tags than the container had *)

Lemma named_is_tag names c : named names c = true -> is_tag c = true.
Proof. unfold named. intros H. apply andb_prop in H. tauto. Qed.

Lemma hoist_self names c :
  weight (map (prune names) (filter (named names) (self_and_descendants c)))
  = (if named names c then tag_count (prune names c) else 0)
    + weight (hoist names c).
Proof.
  rewrite self_and_descendants_tag. unfold hoist, find_all.
  destruct (is_tag c) eqn:T.
  - simpl. destruct (named names c); reflexivity.
  - destruct (named names c) eqn:N.
    + apply named_is_tag in N. congruence.
    + destruct c; [reflexivity | discriminate].
Qed.

(** the tags of a tree are those that stay in it when the tags named
    [names] are cut out, and those of the cuttings *)
Lemma prune_hoist_count names n :
  tag_count n = tag_count (prune names n) + weight (hoist names n).
Proof.
  induction n as [s | u nm a cs IH] using node_induction.
  - reflexivity.
  - simpl tag_count. fold (weight cs).
    fold (weight (flat_map (fun c => if named names c then [] else [prune names c]) cs)).
    enough (K : weight cs
                = weight (flat_map (fun c => if named names c then [] else [prune names c]) cs)
                  + weight (hoist names (Elem u nm a cs))) by lia.
    unfold hoist at 1, find_all, descendants. simpl contents_of.
    induction cs as [| c r IHr]; [reflexivity |].
    inversion IH as [| ? ? IHc IHrest]; subst. specialize (IHr IHrest).
    simpl flat_map. rewrite filter_app, map_app, !weight_app, weight_cons.
    rewrite hoist_self.
    destruct (named names c); simpl app; rewrite ?weight_cons;
      change (weight []) with 0; lia.
Qed.

Lemma hoist_weight_lt names e :
  is_tag e = true -> weight (hoist names e) < tag_count e.
Proof.
  intros T. pose proof (prune_hoist_count names e).
  destruct e; [discriminate |]. simpl in *. lia.
Qed.

(** ** A pass either changes nothing or takes tags away *)

Lemma child_tag_count c cs : In c cs -> tag_count c <= weight cs.
Proof.
  induction cs as [| x r IH]; intros I; [destruct I |].
  rewrite weight_cons. destruct I as [-> | I]; [lia |]. specialize (IH I). lia.
Qed.

Lemma copy_attr_count k e c : tag_count (copy_attr k e c) = tag_count c.
Proof.
  destruct c as [| u nm a cs]; [reflexivity |]. simpl.
  destruct (attr_get k (attrs_of e)); [| reflexivity].
  destruct (attr_get k a); reflexivity.
Qed.

Lemma find_node_weight i root e :
  find_node i root = Some e -> tag_count e < tag_count root.
Proof.
  intros F. pose proof (apply_edit_count i (fun _ => []) root e F) as C.
  assert (0 < tag_count (apply_edit i (fun _ => []) root)).
  { unfold apply_edit. destruct (edit i (fun _ => []) root) as [r |] eqn:E.
    - destruct root; [discriminate |]. simpl in E.
      match type of E with option_map _ ?g = _ => destruct g end;
        inversion E; simpl; lia.
    - destruct root; [discriminate | simpl; lia]. }
  unfold weight in C. simpl in C. lia.
Qed.

Lemma decompose_count_found i root e :
  find_node i root = Some e ->
  tag_count (decompose i root) < tag_count root.
Proof.
  intros F. destruct root as [| u nm a cs]; [discriminate |].
  unfold decompose. destruct (Nat.eqb u i).
  - pose proof (find_node_weight _ _ _ F). pose proof (find_node_has_uid _ _ _ F) as U.
    apply has_uid_tag_count in U. simpl in *. lia.
  - pose proof (apply_edit_count i (fun _ => []) _ e F) as C.
    pose proof (find_node_has_uid _ _ _ F) as U. apply has_uid_tag_count in U.
    unfold weight in C. simpl in C. simpl. simpl in C. lia.
Qed.

(** decomposing the parent of a tag of the tree *)
Lemma decompose_parent_count i root e p pu :
  find_node i root = Some e -> parent_of i root = Some p -> uid_of p = Some pu ->
  tag_count (decompose pu root) < tag_count root.
Proof.
  intros F P U. destruct (parent_of_spec _ _ _ P) as (pu' & U' & HU & D).
  assert (pu' = pu) by congruence. subst pu'.
  destruct D as [-> | D].
  - destruct root as [| u nm a cs]; [discriminate |].
    simpl in U. inversion U; subst. unfold decompose. rewrite Nat.eqb_refl.
    pose proof (find_node_weight _ _ _ F).
    pose proof (find_node_has_uid _ _ _ F) as Ue. apply has_uid_tag_count in Ue.
    simpl in *. lia.
  - destruct (in_find_node pu root p D HU) as [e' Fe].
    eapply decompose_count_found; eauto.
Qed.

Ltac counted := right; cbn [fst snd]; split; [reflexivity |].

Lemma hoist_edit_lt i names root e :
  find_node i root = Some e ->
  tag_count (apply_edit i (hoist names) root) < tag_count root.
Proof.
  intros F. pose proof (apply_edit_count i (hoist names) root e F).
  pose proof (hoist_weight_lt names e (has_uid_is_tag _ _ (find_node_has_uid _ _ _ F))).
  lia.
Qed.

Lemma clean_div_step_ok : turn_ok clean_div_step.
Proof.
  intros [root removed] i. unfold clean_div_step. cbn [fst snd].
  destruct (parent_of i root) as [p |]; [| now left].
  destruct (find_node i root) as [element |] eqn:F; [| now left].
  destruct (PyStr.mem (name_of element) ["html"; "body"]); [now left |].
  destruct (negb _).
  - counted. pose proof (hoist_edit_lt i important_tags root element F).
    split; [lia | intros _; lia].
  - destruct (Nat.ltb 0 _); [now left |].
    destruct (children_tags element) as [| child [| ? ?]] eqn:C; try now left.
    destruct (PyStr.mem (name_of child) _); [| now left].
    counted.
    pose proof (apply_edit_count i
      (fun e => [copy_attr "class" e (copy_attr "id" e child)]) root element F) as K.
    unfold weight in K. simpl in K. rewrite !copy_attr_count in K.
    assert (I : In child (contents_of element)).
    { assert (I : In child (children_tags element)) by (rewrite C; now left).
      unfold children_tags in I. apply filter_In in I. tauto. }
    apply child_tag_count in I.
    assert (tag_count element = S (weight (contents_of element))).
    { pose proof (find_node_has_uid _ _ _ F). destruct element; [discriminate | reflexivity]. }
    split; [lia | intros _; lia].
Qed.

Lemma clean_empty_step_ok : turn_ok clean_empty_step.
Proof.
  intros [root removed] i. unfold clean_empty_step. cbn [fst snd].
  destruct (find_node i root) as [element |] eqn:F.
  - destruct (_ && _); [| now left].
    counted. pose proof (decompose_count_found _ _ _ F).
    split; [lia | intros _; lia].
  - counted. split; [lia | intros H; now elim H].
Qed.

Lemma loop_inv step soup (l : list nat) :
  turn_ok step ->
  forall st,
    pass_inv soup st ->
    (snd st = 0 -> forall i, In i l -> find_node i (fst st) <> None) ->
    pass_inv soup (fold_left step l st).
Proof.
  intros OK. induction l as [| i l IH]; intros st Inv Live; [exact Inv |].
  simpl. apply IH.
  - destruct (OK st i) as [-> | (Hc & Hle & Hlt)]; [exact Inv |].
    right. split; [lia |].
    destruct Inv as [[Z E] | [Pos Lt]].
    + rewrite <- E. apply Hlt. apply Live; [exact Z | now left].
    + lia.
  - intros Z j Ij. destruct (OK st i) as [E | (Hc & _)].
    + rewrite E in *. apply Live; [exact Z | now right].
    + lia.
Qed.

Lemma snapshot_live (f : node -> bool) root i :
  In i (uids (filter f (descendants root))) -> find_node i root <> None.
Proof.
  intros I. apply in_filter_uids in I. destruct (snapshot_found _ _ I) as [e E].
  congruence.
Qed.

Lemma snapshot_all_live root i :
  In i (uids (find_all_tags root)) -> find_node i root <> None.
Proof.
  intros I. destruct (snapshot_found _ _ I) as [e E]. congruence.
Qed.

Lemma fold_count_mono step l :
  turn_ok step -> forall st, snd st <= snd (fold_left step l st).
Proof.
  intros OK. induction l as [| i l IH]; intros st; [simpl; lia |].
  simpl. pose proof (IH (step st i)) as IH'.
  destruct (OK st i) as [E | (C & _)]; [rewrite E in *; exact IH' | lia].
Qed.

(** a loop that counts nothing did nothing at any turn *)
Lemma fold_noop step l :
  turn_ok step ->
  forall st, snd (fold_left step l st) = snd st ->
  fold_left step l st = st /\ Forall (fun i => step st i = st) l.
Proof.
  intros OK. induction l as [| i l IH]; intros st E; [split; [reflexivity | constructor] |].
  simpl in E |- *. pose proof (fold_count_mono step l OK (step st i)) as M.
  destruct (OK st i) as [S0 | (C & _)]; [| lia].
  rewrite S0 in *. destruct (IH st E) as [F A]. split; [exact F | now constructor].
Qed.

(** ** The pass of either variant *)

Section CleaningPassFacts.

Variable should_remove : node -> node -> bool.

Lemma clean_container_step_with_ok : turn_ok (clean_container_step_with should_remove).
Proof.
  intros [root removed] i. unfold clean_container_step_with. cbn [fst snd].
  destruct (find_node i root) as [element |] eqn:F; [| now left].
  destruct (should_remove root element); [| now left].
  destruct (PyStr.mem (name_of element) interactive_tags).
  - destruct (parent_of i root) as [parent |] eqn:P.
    + destruct (_ && _).
      * counted. destruct (parent_of_spec _ _ _ P) as (pu & U & _ & _). rewrite U.
        pose proof (decompose_parent_count _ _ _ _ _ F P U).
        split; [lia | intros _; lia].
      * counted. pose proof (decompose_count_found _ _ _ F).
        split; [lia | intros _; lia].
    + counted. pose proof (hoist_edit_lt i ["p"] root element F).
      split; [lia | intros _; lia].
  - counted. pose proof (hoist_edit_lt i ["p"] root element F).
    split; [lia | intros _; lia].
Qed.

(** the second loop runs the turns of the tags it reaches; it reaches
    them all when it does not raise *)
Lemma container_loop_prefix lib ids :
  forall st,
  exists ids1 ids2,
    ids = (ids1 ++ ids2)%list
    /\ fst (container_loop lib should_remove ids st) = fold_left (clean_container_step_with should_remove) ids1 st
    /\ (snd (container_loop lib should_remove ids st) = false -> ids2 = []).
Proof.
  induction ids as [| i ids IH]; intros st.
  - exists [], []. split; [reflexivity | split; [reflexivity | reflexivity]].
  - cbn [container_loop].
    destruct (find_node i (fst st)) as [e |] eqn:F.
    + destruct (IH (clean_container_step_with should_remove st i))
        as (l1 & l2 & E & K & Z).
      exists (i :: l1), l2. subst ids.
      split; [reflexivity | split; [exact K | exact Z]].
    + destruct lib.
      * exists [], (i :: ids).
        split; [reflexivity | split; [reflexivity | intros H; discriminate]].
      * destruct (IH (clean_container_step_with should_remove st i))
          as (l1 & l2 & E & K & Z).
        exists (i :: l1), l2. subst ids.
      split; [reflexivity | split; [exact K | exact Z]].
Qed.

(** when it raises, it has reached a tag that is no longer in the soup *)
Lemma container_loop_raised lib ids :
  forall st,
    snd (container_loop lib should_remove ids st) = true ->
    lib = StrRaises
    /\ exists i, In i ids
         /\ find_node i (fst (fst (container_loop lib should_remove ids st))) = None.
Proof.
  induction ids as [| i ids IH]; intros st R; [discriminate |].
  cbn [container_loop] in R |- *.
  destruct (find_node i (fst st)) as [e |] eqn:F.
  - destruct (IH _ R) as (L & j & I & N). split; [exact L |].
    exists j. split; [now right | exact N].
  - destruct lib.
    + split; [reflexivity |]. exists i. split; [now left | exact F].
    + destruct (IH _ R) as (L & j & I & N). split; [exact L |].
      exists j. split; [now right | exact N].
Qed.

Lemma container_loop_prints ids :
  forall st,
    container_loop StrPrints should_remove ids st = (fold_left (clean_container_step_with should_remove) ids st, false).
Proof.
  induction ids as [| i ids IH]; intros st; [reflexivity |].
  cbn [container_loop fold_left]. rewrite IH.
  now destruct (find_node i (fst st)).
Qed.

(** the state the three loops end with, raised or not *)
Lemma run_pass_with_inv lib soup :
  pass_inv soup (fst (run_pass_with lib should_remove soup)).
Proof.
  unfold run_pass_with.
  set (st1 := fold_left clean_div_step _ _).
  assert (I1 : pass_inv soup st1).
  { apply loop_inv; [exact clean_div_step_ok | left; auto |].
    intros _ i I. simpl. eapply snapshot_live. exact I. }
  destruct (container_loop_prefix lib (uids (find_all_tags (fst st1))) st1)
    as (l1 & l2 & E & K & _).
  destruct (container_loop lib should_remove _ st1) as [st2 raised].
  cbn [fst] in K.
  assert (I2 : pass_inv soup st2).
  { rewrite K. apply loop_inv; [exact clean_container_step_with_ok | exact I1 |].
    intros _ i I. apply snapshot_all_live. rewrite E. apply in_or_app. now left. }
  destruct raised; cbn [fst]; [exact I2 |].
  apply loop_inv; [exact clean_empty_step_ok | exact I2 |].
  intros _ i I. now apply snapshot_all_live.
Qed.

(** a pass never adds a tag, and it takes one away when it reports a
    positive count *)
Lemma clean_pass_with_le lib soup :
  tag_count (fst (clean_pass_with lib should_remove soup)) <= tag_count soup
  /\ (0 < snd (clean_pass_with lib should_remove soup) ->
      tag_count (fst (clean_pass_with lib should_remove soup)) < tag_count soup).
Proof.
  pose proof (run_pass_with_inv lib soup) as I. unfold clean_pass_with.
  destruct (run_pass_with lib should_remove soup) as [st raised]. cbn [fst] in I.
  destruct raised; cbn [fst snd].
  - split; [| lia]. destruct I as [[_ E] | [_ L]]; [rewrite E |]; lia.
  - destruct I as [[Z E] | [P L]]; [rewrite E | ]; split; lia.
Qed.

Lemma clean_pass_with_inv lib soup :
  pass_raised_with lib should_remove soup = false ->
  pass_inv soup (clean_pass_with lib should_remove soup).
Proof.
  unfold pass_raised_with, clean_pass_with. intros R.
  pose proof (run_pass_with_inv lib soup) as I.
  destruct (run_pass_with lib should_remove soup) as [st raised].
  cbn [fst snd] in *. now subst raised.
Qed.

(** a pass that ran to its end and counts nothing leaves the soup as it
    was *)
Lemma clean_pass_with_zero lib soup soup' :
  pass_raised_with lib should_remove soup = false ->
  clean_pass_with lib should_remove soup = (soup', 0) -> soup' = soup.
Proof.
  intros R E. pose proof (clean_pass_with_inv lib soup R) as I. rewrite E in I.
  destruct I as [[_ H] | [H _]]; simpl in *; [exact H | lia].
Qed.

(** with a library that prints destroyed tags no pass raises *)
Lemma pass_raised_prints soup : pass_raised_with StrPrints should_remove soup = false.
Proof.
  unfold pass_raised_with, run_pass_with. rewrite container_loop_prints. reflexivity.
Qed.

(** a pass that leaves the soup as it is and reports 0 did not raise *)
Lemma pass_fixed_not_raised lib out :
  clean_pass_with lib should_remove out = (out, 0) ->
  pass_raised_with lib should_remove out = false.
Proof.
  unfold clean_pass_with, pass_raised_with, run_pass_with.
  set (st1 := fold_left clean_div_step _ _).
  assert (I1 : pass_inv out st1).
  { apply loop_inv; [exact clean_div_step_ok | left; auto |].
    intros _ i I. simpl. eapply snapshot_live. exact I. }
  destruct (container_loop_prefix lib (uids (find_all_tags (fst st1))) st1)
    as (l1 & l2 & E & K & _).
  pose proof (container_loop_raised lib (uids (find_all_tags (fst st1))) st1) as R.
  destruct (container_loop lib should_remove _ st1) as [st2 raised].
  cbn [fst snd] in *. destruct raised; cbn [fst snd]; [| reflexivity].
  intros H. exfalso. inversion H as [H2].
  destruct (R eq_refl) as (_ & i & I & N).
  assert (I2 : pass_inv out st2).
  { rewrite K. apply loop_inv; [exact clean_container_step_with_ok | exact I1 |].
    intros _ j Ij. apply snapshot_all_live. rewrite E. apply in_or_app. now left. }
  destruct I2 as [[Z2 _] | [_ L]]; [| rewrite H2 in L; lia].
  pose proof (fold_count_mono (clean_container_step_with should_remove) l1 clean_container_step_with_ok st1) as M.
  rewrite <- K in M.
  destruct I1 as [[_ E1] | [P1 _]]; [| lia].
  rewrite E1 in I. apply snapshot_all_live in I. rewrite H2 in N. contradiction.
Qed.

(** a pass that did not raise ran its three loops to their ends *)
Lemma clean_pass_with_full lib soup :
  pass_raised_with lib should_remove soup = false ->
  clean_pass_with lib should_remove soup
  = fold_left clean_empty_step
      (uids (find_all_tags
               (fst (fold_left (clean_container_step_with should_remove)
                       (uids (find_all_tags
                                (fst (fold_left clean_div_step
                                        (uids (find_all ["div"; "section"] soup))
                                        (soup, 0)))))
                       (fold_left clean_div_step
                          (uids (find_all ["div"; "section"] soup)) (soup, 0))))))
      (fold_left (clean_container_step_with should_remove)
         (uids (find_all_tags
                  (fst (fold_left clean_div_step
                          (uids (find_all ["div"; "section"] soup)) (soup, 0)))))
         (fold_left clean_div_step (uids (find_all ["div"; "section"] soup)) (soup, 0))).
Proof.
  unfold pass_raised_with, clean_pass_with, run_pass_with.
  set (st1 := fold_left clean_div_step _ _).
  destruct (container_loop_prefix lib (uids (find_all_tags (fst st1))) st1)
    as (l1 & l2 & E & K & Z).
  destruct (container_loop lib should_remove _ st1) as [st2 raised].
  cbn [fst snd] in *. destruct raised; cbn [snd]; [discriminate |].
  intros _. rewrite (Z eq_refl), app_nil_r in E. rewrite E, <- K. reflexivity.
Qed.

(** the loop ends within the bound; the soup it ends on is one on which
    a pass changes and counts nothing, unless the last pass raised *)
Lemma clean_loop_with_ends lib fuel :
  forall soup, tag_count soup < fuel ->
  exists out,
    clean_loop_with lib should_remove fuel soup = Some out
    /\ (clean_pass_with lib should_remove out = (out, 0)
        \/ exists last,
             pass_raised_with lib should_remove last = true
             /\ clean_pass_with lib should_remove last = (out, 0)).
Proof.
  induction fuel as [| fuel IH]; intros soup B; [lia |].
  cbn [clean_loop_with].
  pose proof (clean_pass_with_le lib soup) as [Le Lt].
  destruct (clean_pass_with lib should_remove soup) as [soup' removed] eqn:E.
  cbn [fst snd] in *.
  destruct (Nat.eqb removed 0) eqn:Z.
  - apply Nat.eqb_eq in Z. subst removed. exists soup'. split; [reflexivity |].
    destruct (pass_raised_with lib should_remove soup) eqn:R.
    + right. exists soup. split; [exact R | exact E].
    + left. pose proof (clean_pass_with_zero _ _ _ R E) as S0. subst soup'. exact E.
  - apply Nat.eqb_neq in Z. apply IH. assert (0 < removed) by lia. intuition lia.
Qed.

Lemma clean_loop_with_exit lib fuel :
  forall soup out,
    clean_loop_with lib should_remove fuel soup = Some out ->
    clean_pass_with lib should_remove out = (out, 0)
    \/ exists last,
         pass_raised_with lib should_remove last = true
         /\ clean_pass_with lib should_remove last = (out, 0).
Proof.
  induction fuel as [| fuel IH]; intros soup out H; [discriminate |].
  cbn [clean_loop_with] in H.
  destruct (clean_pass_with lib should_remove soup) as [soup' removed] eqn:E.
  destruct (Nat.eqb removed 0) eqn:Z.
  - apply Nat.eqb_eq in Z. subst removed. inversion H; subst.
    destruct (pass_raised_with lib should_remove soup) eqn:R.
    + right. exists soup. split; [exact R | exact E].
    + left. pose proof (clean_pass_with_zero _ _ _ R E) as S0. subst soup. exact E.
  - eapply IH; eauto.
Qed.

End CleaningPassFacts.

Lemma clean_container_step_ok : turn_ok clean_container_step.
Proof. exact (clean_container_step_with_ok should_remove_container). Qed.

(** ** Identities and names of the tags of a tree *)

Lemma labels_self_and_descendants n :
  map tag_label (self_and_descendants n) = labels n.
Proof.
  induction n as [s | u nm a cs IH] using node_induction; [reflexivity |].
  simpl. f_equal. induction cs as [| c r IHr]; [reflexivity |].
  inversion IH as [| ? ? IHc IHrest]; subst. simpl.
  rewrite map_app, IHc, (IHr IHrest). reflexivity.
Qed.

Lemma labels_descendants n : map tag_label (descendants n) = labels_below n.
Proof.
  unfold descendants, labels_below. induction (contents_of n) as [| c r IH].
  - reflexivity.
  - simpl. rewrite map_app, labels_self_and_descendants, IH. reflexivity.
Qed.

Lemma descendants_are_tags n e : In e (descendants n) -> is_tag e = true.
Proof.
  revert e. induction n as [s | u nm a cs IH] using node_induction; intros e I.
  - destruct I.
  - unfold descendants in I. simpl in I. apply in_flat_map in I.
    destruct I as (c & Ic & I). rewrite Forall_forall in IH.
    rewrite self_and_descendants_tag in I. destruct (is_tag c) eqn:T; [| destruct I].
    destruct I as [<- | I]; [exact T |]. eapply IH; eauto.
Qed.

Lemma uids_labels l :
  Forall (fun e => is_tag e = true) l -> uids l = map fst (map tag_label l).
Proof.
  induction 1 as [| e l T _ IH]; [reflexivity |].
  destruct e; [discriminate |]. cbn [map fst tag_label]. rewrite <- IH. reflexivity.
Qed.

Lemma uids_descendants n : uids (descendants n) = map fst (labels_below n).
Proof.
  rewrite <- labels_descendants. apply uids_labels.
  apply Forall_forall. intros e. apply descendants_are_tags.
Qed.

Lemma edit_root_label i repl n n' :
  edit i repl n = Some n' ->
  tag_label n' = tag_label n /\ is_tag n = true /\ is_tag n' = true.
Proof.
  destruct n as [| u nm a cs]; [discriminate |]. simpl.
  match goal with |- option_map _ ?g = _ -> _ => destruct g end; [| discriminate].
  intros H. inversion H. auto.
Qed.

Lemma labels_tag n : is_tag n = true -> labels n = tag_label n :: labels_below n.
Proof. destruct n; [discriminate | reflexivity]. Qed.

(** An edit cuts the labels of the tag it replaces out of the list and
    puts those of the replacement in their place. *)
Lemma edit_labels i repl n :
  forall n', edit i repl n = Some n' ->
  exists e l1 l2,
    find_node i n = Some e /\
    labels_below n = (l1 ++ labels e ++ l2)%list /\
    labels_below n' = (l1 ++ flat_map labels (repl e) ++ l2)%list.
Proof.
  induction n as [s | u nm a cs IH] using node_induction; intros n' H.
  - discriminate.
  - simpl in H. simpl find_node.
    match type of H with
    | option_map _ ?g = _ => destruct g as [cs' |] eqn:E; [| discriminate]
    end.
    inversion H; subst; clear H. unfold labels_below. simpl contents_of.
    revert cs' E. induction cs as [| c r IHr]; intros cs' E; [discriminate |].
    inversion IH as [| ? ? IHc IHrest]; subst.
    destruct (has_uid i c) eqn:Hc.
    + inversion E; subst. exists c, [], (flat_map labels r). repeat split.
      simpl. now rewrite flat_map_app.
    + destruct (edit i repl c) as [c' |] eqn:Ec.
      * inversion E; subst.
        destruct (IHc _ eq_refl) as (e & l1 & l2 & Fe & L & L').
        destruct (edit_root_label _ _ _ _ Ec) as (RL & T & T').
        exists e, (tag_label c :: l1), (l2 ++ flat_map labels r)%list.
        rewrite Fe. repeat split; simpl.
        -- rewrite (labels_tag c T), L. simpl. now rewrite <- !app_assoc.
        -- rewrite (labels_tag c' T'), L', RL. simpl. now rewrite <- !app_assoc.
      * apply edit_none_iff in Ec. rewrite Ec.
        match type of E with
        | option_map _ ?g = _ => destruct g as [r' |] eqn:Er; [| discriminate]
        end.
        inversion E; subst.
        destruct (IHr IHrest _ eq_refl) as (e & l1 & l2 & Fe & L & L').
        exists e, (labels c ++ l1)%list, l2. repeat split; auto; simpl.
        -- rewrite L. now rewrite <- !app_assoc.
        -- rewrite L'. now rewrite <- !app_assoc.
Qed.

Lemma cut_of_refl l : cut_of l l.
Proof. exists l, [], []. now rewrite !app_nil_r. Qed.

Lemma cut_of_incl old new : cut_of old new -> incl new old.
Proof.
  intros (l1 & m & l2 & -> & ->) x I. apply in_app_or in I.
  rewrite !in_app_iff. tauto.
Qed.

Lemma NoDup_cut {A} (l1 m l2 : list A) :
  NoDup (l1 ++ m ++ l2) -> NoDup (l1 ++ l2).
Proof.
  induction l1 as [| x l1 IH]; simpl; intros N.
  - induction m as [| y m IHm]; [exact N |]. inversion N; auto.
  - inversion N as [| ? ? NI N']; subst. constructor; auto.
    rewrite !in_app_iff in *. tauto.
Qed.

Lemma cut_of_NoDup old new :
  cut_of old new -> NoDup (map fst old) -> NoDup (map fst new).
Proof.
  intros (l1 & m & l2 & -> & ->). rewrite !map_app. apply NoDup_cut.
Qed.

(** replacing a tag by nothing or by a string cuts its labels out *)
Lemma apply_edit_cut i repl root :
  (forall e, flat_map labels (repl e) = []) ->
  cut_of (labels_below root) (labels_below (apply_edit i repl root)).
Proof.
  intros R. unfold apply_edit. destruct (edit i repl root) as [r' |] eqn:E.
  - destruct (edit_labels _ _ _ _ E) as (e & l1 & l2 & _ & L & L').
    rewrite R in L'. exists l1, (labels e), l2. auto.
  - apply cut_of_refl.
Qed.

Lemma decompose_cut i root :
  cut_of (labels_below root) (labels_below (decompose i root)).
Proof.
  destruct root as [| u nm a cs]; [apply cut_of_refl |].
  unfold decompose. destruct (Nat.eqb u i).
  - exists [], (labels_below (Elem u nm a cs)), []. now rewrite app_nil_r.
  - now apply apply_edit_cut.
Qed.

(** ** Noise filtering only takes tags away *)

Lemma shrunk_refl l : shrunk l l.
Proof. split; [apply incl_refl | auto]. Qed.

Lemma shrunk_trans l1 l2 l3 : shrunk l1 l2 -> shrunk l2 l3 -> shrunk l1 l3.
Proof. intros [I1 N1] [I2 N2]. split; [eapply incl_tran; eauto | auto]. Qed.

Lemma cut_shrunk old new : cut_of old new -> shrunk old new.
Proof. intros C. split; [now apply cut_of_incl | now apply cut_of_NoDup]. Qed.

Lemma decompose_shrunk i root :
  shrunk (labels_below root) (labels_below (decompose i root)).
Proof. apply cut_shrunk, decompose_cut. Qed.

(** what a turn on a link of a tree leaves of the tree *)
Lemma link_turn_in_tree prot alive t i link :
  fst (fst (link_turn_in prot alive t i link)) = t
  \/ (exists text, fst (fst (link_turn_in prot alive t i link))
                   = apply_edit i (fun _ => [Text text]) t)
  \/ fst (fst (link_turn_in prot alive t i link)) = decompose i t.
Proof.
  unfold link_turn_in.
  destruct (link_action_of prot alive (parents_in i t) link) as [| text | |];
    cbn [fst]; eauto.
Qed.

Lemma remove_link_step_soup prot st i :
  links_soup (remove_link_step prot st i) = links_soup st
  \/ (exists text, links_soup (remove_link_step prot st i)
                   = apply_edit i (fun _ => [Text text]) (links_soup st))
  \/ links_soup (remove_link_step prot st i) = decompose i (links_soup st).
Proof.
  unfold remove_link_step. destruct (links_raised st); [now left |].
  destruct (find_node i (links_soup st)) as [link |].
  - pose proof (link_turn_in_tree prot (links_soup st :: links_detached st)
                  (links_soup st) i link) as K.
    destruct (link_turn_in _ _ _ _ _) as [[soup' detached] appended].
    cbn [fst links_soup] in *. exact K.
  - destruct (link_turn_detached _ _ _ _) as [[detached' appended] |];
      cbn [links_soup]; now left.
Qed.

Lemma remove_link_step_shrunk prot st i :
  shrunk (labels_below (links_soup st))
         (labels_below (links_soup (remove_link_step prot st i))).
Proof.
  destruct (remove_link_step_soup prot st i) as [-> | [[text ->] | ->]].
  - apply shrunk_refl.
  - apply cut_shrunk, apply_edit_cut. reflexivity.
  - apply decompose_shrunk.
Qed.

Lemma remove_link_loop_shrunk prot l :
  forall st,
  shrunk (labels_below (links_soup st))
         (labels_below (links_soup (fold_left (remove_link_step prot) l st))).
Proof.
  induction l as [| i l IH]; intros st; [apply shrunk_refl |].
  simpl. eapply shrunk_trans; [apply remove_link_step_shrunk | apply IH].
Qed.

Lemma remove_listed_shrunk root i :
  shrunk (labels_below root) (labels_below (remove_listed root i)).
Proof.
  unfold remove_listed. destruct (parent_of i root);
    [apply decompose_shrunk | apply shrunk_refl].
Qed.

Lemma remove_listed_loop_shrunk l :
  forall root,
  shrunk (labels_below root) (labels_below (fold_left remove_listed l root)).
Proof.
  induction l as [| i l IH]; intros root; [apply shrunk_refl |].
  simpl. eapply shrunk_trans; [apply remove_listed_shrunk | apply IH].
Qed.

Lemma link_loop_shrunk soup :
  shrunk (labels_below soup) (labels_below (links_soup (link_loop soup))).
Proof.
  unfold link_loop.
  exact (remove_link_loop_shrunk (protect soup) (uids (find_all ["a"] soup))
           (mk_links soup [] _ false)).
Qed.

(** the soup as noise filtering leaves it, when it returns and when it
    raises *)
Lemma remove_noise_soup_shrunk soup :
  shrunk (labels_below soup) (labels_below (remove_noise_soup soup)).
Proof.
  unfold remove_noise_soup. destruct (links_raised (link_loop soup)).
  - apply link_loop_shrunk.
  - eapply shrunk_trans; [apply link_loop_shrunk | apply remove_listed_loop_shrunk].
Qed.

Lemma remove_noise_returned soup out :
  remove_noise soup = Returned out -> out = remove_noise_soup soup.
Proof.
  unfold remove_noise. destruct (links_raised (link_loop soup)); [discriminate |].
  intros H. now inversion H.
Qed.

Lemma remove_noise_shrunk soup out :
  remove_noise soup = Returned out ->
  shrunk (labels_below soup) (labels_below out).
Proof.
  intros H. apply remove_noise_returned in H. subst out.
  apply remove_noise_soup_shrunk.
Qed.

(** [find_all] through the labels *)
Lemma find_all_label names n e :
  In e (find_all names n) ->
  In (tag_label e) (labels_below n) /\ PyStr.mem (snd (tag_label e)) names = true.
Proof.
  unfold find_all. intros I. apply filter_In in I. destruct I as [I N]. split.
  - rewrite <- labels_descendants. now apply in_map.
  - unfold named in N. apply andb_prop in N. destruct N as [T N].
    destruct e; [discriminate | exact N].
Qed.

Lemma label_find_all names n u nm :
  In (u, nm) (labels_below n) -> PyStr.mem nm names = true ->
  exists e, In e (find_all names n) /\ tag_label e = (u, nm).
Proof.
  rewrite <- labels_descendants. intros I M. apply in_map_iff in I.
  destruct I as (e & L & I). exists e. split; auto.
  unfold find_all. apply filter_In. split; auto.
  pose proof (descendants_are_tags _ _ I) as T.
  destruct e; [discriminate |]. simpl in L. inversion L; subst.
  unfold named. simpl. exact M.
Qed.

Lemma find_all_nil_shrunk names old new :
  shrunk (labels_below old) (labels_below new) ->
  find_all names old = [] -> find_all names new = [].
Proof.
  intros [I _] E. destruct (find_all names new) as [| e l] eqn:F; [reflexivity |].
  assert (Ie : In e (find_all names new)) by (rewrite F; now left).
  apply find_all_label in Ie. destruct Ie as [L M].
  apply I in L. destruct (tag_label e) as [u nm].
  destruct (label_find_all names old u nm L M) as (e' & I' & _).
  rewrite E in I'. destruct I'.
Qed.

(* ================================================================== *)
(** * The claims *)
(* ================================================================== *)

(** ** The cleaning loop *)




(** C4.  The cleaning loop terminates: a pass that reports a positive
    count leaves strictly fewer tags than it found, so the loop started
    on a soup of [n] tags stops within [n + 1] passes. *)
Theorem clean_loop_terminates (lib : destroyed_str) (soup : node) :
  (0 < snd (clean_pass lib soup) ->
   tag_count (fst (clean_pass lib soup)) < tag_count soup)
  /\ exists out, clean_loop lib (S (tag_count soup)) soup = Some out.
Proof.
  split.
  - apply (clean_pass_with_le should_remove_container lib soup).
  - destruct (clean_loop_with_ends should_remove_container lib
                (S (tag_count soup)) soup) as (out & E & _); [lia |].
    now exists out.
Qed.

Lemma clean_loop_terminates_witness :
  0 < snd (clean_pass StrPrints Examples.share_soup)
  /\ tag_count (fst (clean_pass StrPrints Examples.share_soup))
     < tag_count Examples.share_soup.
Proof.
  split.
  - vm_compute. lia.
  - apply (proj1 (clean_loop_terminates StrPrints Examples.share_soup)).
    vm_compute. lia.
Defined.

(** ** Media *)

Lemma attr_get_set_same k v a : attr_get k (attr_set k v a) = Some v.
Proof.
  induction a as [| [k' v'] a IH]; simpl.
  - now rewrite String.eqb_refl.
  - destruct (String.eqb k' k) eqn:E; simpl.
    + now rewrite String.eqb_refl.
    + now rewrite E.
Qed.

Lemma attr_get_set_other k k' v a :
  k' <> k -> attr_get k (attr_set k' v a) = attr_get k a.
Proof.
  intros N. induction a as [| [k0 v0] a IH]; simpl.
  - apply String.eqb_neq in N. now rewrite N.
  - destruct (String.eqb k0 k') eqn:E; simpl.
    + apply String.eqb_eq in E. subst k0. apply String.eqb_neq in N. now rewrite N.
    + now rewrite IH.
Qed.

Lemma attr_get_del_other k k' a :
  k' <> k -> attr_get k (attr_del k' a) = attr_get k a.
Proof.
  intros N. induction a as [| [k0 v0] a IH]; simpl; [reflexivity |].
  destruct (String.eqb k0 k') eqn:E; simpl.
  - apply String.eqb_eq in E. subst k0. apply String.eqb_neq in N. now rewrite N.
  - now rewrite IH.
Qed.

Lemma standardize_tag_sized nm a :
  PyStr.mem nm ["img"; "picture"] = true ->
  attr_get "width" (standardize_tag nm a) = Some (AStr "256")
  /\ attr_get "height" (standardize_tag nm a) = Some (AStr "256").
Proof.
  intros M. unfold standardize_tag.
  assert (S : media_selected nm a = true).
  { unfold media_selected. simpl in M |- *.
    destruct (String.eqb nm "img"); [reflexivity |].
    destruct (String.eqb nm "picture"); [now rewrite orb_true_r | discriminate]. }
  assert (NS : String.eqb nm "source" = false).
  { simpl in M. destruct (String.eqb_spec nm "source") as [-> |]; [discriminate | reflexivity]. }
  rewrite S. unfold standardize_attrs. rewrite NS.
  assert (K : forall b, attr_get "width" b = Some (AStr "256") /\
                        attr_get "height" b = Some (AStr "256") ->
              attr_get "width" (if String.eqb nm "picture"
                                then attr_set "style" (AStr picture_style) b else b)
              = Some (AStr "256")
              /\ attr_get "height" (if String.eqb nm "picture"
                                    then attr_set "style" (AStr picture_style) b else b)
                 = Some (AStr "256")).
  { intros b [W H]. destruct (String.eqb nm "picture"); [| auto].
    rewrite !attr_get_set_other by discriminate. auto. }
  apply K. rewrite !attr_get_del_other by discriminate. split.
  - rewrite attr_get_set_other by discriminate. apply attr_get_set_same.
  - apply attr_get_set_same.
Qed.

Lemma standardize_below_sized n :
  Forall sized (self_and_descendants (standardize_below n)).
Proof.
  induction n as [s | u nm a cs IH] using node_induction; [constructor |].
  simpl. constructor.
  - intros N. unfold named in N. simpl in N. simpl. now apply standardize_tag_sized.
  - induction cs as [| c r IHr]; [constructor |].
    inversion IH as [| ? ? IHc IHrest]; subst. simpl.
    apply Forall_app. split; auto.
Qed.

Lemma standardize_media_sized soup :
  Forall sized (descendants (standardize_media_dimensions soup)).
Proof.
  destruct soup as [| u nm a cs]; [constructor |].
  unfold descendants. simpl. induction cs as [| c r IH]; [constructor |].
  simpl. apply Forall_app. split; [apply standardize_below_sized | exact IH].
Qed.

Lemma extract_prints_soup parse lib html out :
  extract parse lib html = Returned out ->
  out = match extract_soup parse lib html with
        | Some soup => Html.to_html soup
        | None => ""
        end.
Proof.
  unfold extract, extract_soup, clean_extracted_content.
  destruct (extract_merged parse html) as [[m |] |]; intros H;
    inversion H; reflexivity.
Qed.

Lemma extract_soup_standardized parse lib html soup :
  extract_soup parse lib html = Some soup ->
  exists cleaned, soup = standardize_media_dimensions cleaned.
Proof.
  unfold extract_soup, clean_extracted_soup.
  destruct (extract_merged parse html) as [[m |] |]; try discriminate.
  destruct (_ || _); [discriminate |].
  destruct (clean_fixpoint _ _) as [c |]; [| discriminate].
  intros H. inversion H. now exists c.
Qed.

(** C6.  In a non-empty output, which is the printed form of the soup
    left by the media step, every [img] and [picture] tag has the
    attributes [width] and [height], both "256". *)
Theorem media_dimensions_standardized
    (parse : string -> list node) (lib : destroyed_str) (html out : string) :
  extract parse lib html = Returned out ->
  out <> "" ->
  exists soup,
    extract_soup parse lib html = Some soup
    /\ out = Html.to_html soup
    /\ forall e, In e (find_all ["img"; "picture"] soup) ->
         attr_get "width" (attrs_of e) = Some (AStr "256")
         /\ attr_get "height" (attrs_of e) = Some (AStr "256").
Proof.
  intros R NE. apply extract_prints_soup in R.
  destruct (extract_soup parse lib html) as [soup |] eqn:E; [| now elim NE].
  exists soup. split; [reflexivity |]. split; [exact R |].
  intros e H. destruct (extract_soup_standardized _ _ _ _ E) as [c ->].
  unfold find_all in H. apply filter_In in H. destruct H as [I N].
  pose proof (standardize_media_sized c) as F. rewrite Forall_forall in F.
  now apply (F e I).
Qed.

Lemma media_dimensions_standardized_witness :
  exists out soup,
    extract Fixture.parse StrPrints Examples.article_doc = Returned out
    /\ out <> ""
    /\ extract_soup Fixture.parse StrPrints Examples.article_doc = Some soup
    /\ out = Html.to_html soup
    /\ forall e, In e (find_all ["img"; "picture"] soup) ->
         attr_get "width" (attrs_of e) = Some (AStr "256")
         /\ attr_get "height" (attrs_of e) = Some (AStr "256").
Proof.
  assert (R : exists out, extract Fixture.parse StrPrints Examples.article_doc
                          = Returned out /\ out <> "").
  { eexists. split; [vm_compute; reflexivity | discriminate]. }
  destruct R as (out & R & NE).
  destruct (media_dimensions_standardized Fixture.parse StrPrints
              Examples.article_doc out R NE) as (soup & E & P & K).
  exists out, soup. auto.
Defined.

(** ** The headline requirement *)

Lemma find_h1_container_none parse soup :
  find_all ["h1"] soup = [] -> find_h1_container parse soup = None.
Proof. unfold find_h1_container. now intros ->. Qed.

(** X19.  On an input in which the parser finds no [h1] tag, [extract]
    returns nothing but the empty string: the text [<h1] is nowhere in
    the input, or noise filtering, which only takes tags away, leaves a
    soup without [h1] and the search for the header container finds
    nothing.  It returns the empty string, or noise filtering raises and
    [extract] raises with it. *)
Theorem extract_without_h1_returned
    (parse : string -> list node) (lib : destroyed_str) (html : string) :
  find_all ["h1"] (mk_soup (parse html)) = [] ->
  extract parse lib html = Returned ""
  \/ (extract parse lib html = Raised
      /\ remove_noise (mk_soup (parse html)) = Raised).
Proof.
  intros H. unfold extract, extract_merged.
  destruct (negb (PyStr.contains "<h1" html)); [now left |].
  destruct (remove_noise (mk_soup (parse html))) as [soup |] eqn:R; [| now right].
  left. rewrite find_h1_container_none; [reflexivity |].
  eapply find_all_nil_shrunk; [apply (remove_noise_shrunk _ _ R) | exact H].
Qed.

Lemma extract_without_h1_returned_witness :
  find_all ["h1"] (mk_soup (Fixture.parse Examples.no_h1_doc)) = []
  /\ PyStr.contains "<h1" Examples.no_h1_doc = true
  /\ extract Fixture.parse StrPrints Examples.no_h1_doc = Returned "".
Proof.
  split; [vm_compute; reflexivity |].
  split; [vm_compute; reflexivity |].
  destruct (extract_without_h1_returned Fixture.parse StrPrints Examples.no_h1_doc)
    as [E | [_ R]].
  - vm_compute. reflexivity.
  - exact E.
  - vm_compute in R. discriminate R.
Defined.

(** C1 fails on the code.  The page [nested_links_doc] has no [h1] tag;
    it holds the text [<h1] in the name of another tag, and a link
    inside a link.  Noise filtering decomposes the outer link, the turn
    on the inner link raises, and [extract] raises with it, whatever the
    library does with [str] of a destroyed tag. *)
Theorem extract_without_h1_raises :
  find_all ["h1"] (mk_soup (Fixture.parse Examples.nested_links_doc)) = []
  /\ PyStr.contains "<h1" Examples.nested_links_doc = true
  /\ forall lib, extract Fixture.parse lib Examples.nested_links_doc = Raised.
Proof.
  split; [vm_compute; reflexivity |]. split; [vm_compute; reflexivity |].
  intros lib. destruct lib; vm_compute; reflexivity.
Qed.

(** C10.  The first test of [extract] looks for the text [<h1] in the
    input as it is, in lower case only.  The page [<H1>Title</H1>] does
    not hold that text, so [extract] returns the empty string whatever
    the parser is, although a parser that lowers tag names finds an [h1]
    tag in it. *)
Theorem uppercase_headline_rejected :
  PyStr.contains "<h1" Examples.uppercase_doc = false
  /\ find_all ["h1"] (mk_soup (Fixture.parse Examples.uppercase_doc))
     = [Elem 1 "h1" [] [Text "Title"]]
  /\ forall (parse : string -> list node) (lib : destroyed_str),
       extract parse lib Examples.uppercase_doc = Returned "".
Proof.
  split; [reflexivity |]. split; [reflexivity |].
  intros parse lib. reflexivity.
Qed.

(** ** The body container and the output *)

Lemma max_by_score_in l : forall best, In (max_by_score best l) (best :: l).
Proof.
  induction l as [| c r IH]; intros best; simpl; [now left |].
  destruct (Qltb (fst best) (fst c)).
  - right. apply IH.
  - destruct (IH best) as [H | H]; [now left | right; now right].
Qed.

Lemma find_article_container_thresholds soup body :
  find_article_container soup = Some body ->
  min_paragraph_count <= p_count body /\ min_text_length <= text_length body.
Proof.
  unfold find_article_container.
  destruct (article_candidates soup) as [| c0 cands]; [discriminate |].
  set (ok := fun sc : Q * node => _).
  destruct (filter ok (c0 :: cands)) as [| c r] eqn:F; [discriminate |].
  intros H. inversion H; subst; clear H.
  assert (I : In (max_by_score c r) (filter ok (c0 :: cands))).
  { rewrite F. apply max_by_score_in. }
  apply filter_In in I. destruct I as [_ I]. unfold ok in I.
  apply andb_prop in I. destruct I as [P T].
  apply Nat.leb_le in P. apply Nat.leb_le in T. auto.
Qed.

(** C2, as the code has it.  When [extract] returns a non-empty string,
    the body container chosen before the merge has at least
    [min_paragraph_count] (3) [p] tags and [min_text_length] characters
    of text, the markup handed to the cleaning stage is the merge of the
    header container and of that body and holds the text [<h1], and the
    output is the printed form of the cleaned soup. *)
Theorem nonempty_output_body
    (parse : string -> list node) (lib : destroyed_str) (html out : string) :
  extract parse lib html = Returned out ->
  out <> "" ->
  exists filtered header body soup,
    remove_noise (mk_soup (parse html)) = Returned filtered
    /\ find_h1_container parse filtered = Some header
    /\ find_article_container filtered = Some body
    /\ min_paragraph_count <= p_count body
    /\ min_text_length <= text_length body
    /\ PyStr.contains "<h1" (Html.to_html (merge_content parse header body)) = true
    /\ clean_extracted_soup parse lib (Html.to_html (merge_content parse header body))
       = Some soup
    /\ out = Html.to_html soup.
Proof.
  unfold extract, extract_merged. intros R NE.
  destruct (negb (PyStr.contains "<h1" html)); [inversion R; congruence |].
  destruct (remove_noise (mk_soup (parse html))) as [filtered |]; [| discriminate].
  destruct (find_h1_container parse filtered) as [header |] eqn:H1;
    [| inversion R; congruence].
  destruct (find_article_container filtered) as [body |] eqn:B;
    [| inversion R; congruence].
  destruct (Nat.ltb (p_count body) min_paragraph_count) eqn:P;
    [inversion R; congruence |].
  unfold clean_extracted_content in R.
  destruct (clean_extracted_soup parse lib _) as [soup |] eqn:C;
    [| inversion R; congruence].
  exists filtered, header, body, soup.
  destruct (find_article_container_thresholds _ _ B) as [HP HT].
  split; [reflexivity |]. split; [exact H1 |]. split; [exact B |].
  split; [exact HP |]. split; [exact HT |].
  split; [| split; [exact C | now inversion R]].
  unfold clean_extracted_soup in C.
  destruct (PyStr.contains "<h1" _); [reflexivity |].
  rewrite orb_true_r in C. discriminate.
Qed.

Lemma nonempty_output_body_witness :
  exists out filtered header body soup,
    extract Fixture.parse StrPrints Examples.article_doc = Returned out
    /\ out <> ""
    /\ remove_noise (mk_soup (Fixture.parse Examples.article_doc)) = Returned filtered
    /\ find_h1_container Fixture.parse filtered = Some header
    /\ find_article_container filtered = Some body
    /\ min_paragraph_count <= p_count body
    /\ min_text_length <= text_length body
    /\ PyStr.contains "<h1" (Html.to_html (merge_content Fixture.parse header body)) = true
    /\ clean_extracted_soup Fixture.parse StrPrints
         (Html.to_html (merge_content Fixture.parse header body)) = Some soup
    /\ out = Html.to_html soup.
Proof.
  assert (R : exists out, extract Fixture.parse StrPrints Examples.article_doc
                          = Returned out /\ out <> "").
  { eexists. split; [vm_compute; reflexivity | discriminate]. }
  destruct R as (out & R & NE).
  destruct (nonempty_output_body Fixture.parse StrPrints Examples.article_doc out R NE)
    as (filtered & header & body & soup & K).
  exists out, filtered, header, body, soup. auto.
Defined.

(** C2 as stated fails: on the page [repeated_doc] the output is not
    empty and its soup has two [h1] tags and two [p] tags, which have the
    same text. *)
Lemma nonempty_output_counterexample :
  exists out soup p1 p2,
    extract Fixture.parse StrPrints Examples.repeated_doc = Returned out
    /\ extract Fixture.parse StrRaises Examples.repeated_doc = Returned out
    /\ out <> ""
    /\ extract_soup Fixture.parse StrPrints Examples.repeated_doc = Some soup
    /\ extract_soup Fixture.parse StrRaises Examples.repeated_doc = Some soup
    /\ out = Html.to_html soup
    /\ length (find_all ["h1"] soup) = 2
    /\ find_all ["p"] soup = [p1; p2]
    /\ length (find_all ["p"] soup) < min_paragraph_count
    /\ get_text_strip p1 = get_text_strip p2.
Proof.
  eexists. eexists. eexists. eexists.
  split; [vm_compute; reflexivity |].
  split; [vm_compute; reflexivity |].
  split; [discriminate |].
  split; [vm_compute; reflexivity |].
  split; [vm_compute; reflexivity |].
  split; [vm_compute; reflexivity |].
  split; [vm_compute; reflexivity |].
  split; [vm_compute; reflexivity |].
  split; [vm_compute; lia | vm_compute; reflexivity].
Qed.

(** ** The complete-article check *)

Lemma find_all_uid names n e :
  In e (find_all names n) -> exists u, uid_of e = Some u.
Proof.
  intros I. unfold find_all in I. apply filter_In in I. destruct I as [I _].
  apply descendants_are_tags in I. destruct e as [| u ? ? ?]; [discriminate |].
  now exists u.
Qed.

(** C5, as the code has it.  A container is judged complete exactly when
    it has an [h1], the first [h1] below it in document order has at most
    two [p], [div] or [section] siblings before it, the container has at
    least [min_paragraph_count] (3) paragraphs and its text has at least
    twice [min_text_length] (300) characters.  In particular a container
    whose first [h1] comes after more than two such siblings is
    rejected. *)
Theorem complete_article_iff (element : node) :
  (is_complete_article element = true <->
   exists first_h1 rest u,
     find_all ["h1"] element = first_h1 :: rest
     /\ uid_of first_h1 = Some u
     /\ length (previous_siblings ["p"; "div"; "section"] u element) <= 2
     /\ min_paragraph_count <= p_count element
     /\ 2 * min_text_length <= text_length element)
  /\ (forall before, elements_before_h1 element = Some before ->
      2 < before -> is_complete_article element = false).
Proof.
  split.
  - unfold is_complete_article, elements_before_h1.
    destruct (find_all ["h1"] element) as [| h1 rest] eqn:F.
    + split; [discriminate |]. intros (? & ? & ? & H & _). discriminate.
    + assert (I : In h1 (find_all ["h1"] element)) by (rewrite F; now left).
      destruct (find_all_uid _ _ _ I) as [u U]. rewrite U.
      destruct (Nat.ltb 2 _) eqn:L.
      * split; [discriminate |].
        intros (h & r & u' & H & U' & Le & _). inversion H; subst.
        assert (u' = u) by congruence. subst.
        apply Nat.ltb_lt in L. lia.
      * apply Nat.ltb_ge in L. rewrite andb_true_iff, !Nat.leb_le.
        replace (min_text_length * 2) with (2 * min_text_length) by lia.
        split.
        -- intros [P T]. exists h1, rest, u. auto.
        -- intros (h & r & u' & H & U' & Le & P & T). auto.
  - intros before E L. unfold is_complete_article. rewrite E.
    apply Nat.ltb_lt in L. now rewrite L.
Qed.

Lemma complete_article_iff_witness :
  is_complete_article Examples.complete_article = true
  /\ elements_before_h1 Examples.comments_article = Some 4
  /\ is_complete_article Examples.comments_article = false.
Proof.
  split.
  - apply (proj1 (complete_article_iff Examples.complete_article)).
    exists (Elem 2 "h1" [] [Text "First"]).
    eexists. exists 2.
    split; [vm_compute; reflexivity |].
    split; [reflexivity |].
    split; [vm_compute; lia |].
    split; vm_compute; lia.
  - split; [vm_compute; reflexivity |].
    apply (proj2 (complete_article_iff Examples.comments_article) 4).
    + vm_compute. reflexivity.
    + lia.
Defined.

(** C5 as stated fails: [buried_article] holds an [h1] with no sibling
    before it, three paragraphs and more than 300 characters of text, and
    it is not judged complete, because its first [h1] comes after three
    [div] siblings. *)
Lemma complete_article_counterexample :
  (exists h1 u,
     In h1 (find_all ["h1"] Examples.buried_article)
     /\ uid_of h1 = Some u
     /\ length (previous_siblings ["p"; "div"; "section"] u Examples.buried_article) <= 2)
  /\ min_paragraph_count <= p_count Examples.buried_article
  /\ 2 * min_text_length <= text_length Examples.buried_article
  /\ is_complete_article Examples.buried_article = false.
Proof.
  split.
  - exists (Elem 7 "h1" [] [Text "Second"]), 7.
    split; [vm_compute; tauto |]. split; [reflexivity | vm_compute; lia].
  - split; [vm_compute; lia |]. split; [vm_compute; lia | vm_compute; reflexivity].
Qed.

(** ** The seeds of the recursive scoring *)

Lemma find_all_direct_spec names n e :
  In e (find_all_direct names n) <-> In e (contents_of n) /\ named names e = true.
Proof. unfold find_all_direct. apply filter_In. Qed.

(** C8 fails on the code.  The second search gives [find_all] the
    selectors [div[class*="content"]] and [div[class*="article"]] as tag
    names, so no [div] or [section] is ever a seed.  On the page
    [content_div_doc] no root-level tag gives a candidate; the [div] of
    class [content] has three paragraphs and enough text and would be a
    candidate if the scoring started from it, but it is not among the
    seeds, no container is found and [extract] returns the empty
    string. *)
Theorem article_seeds_miss_divs :
  (forall soup e, In e (fallback_seeds soup) -> named ["div"; "section"] e = false)
  /\ mk_soup (Fixture.parse Examples.content_div_doc) = Examples.content_div_soup
  /\ candidates_of (root_seeds Examples.content_div_soup) = []
  /\ In Examples.content_div (find_all ["div"; "section"] Examples.content_div_soup)
  /\ PyStr.contains "content"
       (PyStr.lower (class_joined (attrs_of Examples.content_div))) = true
  /\ (exists score, candidates_of [Examples.content_div]
                    = [(score, Examples.content_div)])
  /\ min_paragraph_count <= p_count Examples.content_div
  /\ min_text_length <= text_length Examples.content_div
  /\ fallback_seeds Examples.content_div_soup = []
  /\ find_article_container Examples.content_div_soup = None
  /\ forall lib, extract Fixture.parse lib Examples.content_div_doc = Returned "".
Proof.
  split.
  { intros soup e I. unfold fallback_seeds, find_all in I.
    apply filter_In in I. destruct I as [_ N].
    unfold named in *. apply andb_prop in N. destruct N as [T N]. rewrite T.
    cbn [andb]. unfold all_container_names in N. cbn [PyStr.mem existsb] in N |- *.
    destruct (String.eqb_spec (name_of e) "article") as [-> | _]; [reflexivity |].
    destruct (String.eqb_spec (name_of e) "main") as [-> | _]; [reflexivity |].
    cbn [orb] in N. apply orb_prop in N.
    destruct N as [N | N].
    - apply String.eqb_eq in N. rewrite N. reflexivity.
    - rewrite orb_false_r in N. apply String.eqb_eq in N. rewrite N. reflexivity. }
  split; [vm_compute; reflexivity |].
  split; [reflexivity |].
  split; [vm_compute; tauto |].
  split; [reflexivity |].
  split; [eexists; vm_compute; reflexivity |].
  split; [vm_compute; lia |].
  split; [vm_compute; lia |].
  split; [reflexivity |].
  split; [reflexivity |].
  intros lib. destruct lib; vm_compute; reflexivity.
Qed.

Lemma article_seeds_miss_divs_witness :
  In (Elem 4 "article" [] [Elem 5 "p" [] [Text Examples.lorem]])
     (fallback_seeds Examples.nested_article_soup)
  /\ named ["div"; "section"]
       (Elem 4 "article" [] [Elem 5 "p" [] [Text Examples.lorem]]) = false.
Proof.
  assert (I : In (Elem 4 "article" [] [Elem 5 "p" [] [Text Examples.lorem]])
                (fallback_seeds Examples.nested_article_soup))
    by (vm_compute; tauto).
  split; [exact I |].
  exact (proj1 article_seeds_miss_divs Examples.nested_article_soup _ I).
Defined.

(** ** Noise filtering of the structural tags *)

Lemma ancestors_none_iff i n :
  ancestors_in i n = None <-> find_node i n = None.
Proof.
  induction n as [s | u nm a cs IH] using node_induction.
  - simpl. tauto.
  - simpl. remember (Elem u nm a cs) as N eqn:EN. clear EN.
    induction cs as [| c r IHr].
    + tauto.
    + inversion IH as [| ? ? IHc IHrest]; subst. specialize (IHr IHrest).
      destruct (has_uid i c).
      * split; discriminate.
      * destruct (ancestors_in i c) as [p |] eqn:Ac.
        -- destruct (find_node i c) eqn:Fc.
           ++ split; discriminate.
           ++ destruct IHc as [_ IHc]. discriminate (IHc eq_refl).
        -- destruct IHc as [IHc _]. rewrite (IHc eq_refl). exact IHr.
Qed.

Lemma ancestors_not_empty i n : ancestors_in i n <> Some [].
Proof.
  induction n as [s | u nm a cs IH] using node_induction; [discriminate |].
  simpl. remember (Elem u nm a cs) as N eqn:EN. clear EN.
  induction cs as [| c r IHr]; [discriminate |].
  inversion IH as [| ? ? IHc IHrest]; subst.
  destruct (has_uid i c); [discriminate |].
  destruct (ancestors_in i c) as [[| q qs] |]; try discriminate.
  now apply IHr.
Qed.

Lemma parent_none_absent i root :
  parent_of i root = None -> ~ In i (map fst (labels_below root)).
Proof.
  intros P I. rewrite <- uids_descendants in I.
  destruct (snapshot_found _ _ I) as [e F].
  unfold parent_of in P. destruct (ancestors_in i root) as [[| p ps] |] eqn:A.
  - now apply ancestors_not_empty in A.
  - discriminate.
  - apply ancestors_none_iff in A. congruence.
Qed.

Lemma absent_after_decompose i root :
  NoDup (map fst (labels_below root)) ->
  ~ In i (map fst (labels_below (decompose i root))).
Proof.
  intros N. destruct root as [| u nm a cs]; [intros []|].
  unfold decompose. destruct (Nat.eqb u i); [intros [] |].
  unfold apply_edit. destruct (edit i (fun _ => []) (Elem u nm a cs)) as [r' |] eqn:E.
  - destruct (edit_labels _ _ _ _ E) as (e & l1 & l2 & F & L & L').
    rewrite L'. simpl. rewrite L in N.
    pose proof (find_node_has_uid _ _ _ F) as U.
    destruct e as [| ue nme ae cse]; [discriminate |].
    simpl in U. apply Nat.eqb_eq in U. subst ue.
    cbn [labels] in N. rewrite map_app in N. cbn [app map fst] in N.
    apply NoDup_remove_2 in N.
    rewrite map_app, in_app_iff. intros [H | H]; apply N; rewrite in_app_iff.
    + now left.
    + right. rewrite map_app, in_app_iff. now right.
  - apply edit_none_iff in E. intros I. rewrite <- uids_descendants in I.
    destruct (snapshot_found _ _ I) as [e F]. congruence.
Qed.

(** after the last loop no tag of the list is in the soup *)
Lemma remove_listed_absent l :
  forall root u,
    NoDup (map fst (labels_below root)) -> In u l ->
    ~ In u (map fst (labels_below (fold_left remove_listed l root))).
Proof.
  induction l as [| i l IH]; intros root u N I; [destruct I |].
  simpl. destruct (remove_listed_shrunk root i) as [Inc ND].
  destruct I as [-> | I].
  - assert (A : ~ In u (map fst (labels_below (remove_listed root u)))).
    { unfold remove_listed. destruct (parent_of u root) eqn:P.
      - now apply absent_after_decompose.
      - now apply parent_none_absent. }
    intros H. apply A.
    destruct (remove_listed_loop_shrunk l (remove_listed root u)) as [Inc' _].
    apply in_map_iff in H. destruct H as ([u' nm] & <- & H).
    apply Inc' in H. apply in_map_iff. now exists (u', nm).
  - apply IH; auto.
Qed.

Lemma remove_link_step_keeps prot st i :
  incl (links_to_remove st) (links_to_remove (remove_link_step prot st i)).
Proof.
  unfold remove_link_step. destruct (links_raised st); [apply incl_refl |].
  destruct (find_node i (links_soup st)) as [link |].
  - destruct (link_turn_in _ _ _ _ _) as [[soup' detached] appended].
    cbn [links_to_remove]. apply incl_appl, incl_refl.
  - destruct (link_turn_detached _ _ _ _) as [[detached' appended] |];
      cbn [links_to_remove]; [apply incl_appl |]; apply incl_refl.
Qed.

Lemma remove_link_loop_keeps prot l :
  forall st,
    incl (links_to_remove st)
         (links_to_remove (fold_left (remove_link_step prot) l st)).
Proof.
  induction l as [| i l IH]; intros st; [apply incl_refl |].
  simpl. eapply incl_tran; [apply remove_link_step_keeps | apply IH].
Qed.

(** when noise filtering returns, every tag listed by the loops before
    the links is out of the soup *)
Lemma listed_removed soup out u :
  NoDup (uids (descendants soup)) ->
  In u (noise_structural (protect soup) soup ++ noise_audio (protect soup) soup)%list ->
  remove_noise soup = Returned out ->
  ~ In u (uids (descendants out)).
Proof.
  intros N I R. unfold remove_noise in R.
  destruct (links_raised (link_loop soup)) eqn:Rs; [discriminate |].
  inversion R; subst out; clear R.
  unfold remove_noise_soup. rewrite Rs. rewrite uids_descendants in *.
  pose proof (link_loop_shrunk soup) as [_ ND].
  apply remove_listed_absent; [now apply ND |].
  unfold link_loop.
  apply (remove_link_loop_keeps (protect soup) (uids (find_all ["a"] soup))
           (mk_links soup [] _ false)).
  exact I.
Qed.

(** C7, as the code has it.  When noise filtering returns, it has
    removed every [header], [footer], [aside] and [nav] tag that is not
    in the protected set and has no tag of the protected set below it;
    the protected set holds every [h1] and the parent of every [h1].
    Being inside a protected tag does not keep such a tag. *)
Theorem structural_noise_removed (soup out element : node) (u : nat) :
  NoDup (uids (descendants soup)) ->
  In element (find_all ["header"; "footer"; "aside"; "nav"] soup) ->
  uid_of element = Some u ->
  in_protected (protect soup) soup element = false ->
  contains_protected (protect soup) soup element = false ->
  remove_noise soup = Returned out ->
  ~ In u (uids (descendants out)).
Proof.
  intros N I U P C R. apply (listed_removed soup out u N); [| exact R].
  apply in_or_app. left.
  unfold noise_structural. apply in_uids. exists element. split.
  - apply filter_In. split; [exact I |]. now rewrite P, C.
  - destruct element; [discriminate |]. simpl in U. inversion U. simpl.
    apply Nat.eqb_refl.
Qed.

Lemma structural_noise_removed_witness :
  ~ In 3 (uids (descendants (remove_noise_soup Examples.nav_beside_h1_soup))).
Proof.
  apply (structural_noise_removed Examples.nav_beside_h1_soup
           (remove_noise_soup Examples.nav_beside_h1_soup)
           (Elem 3 "nav" [] [Text "menu"]) 3).
  - vm_compute. repeat (constructor; [simpl; intuition congruence |]). constructor.
  - vm_compute. tauto.
  - reflexivity.
  - vm_compute. reflexivity.
  - vm_compute. reflexivity.
  - vm_compute. reflexivity.
Defined.

(** C7 as stated fails: in [nav_beside_h1_soup] the [nav] tag is a child
    of the [div] that holds the [h1], which is a protected tag, and noise
    filtering removes it. *)
Lemma structural_noise_counterexample :
  exists protected_div out,
    parent_of 3 Examples.nav_beside_h1_soup = Some protected_div
    /\ parent_of 2 Examples.nav_beside_h1_soup = Some protected_div
    /\ in_protected (protect Examples.nav_beside_h1_soup)
         Examples.nav_beside_h1_soup protected_div = true
    /\ find_node 3 Examples.nav_beside_h1_soup = Some (Elem 3 "nav" [] [Text "menu"])
    /\ remove_noise Examples.nav_beside_h1_soup = Returned out
    /\ find_node 3 out = None
    /\ Html.to_html out = "<div><h1>Title</h1><p>Some text.</p></div>".
Proof.
  eexists. eexists. split; [vm_compute; reflexivity |].
  split; [vm_compute; reflexivity |].
  split; [vm_compute; reflexivity |].
  split; [vm_compute; reflexivity |].
  split; [vm_compute; reflexivity |].
  split; vm_compute; reflexivity.
Qed.

(** ** Sharing and related blocks in a cleaning pass *)

Lemma has_any_more names names' e :
  (forall nm, PyStr.mem nm names = true -> PyStr.mem nm names' = true) ->
  has_any names e = true -> has_any names' e = true.
Proof.
  intros Sub H. unfold has_any in *.
  destruct (find_all names e) as [| x l] eqn:F; [discriminate |].
  assert (I : In x (find_all names' e)).
  { assert (Ix : In x (find_all names e)) by (rewrite F; now left).
    unfold find_all in *. apply filter_In in Ix. destruct Ix as [D N].
    apply filter_In. split; auto. unfold named in *.
    apply andb_prop in N. destruct N as [T N]. rewrite T. simpl. now apply Sub. }
  destruct (find_all names' e); [destruct I | reflexivity].
Qed.

Lemma prune_label names p : tag_label (prune names p) = tag_label p.
Proof. destruct p; reflexivity. Qed.






(* ================================================================== *)
(** * Further properties of the code *)
(* ================================================================== *)

(** ** A pass creates no tag *)

Section CleaningPassLabels.

Variable should_remove : node -> node -> bool.

Lemma labels_prune_incl names n : incl (labels (prune names n)) (labels n).
Proof.
  induction n as [s | u nm a cs IH] using node_induction; [apply incl_refl |].
  simpl. apply incl_cons; [now left |]. apply incl_tl.
  induction cs as [| c r IHr]; [apply incl_refl |].
  inversion IH as [| ? ? IHc IHrest]; subst. cbn [flat_map].
  destruct (named names c); cbn [app flat_map].
  - apply incl_appr. now apply IHr.
  - apply incl_app; [now apply incl_appl | apply incl_appr; now apply IHr].
Qed.

Lemma hoist_labels_self names c :
  flat_map labels (map (prune names) (filter (named names) (self_and_descendants c)))
  = ((if named names c then labels (prune names c) else [])
     ++ flat_map labels (hoist names c))%list.
Proof.
  rewrite self_and_descendants_tag. unfold hoist, find_all.
  destruct (is_tag c) eqn:T.
  - simpl. destruct (named names c); reflexivity.
  - destruct (named names c) eqn:N.
    + apply named_is_tag in N. congruence.
    + destruct c; [reflexivity | discriminate].
Qed.

(** the labels of a tree are those of the tree cut and of the cuttings *)
Lemma prune_hoist_labels names n :
  Permutation (labels n)
              (labels (prune names n) ++ flat_map labels (hoist names n)).
Proof.
  induction n as [s | u nm a cs IH] using node_induction; [apply Permutation_refl |].
  simpl labels. simpl app. apply perm_skip.
  unfold hoist, find_all, descendants. simpl contents_of.
  induction cs as [| c r IHr]; [apply Permutation_refl |].
  inversion IH as [| ? ? IHc IHrest]; subst. specialize (IHr IHrest).
  simpl flat_map. rewrite filter_app, map_app, !flat_map_app, hoist_labels_self.
  set (RP := flat_map labels
               (flat_map (fun c0 => if named names c0 then [] else [prune names c0]) r)) in *.
  set (RH := flat_map labels
               (map (prune names) (filter (named names) (flat_map self_and_descendants r)))) in *.
  set (Hc := flat_map labels (hoist names c)) in *.
  eapply perm_trans; [apply Permutation_app; [exact IHc | exact IHr] |].
  destruct (named names c); simpl flat_map; simpl app.
  - (* (P ++ Hc) ++ RP ++ RH  ~  RP ++ (P ++ Hc) ++ RH *)
    rewrite <- !app_assoc.
    rewrite (app_assoc (labels (prune names c)) Hc (RP ++ RH)).
    rewrite (app_assoc (labels (prune names c)) Hc RH).
    apply Permutation_app_swap_app.
  - rewrite app_nil_r. rewrite <- !app_assoc. apply Permutation_app_head.
    apply Permutation_app_swap_app.
Qed.

Lemma hoist_labels_incl names e :
  incl (flat_map labels (hoist names e)) (labels e).
Proof.
  intros x I. eapply Permutation_in; [apply Permutation_sym, prune_hoist_labels |].
  apply in_or_app. right. exact I.
Qed.

Lemma hoist_labels_NoDup names e :
  NoDup (map fst (labels e)) -> NoDup (map fst (flat_map labels (hoist names e))).
Proof.
  intros N.
  assert (P : Permutation (map fst (labels e))
                (map fst (labels (prune names e))
                 ++ map fst (flat_map labels (hoist names e)))).
  { rewrite <- map_app. apply Permutation_map, prune_hoist_labels. }
  eapply Permutation_NoDup in N; [| exact P].
  now apply NoDup_app_remove_l in N.
Qed.

Lemma NoDup_app_disjoint {A} (l1 l2 : list A) x :
  NoDup (l1 ++ l2) -> In x l1 -> ~ In x l2.
Proof.
  induction l1 as [| y l1 IH]; simpl; intros N I; [destruct I |].
  inversion N as [| ? ? NI N']; subst. destruct I as [-> | I].
  - intros H. apply NI. apply in_or_app. now right.
  - now apply IH.
Qed.

Lemma NoDup_replace_middle {A} (a e r c : list A) :
  NoDup (a ++ e ++ c) -> incl r e -> NoDup r -> NoDup (a ++ r ++ c).
Proof.
  intros N I R. induction a as [| x a IH]; simpl in *.
  - apply NoDup_app; [exact R | now apply NoDup_app_remove_l in N |].
    intros y Y. apply (NoDup_app_disjoint e c y N). now apply I.
  - inversion N as [| ? ? NI N']; subst. constructor; [| now apply IH].
    rewrite !in_app_iff in *. intros [H | [H | H]]; apply NI; auto.
Qed.

(** an edit that puts in the place of a tag some of its own tags *)
Lemma apply_edit_shrunk i repl root :
  (forall e, find_node i root = Some e ->
             incl (flat_map labels (repl e)) (labels e)
             /\ (NoDup (map fst (labels e)) ->
                 NoDup (map fst (flat_map labels (repl e))))) ->
  shrunk (labels_below root) (labels_below (apply_edit i repl root)).
Proof.
  intros R. unfold apply_edit. destruct (edit i repl root) as [r' |] eqn:E;
    [| apply shrunk_refl].
  destruct (edit_labels _ _ _ _ E) as (e & l1 & l2 & F & L & L').
  destruct (R e F) as [Inc ND]. rewrite L, L'. split.
  - intros x. rewrite !in_app_iff. intros [H | [H | H]]; auto.
  - rewrite !map_app. intros N.
    eapply NoDup_replace_middle; [exact N | now apply incl_map |].
    apply ND. apply NoDup_app_remove_l in N. now apply NoDup_app_remove_r in N.
Qed.

Lemma hoist_edit_shrunk i names root :
  shrunk (labels_below root) (labels_below (apply_edit i (hoist names) root)).
Proof.
  apply apply_edit_shrunk. intros e _. split.
  - apply hoist_labels_incl.
  - apply hoist_labels_NoDup.
Qed.

Lemma copy_attr_labels k e c : labels (copy_attr k e c) = labels c.
Proof.
  destruct c as [| u nm a cs]; [reflexivity |]. simpl.
  destruct (attr_get k (attrs_of e)); [| reflexivity].
  destruct (attr_get k a); reflexivity.
Qed.

Lemma child_labels c cs :
  In c cs -> exists l1 l2, flat_map labels cs = (l1 ++ labels c ++ l2)%list.
Proof.
  induction cs as [| x r IH]; intros I; [destruct I |].
  destruct I as [-> | I].
  - exists [], (flat_map labels r). reflexivity.
  - destruct (IH I) as (l1 & l2 & E). exists (labels x ++ l1)%list, l2.
    simpl. rewrite E. now rewrite <- app_assoc.
Qed.

Lemma clean_div_step_shrunk st i :
  shrunk (labels_below (fst st)) (labels_below (fst (clean_div_step st i))).
Proof.
  destruct st as [root removed]. unfold clean_div_step. cbn [fst].
  destruct (parent_of i root) as [p |]; [| apply shrunk_refl].
  destruct (find_node i root) as [element |] eqn:F; [| apply shrunk_refl].
  destruct (PyStr.mem (name_of element) ["html"; "body"]); [apply shrunk_refl |].
  destruct (negb _); cbn [fst]; [apply hoist_edit_shrunk |].
  destruct (Nat.ltb 0 _); [apply shrunk_refl |].
  destruct (children_tags element) as [| child [| ? ?]] eqn:C; try apply shrunk_refl.
  destruct (PyStr.mem (name_of child) _); [| apply shrunk_refl]. cbn [fst].
  apply apply_edit_shrunk. intros e Fe.
  assert (e = element) by congruence. subst e.
  assert (I : In child (contents_of element)).
  { assert (I : In child (children_tags element)) by (rewrite C; now left).
    unfold children_tags in I. apply filter_In in I. tauto. }
  destruct (child_labels _ _ I) as (l1 & l2 & E).
  pose proof (find_node_has_uid _ _ _ F) as U.
  destruct element as [| u nm a cs]; [discriminate |]. simpl in E.
  cbn [flat_map]. rewrite app_nil_r, !copy_attr_labels. simpl labels. rewrite E. split.
  - intros x X. right. rewrite !in_app_iff. auto.
  - simpl. intros N. inversion N as [| ? ? _ N']; subst.
    rewrite !map_app in N'. apply NoDup_app_remove_l in N'.
    now apply NoDup_app_remove_r in N'.
Qed.

Lemma clean_container_step_with_shrunk st i :
  shrunk (labels_below (fst st))
         (labels_below (fst (clean_container_step_with should_remove st i))).
Proof.
  destruct st as [root removed]. unfold clean_container_step_with. cbn [fst].
  destruct (find_node i root) as [element |]; [| apply shrunk_refl].
  destruct (should_remove root element); [| apply shrunk_refl].
  destruct (if PyStr.mem (name_of element) interactive_tags
            then parent_of i root else None) as [parent |].
  - destruct (_ && _); cbn [fst].
    + destruct (uid_of parent); [apply decompose_shrunk | apply shrunk_refl].
    + apply decompose_shrunk.
  - cbn [fst]. apply hoist_edit_shrunk.
Qed.

Lemma clean_empty_step_shrunk st i :
  shrunk (labels_below (fst st)) (labels_below (fst (clean_empty_step st i))).
Proof.
  destruct st as [root removed]. unfold clean_empty_step. cbn [fst].
  destruct (find_node i root) as [element |]; [| apply shrunk_refl].
  destruct (_ && _); cbn [fst]; [apply decompose_shrunk | apply shrunk_refl].
Qed.

Lemma fold_shrunk (step : pass_state -> nat -> pass_state) l :
  (forall st i, shrunk (labels_below (fst st)) (labels_below (fst (step st i)))) ->
  forall st, shrunk (labels_below (fst st)) (labels_below (fst (fold_left step l st))).
Proof.
  intros S. induction l as [| i l IH]; intros st; [apply shrunk_refl |].
  simpl. eapply shrunk_trans; [apply S | apply IH].
Qed.

Lemma clean_pass_with_shrunk lib soup :
  shrunk (labels_below soup)
         (labels_below (fst (clean_pass_with lib should_remove soup))).
Proof.
  unfold clean_pass_with, run_pass_with.
  set (st1 := fold_left clean_div_step _ _).
  assert (S1 : shrunk (labels_below soup) (labels_below (fst st1))).
  { apply (fold_shrunk clean_div_step _ clean_div_step_shrunk (soup, 0)). }
  destruct (container_loop_prefix should_remove lib (uids (find_all_tags (fst st1))) st1)
    as (l1 & l2 & _ & K & _).
  destruct (container_loop lib should_remove _ st1) as [st2 raised].
  cbn [fst] in K.
  assert (S2 : shrunk (labels_below soup) (labels_below (fst st2))).
  { eapply shrunk_trans; [exact S1 |]. rewrite K.
    apply fold_shrunk, clean_container_step_with_shrunk. }
  destruct raised; cbn [fst]; [exact S2 |].
  eapply shrunk_trans; [exact S2 | apply fold_shrunk, clean_empty_step_shrunk].
Qed.

Lemma clean_loop_with_shrunk lib fuel :
  forall soup out,
    clean_loop_with lib should_remove fuel soup = Some out ->
    shrunk (labels_below soup) (labels_below out) /\ tag_count out <= tag_count soup.
Proof.
  induction fuel as [| fuel IH]; intros soup out H; [discriminate |].
  cbn [clean_loop_with] in H. pose proof (clean_pass_with_shrunk lib soup) as S.
  pose proof (clean_pass_with_le should_remove lib soup) as [Le _].
  destruct (clean_pass_with lib should_remove soup) as [soup' removed].
  cbn [fst snd] in *. destruct (Nat.eqb removed 0).
  - inversion H; subst. split; [exact S | exact Le].
  - destruct (IH _ _ H) as [S' C]. split; [eapply shrunk_trans; eauto | lia].
Qed.

End CleaningPassLabels.

(** ** What a soup looks like when no pass removes anything *)

Lemma NoDup_map_inj_in {A B} (f : A -> B) l x y :
  NoDup (map f l) -> In x l -> In y l -> f x = f y -> x = y.
Proof.
  induction l as [| z l IH]; simpl; intros N X Y E; [destruct X |].
  inversion N as [| ? ? NI N']; subst.
  destruct X as [-> | X], Y as [-> | Y]; auto.
  - exfalso. apply NI. rewrite E. now apply in_map.
  - exfalso. apply NI. rewrite <- E. now apply in_map.
Qed.

(** with identities that are unique, [find_node] finds each tag of the
    tree under its identity *)
Lemma find_node_unique n e u :
  NoDup (uids (descendants n)) -> In e (descendants n) -> uid_of e = Some u ->
  find_node u n = Some e.
Proof.
  intros N I U.
  assert (HU : has_uid u e = true).
  { destruct e; [discriminate |]. simpl in *. inversion U. apply Nat.eqb_refl. }
  destruct (in_find_node u n e I HU) as [e' F]. rewrite F. f_equal.
  destruct (find_node_in _ _ _ F) as [I' HU'].
  rewrite uids_labels in N
    by (apply Forall_forall; intros x; apply descendants_are_tags).
  rewrite map_map in N.
  apply (NoDup_map_inj_in _ _ e' e N I' I).
  destruct e, e'; try discriminate. simpl in *.
  apply Nat.eqb_eq in HU, HU'. congruence.
Qed.

Lemma find_node_parent i root e :
  find_node i root = Some e -> exists p, parent_of i root = Some p.
Proof.
  intros F. unfold parent_of.
  destruct (ancestors_in i root) as [[| p ps] |] eqn:A.
  - now apply ancestors_not_empty in A.
  - now exists p.
  - apply ancestors_none_iff in A. congruence.
Qed.

Lemma uid_in_snapshot (f : node -> bool) n e u :
  In e (descendants n) -> f e = true -> uid_of e = Some u ->
  In u (uids (filter f (descendants n))).
Proof.
  intros I F U. apply in_uids. exists e. split; [apply filter_In; auto |].
  destruct e; [discriminate |]. simpl in *. inversion U. apply Nat.eqb_refl.
Qed.

Lemma uid_in_snapshot_all n e u :
  In e (descendants n) -> uid_of e = Some u -> In u (uids (find_all_tags n)).
Proof.
  intros I U. apply in_uids. exists e. split; [exact I |].
  destruct e; [discriminate |]. simpl in *. inversion U. apply Nat.eqb_refl.
Qed.

Lemma named_div_not_html e :
  named ["div"; "section"] e = true -> PyStr.mem (name_of e) ["html"; "body"] = false.
Proof.
  unfold named. intros H. apply andb_prop in H. destruct H as [_ H]. simpl in *.
  destruct (String.eqb_spec (name_of e) "div") as [-> | _]; [reflexivity |].
  destruct (String.eqb_spec (name_of e) "section") as [-> | _]; [reflexivity |].
  discriminate.
Qed.

Section StablePoint.

Variable should_remove : node -> node -> bool.

Lemma pass_zero_clean lib out :
  NoDup (uids (descendants out)) ->
  clean_pass_with lib should_remove out = (out, 0) ->
  forall e, In e (descendants out) ->
    removable_block e = false
    /\ redundant_wrapper e = false
    /\ should_remove out e = false
    /\ removable_empty e = false.
Proof.
  intros N E e I.
  rewrite (clean_pass_with_full should_remove lib out
             (pass_fixed_not_raised should_remove lib out E)) in E.
  remember (uids (find_all ["div"; "section"] out)) as l1 eqn:El1.
  remember (fold_left clean_div_step l1 (out, 0)) as st1 eqn:E1.
  remember (fold_left (clean_container_step_with should_remove)
              (uids (find_all_tags (fst st1))) st1) as st2 eqn:E2.
  pose proof (fold_count_mono clean_div_step l1 clean_div_step_ok (out, 0)) as M1.
  pose proof (fold_count_mono _ (uids (find_all_tags (fst st1)))
                (clean_container_step_with_ok should_remove) st1) as M2.
  pose proof (fold_count_mono _ (uids (find_all_tags (fst st2)))
                clean_empty_step_ok st2) as M3.
  rewrite <- E1 in M1. rewrite <- E2 in M2. rewrite E in M3. cbn [snd] in *.
  destruct (fold_noop clean_div_step l1 clean_div_step_ok (out, 0)) as [F1 A1].
  { rewrite <- E1. cbn [snd]. lia. }
  rewrite <- E1 in F1. rewrite F1 in *. clear E1 F1 st1. cbn [fst snd] in *.
  destruct (fold_noop _ (uids (find_all_tags out))
              (clean_container_step_with_ok should_remove) (out, 0)) as [F2 A2].
  { rewrite <- E2. cbn [snd]. lia. }
  rewrite <- E2 in F2. rewrite F2 in *. clear E2 F2 st2. cbn [fst snd] in *.
  destruct (fold_noop _ (uids (find_all_tags out)) clean_empty_step_ok (out, 0))
    as [_ A3].
  { rewrite E. reflexivity. }
  rewrite Forall_forall in A1, A2, A3.
  assert (U : exists u, uid_of e = Some u).
  { pose proof (descendants_are_tags _ _ I). destruct e as [| u ? ? ?]; [discriminate |].
    now exists u. }
  destruct U as [u U].
  pose proof (find_node_unique _ _ _ N I U) as F.
  destruct (find_node_parent _ _ _ F) as [p P].
  pose proof (uid_in_snapshot_all _ _ _ I U) as S.
  specialize (A2 u S). specialize (A3 u S).
  assert (B1 : removable_block e = false /\ redundant_wrapper e = false).
  { destruct (named ["div"; "section"] e) eqn:Nm.
    - assert (S1 : In u l1) by (rewrite El1; apply (uid_in_snapshot _ _ _ _ I Nm U)).
      specialize (A1 u S1). unfold clean_div_step in A1. rewrite P, F in A1.
      rewrite (named_div_not_html _ Nm) in A1.
      unfold removable_block, redundant_wrapper. rewrite Nm. cbn [andb].
      destruct (negb (has_any ["p"] e || has_any ["h1"] e
                      || has_any ["img"; "picture"; "figure"; "video"] e));
        [inversion A1 |].
      split; [reflexivity |].
      destruct (Nat.ltb 0 (length (find_all_direct ["p"] e))); [reflexivity |].
      cbn [negb andb].
      destruct (children_tags e) as [| child [| ? ?]]; try reflexivity.
      destruct (PyStr.mem (name_of child) _); [inversion A1 | reflexivity].
    - unfold removable_block, redundant_wrapper. rewrite Nm. auto. }
  destruct B1 as [B1 B2]. repeat split; auto.
  - unfold clean_container_step_with in A2. rewrite F in A2.
    destruct (should_remove out e); [| reflexivity].
    destruct (if PyStr.mem (name_of e) interactive_tags then parent_of u out else None).
    + destruct (_ && _); inversion A2.
    + inversion A2.
  - unfold clean_empty_step in A3. rewrite F in A3. unfold removable_empty.
    destruct (_ && _); [inversion A3 | reflexivity].
Qed.

End StablePoint.

Lemma shrunk_descendants old new :
  shrunk (labels_below old) (labels_below new) ->
  (forall e, In e (descendants new) ->
     exists e0, In e0 (descendants old)
                /\ uid_of e0 = uid_of e /\ name_of e0 = name_of e)
  /\ (NoDup (uids (descendants old)) -> NoDup (uids (descendants new))).
Proof.
  intros [Inc ND]. split.
  - intros e I. pose proof (descendants_are_tags _ _ I) as T.
    assert (L : In (tag_label e) (labels_below new)).
    { rewrite <- labels_descendants. now apply in_map. }
    apply Inc in L. rewrite <- labels_descendants in L. apply in_map_iff in L.
    destruct L as (e0 & L & I0). exists e0. split; [exact I0 |].
    pose proof (descendants_are_tags _ _ I0) as T0.
    destruct e, e0; try discriminate. simpl in *. inversion L. auto.
  - rewrite !uids_descendants. exact ND.
Qed.

(** X1.  The cleaning loop creates no tag: the soup it stops on has at
    most as many tags as the soup it started from, each of its tags is a
    tag of the start soup with the same identity and name, and
    identities that were unique stay unique. *)
Theorem cleaning_creates_no_tag (lib : destroyed_str) (soup : node) :
  exists out,
    clean_fixpoint lib soup = Some out
    /\ tag_count out <= tag_count soup
    /\ (forall e, In e (descendants out) ->
          exists e0, In e0 (descendants soup)
                     /\ uid_of e0 = uid_of e /\ name_of e0 = name_of e)
    /\ (NoDup (uids (descendants soup)) -> NoDup (uids (descendants out))).
Proof.
  destruct (clean_loop_with_ends should_remove_container lib (S (tag_count soup)) soup)
    as (out & E & _); [lia |].
  exists out. split; [exact E |].
  destruct (clean_loop_with_shrunk _ _ _ _ _ E) as [S C]. split; [exact C |].
  now apply shrunk_descendants.
Qed.

Lemma cleaning_creates_no_tag_witness :
  exists out,
    clean_fixpoint StrRaises Examples.share_soup = Some out
    /\ tag_count out <= tag_count Examples.share_soup
    /\ NoDup (uids (descendants out)).
Proof.
  destruct (cleaning_creates_no_tag StrRaises Examples.share_soup)
    as (out & E & C & _ & N).
  exists out. split; [exact E |]. split; [exact C |]. apply N.
  vm_compute. repeat (constructor; [simpl; intuition congruence |]). constructor.
Defined.

(** X2.  On a soup whose tags have unique identities, when the soup the
    cleaning loop stops on is a fixpoint of the pass, as it is with a
    library that prints destroyed tags, it holds no tag that a pass
    would remove: no [div] or [section] without a paragraph, headline or
    media tag below it, none that only wraps one structural tag, no tag
    that [should_remove_container] accepts, and no tag without text that
    is not a media tag or the parent of a paragraph, image or
    headline. *)
Theorem cleaned_soup_has_nothing_to_remove (lib : destroyed_str) (soup : node) :
  NoDup (uids (descendants soup)) ->
  exists out,
    clean_fixpoint lib soup = Some out
    /\ (lib = StrPrints \/ clean_pass lib out = (out, 0) ->
        forall e, In e (descendants out) ->
          removable_block e = false
          /\ redundant_wrapper e = false
          /\ should_remove_container out e = false
          /\ removable_empty e = false).
Proof.
  intros N.
  destruct (clean_loop_with_ends should_remove_container lib (S (tag_count soup)) soup)
    as (out & E & K); [lia |].
  exists out. split; [exact E |]. intros H.
  destruct (clean_loop_with_shrunk _ _ _ _ _ E) as [S _].
  apply shrunk_descendants in S. destruct S as [_ N'].
  apply (pass_zero_clean should_remove_container lib out (N' N)).
  destruct H as [-> | H]; [| exact H].
  destruct K as [K | (last & R & _)]; [exact K |].
  now rewrite pass_raised_prints in R.
Qed.

Lemma cleaned_soup_has_nothing_to_remove_witness :
  exists out,
    clean_fixpoint StrPrints Examples.share_lists_soup = Some out
    /\ forall e, In e (descendants out) ->
         removable_block e = false
         /\ redundant_wrapper e = false
         /\ should_remove_container out e = false
         /\ removable_empty e = false.
Proof.
  destruct (cleaned_soup_has_nothing_to_remove StrPrints Examples.share_lists_soup)
    as (out & E & K).
  - vm_compute. repeat (constructor; [simpl; intuition congruence |]). constructor.
  - exists out. split; [exact E |]. apply K. now left.
Defined.

(** ** The stable variant *)

Lemma self_and_descendants_trans n :
  forall e, In e (self_and_descendants n) ->
  incl (self_and_descendants e) (self_and_descendants n).
Proof.
  induction n as [s | u nm a cs IH] using node_induction; intros e I.
  - destruct I.
  - simpl in I. destruct I as [<- | I]; [apply incl_refl |].
    apply in_flat_map in I. destruct I as (c & Ic & I).
    rewrite Forall_forall in IH. intros x X. simpl. right.
    apply in_flat_map. exists c. split; [exact Ic |]. now apply (IH c Ic e I).
Qed.

Lemma descendants_self n : incl (descendants n) (self_and_descendants n).
Proof.
  destruct n as [| u nm a cs]; [apply incl_refl |].
  intros x X. simpl. right. exact X.
Qed.

(** the tags below a tag of the tree are tags of the tree *)
Lemma descendants_trans n e :
  In e (descendants n) -> incl (descendants e) (descendants n).
Proof.
  intros I x X. unfold descendants in I. apply in_flat_map in I.
  destruct I as (c & Ic & I).
  change (In x (flat_map self_and_descendants (contents_of n))). apply in_flat_map.
  exists c. split; [exact Ic |].
  apply (self_and_descendants_trans c e I). now apply descendants_self.
Qed.

Lemma find_all_nil_below names n e :
  find_all names n = [] -> In e (descendants n) -> find_all names e = [].
Proof.
  intros E I. destruct (find_all names e) as [| x l] eqn:F; [reflexivity |].
  assert (X : In x (find_all names e)) by (rewrite F; now left).
  unfold find_all in X. apply filter_In in X. destruct X as [X N].
  assert (Y : In x (find_all names n)).
  { unfold find_all. apply filter_In. split; [| exact N].
    now apply (descendants_trans n e I). }
  rewrite E in Y. destruct Y.
Qed.

Lemma has_any_nil names e : find_all names e = [] -> has_any names e = false.
Proof. unfold has_any. now intros ->. Qed.

Lemma find_all_in_descendants names n e :
  In e (find_all names n) -> In e (descendants n) /\ named names e = true.
Proof. unfold find_all. apply filter_In. Qed.

Lemma consider_ok soup best e :
  best_ok soup best -> stable_eligible soup e ->
  best_ok soup (Stable.consider best e).
Proof.
  intros B E. unfold Stable.consider.
  destruct (Nat.leb min_text_length (text_length e)) eqn:L; [| exact B].
  destruct (Qltb _ _); [| exact B].
  intros x X. simpl in X. inversion X; subst. split; [exact E |].
  now apply Nat.leb_le.
Qed.

Lemma consider_loop_ok soup l :
  (forall e, In e l -> stable_eligible soup e) ->
  forall best, best_ok soup best -> best_ok soup (fold_left Stable.consider l best).
Proof.
  induction l as [| e l IH]; intros A best B; [exact B |].
  simpl. apply IH.
  - intros x X. apply A. now right.
  - apply consider_ok; [exact B | apply A; now left].
Qed.

(** the invariant holds of what the four loops end with *)
Lemma stable_loops_ok soup :
  best_ok soup (Stable.find_article_container soup, Qnat 0).
Proof.
  unfold best_ok. cbn [fst]. intros container.
  unfold Stable.find_article_container.
  set (b1 := fold_left Stable.consider (find_all ["article"] soup) (None, Qnat 0)).
  assert (B1 : best_ok soup b1).
  { apply consider_loop_ok; [| intros e E; discriminate].
    intros e I. apply find_all_in_descendants in I. destruct I as [I N].
    split; [exact I |]. left. unfold named in *. apply andb_prop in N.
    destruct N as [T N]. rewrite T. simpl in *.
    destruct (String.eqb (name_of e) "article"); [reflexivity | discriminate]. }
  set (b2 := if Stable.needs_more b1 then _ else b1).
  assert (B2 : best_ok soup b2).
  { unfold b2. destruct (Stable.needs_more b1); [| exact B1].
    apply consider_loop_ok; [| exact B1].
    intros e I. apply find_all_in_descendants in I. destruct I as [I N].
    split; [exact I |]. left. unfold named in *. apply andb_prop in N.
    destruct N as [T N]. rewrite T. simpl in *.
    destruct (String.eqb (name_of e) "main"); [now rewrite orb_true_r | discriminate]. }
  set (b3 := if Stable.needs_more b2 then _ else b2).
  assert (B3 : best_ok soup b3).
  { unfold b3. destruct (Stable.needs_more b2); [| exact B2].
    apply consider_loop_ok; [| exact B2].
    intros e I. apply in_app_or in I.
    destruct I as [I | I]; apply filter_In in I; destruct I as [I R];
      (split; [exact I |]); right; [left | right; left]; exact R. }
  set (b4 := if Stable.needs_more b3 then _ else b3).
  assert (B4 : best_ok soup b4).
  { unfold b4. destruct (Stable.needs_more b3); [| exact B3].
    assert (G : forall l best,
               (forall e, In e l -> In e (descendants soup)
                                    /\ named ["div"; "section"] e = true) ->
               best_ok soup best ->
               best_ok soup
                 (fold_left
                    (fun best element =>
                       if Stable.content_named element
                          && Nat.leb min_text_length (text_length element)
                          && Stable.has_heading_or_paragraph element
                       then Stable.consider best element else best) l best)).
    { induction l as [| e l IH]; intros best A B; [exact B |].
      cbn [fold_left]. apply IH; [intros x X; apply A; now right |].
      destruct (Stable.content_named e) eqn:CN; [| exact B].
      destruct (Nat.leb min_text_length (text_length e)); [| exact B].
      destruct (Stable.has_heading_or_paragraph e) eqn:HP; [| exact B].
      cbn [andb]. apply consider_ok; [exact B |].
      destruct (A e (or_introl eq_refl)) as [I N].
      split; [exact I |]. right. right. right. auto. }
    apply G; [| exact B3]. intros e I. now apply find_all_in_descendants. }
  intros H. now apply B4.
Qed.

(** X3.  The body locator of the stable file returns a tag of the soup
    with at least [min_text_length] (150) characters of text, which is an
    [article] or [main] tag, a tag of role [main] or [article], or a
    [div] or [section] with a content word in its [id] or [class] and a
    heading or a paragraph below it. *)
Theorem stable_find_article_container_sound (soup container : node) :
  Stable.find_article_container soup = Some container ->
  stable_eligible soup container /\ min_text_length <= text_length container.
Proof. exact (stable_loops_ok soup container). Qed.

Lemma stable_find_article_container_sound_witness :
  stable_eligible MoreExamples.stable_soup MoreExamples.stable_container
  /\ min_text_length <= text_length MoreExamples.stable_container.
Proof.
  apply (stable_find_article_container_sound
           MoreExamples.stable_soup MoreExamples.stable_container).
  vm_compute. reflexivity.
Defined.

Lemma filter_none {A} (f : A -> bool) l :
  (forall x, In x l -> f x = false) -> filter f l = [].
Proof.
  induction l as [| x l IH]; intros H; [reflexivity |].
  simpl. rewrite (H x (or_introl eq_refl)). apply IH. intros y Y. apply H. now right.
Qed.

Lemma find_none_all {A} (f : A -> bool) l :
  (forall x, In x l -> f x = false) -> find f l = None.
Proof.
  induction l as [| x l IH]; intros H; [reflexivity |].
  simpl. rewrite (H x (or_introl eq_refl)). apply IH. intros y Y. apply H. now right.
Qed.

Lemma is_complete_article_needs_h1 e :
  find_all ["h1"] e = [] -> is_complete_article e = false.
Proof. intros E. unfold is_complete_article, elements_before_h1. now rewrite E. Qed.

(** X4.  On an input in which the parser finds no [h1] tag, [extract]
    of the stable file returns nothing but the empty string: the first
    strategy finds no headline to put on the article, and the candidates
    of the second strategy and of the fallback must hold an [h1].  It
    returns the empty string, or noise filtering raises and [extract]
    raises with it. *)
Theorem stable_extract_without_h1
    (parse : string -> list node) (lib : destroyed_str) (html : string) :
  find_all ["h1"] (mk_soup (parse html)) = [] ->
  Stable.extract parse lib html = Returned ""
  \/ (Stable.extract parse lib html = Raised
      /\ remove_noise (mk_soup (parse html)) = Raised).
Proof.
  intros H. unfold Stable.extract.
  destruct (negb (PyStr.contains "<h1" html)); [now left |].
  destruct (remove_noise (mk_soup (parse html))) as [soup |] eqn:R; [| now right].
  left. f_equal.
  assert (N : find_all ["h1"] soup = []).
  { eapply find_all_nil_shrunk; [apply (remove_noise_shrunk _ _ R) | exact H]. }
  assert (B : forall names e, In e (find_all names soup) -> find_all ["h1"] e = []).
  { intros names e I. apply find_all_in_descendants in I.
    eapply find_all_nil_below; [exact N | tauto]. }
  assert (S1 : Stable.strategy_one parse lib soup = None).
  { unfold Stable.strategy_one.
    destruct (Stable.find_article_container soup) as [c |] eqn:F; [| reflexivity].
    apply (stable_loops_ok soup c) in F. destruct F as [[I _] _].
    rewrite is_complete_article_needs_h1
      by (eapply find_all_nil_below; [exact N | exact I]).
    now rewrite N. }
  assert (S2 : Stable.strategy_two parse lib soup = None).
  { unfold Stable.strategy_two, Stable.article_candidates.
    rewrite filter_none
      by (intros e I; rewrite (has_any_nil _ _ (B _ _ I)); reflexivity).
    rewrite filter_none
      by (intros e I; rewrite (has_any_nil _ _ (B _ _ I)); reflexivity).
    reflexivity. }
  rewrite S1, S2. unfold Stable.fallback_container.
  rewrite find_none_all; [reflexivity |].
  intros e I. rewrite (B _ _ I). reflexivity.
Qed.

Lemma stable_extract_without_h1_witness :
  find_all ["h1"] (mk_soup (Fixture.parse Examples.no_h1_doc)) = []
  /\ Stable.extract Fixture.parse StrPrints Examples.no_h1_doc = Returned "".
Proof.
  split; [vm_compute; reflexivity |].
  destruct (stable_extract_without_h1 Fixture.parse StrPrints Examples.no_h1_doc)
    as [E | [_ R]].
  - vm_compute. reflexivity.
  - exact E.
  - vm_compute in R. discriminate R.
Defined.



(** X6.  In the stable file a tag with a paragraph below it is accepted
    by [should_remove_container] only as a short [a] or [span] outside a
    paragraph: the words "related", "share" and "save" never remove a tag
    that holds a paragraph. *)
Theorem stable_keeps_paragraph_containers (root element : node) :
  Stable.should_remove_container root element = true ->
  has_any ["p"] element = true ->
  PyStr.mem (name_of element) ["a"; "span"] = true
  /\ PyStr.word_count (get_text_strip element) < 10
  /\ (forall u, uid_of element = Some u -> has_parent_named ["p"] u root = false).
Proof.
  intros S P. destruct element as [| u nm a cs]; [discriminate |].
  assert (P' : has_any ["p"; "img"; "h1"; "h2"; "h3"] (Elem u nm a cs) = true).
  { eapply has_any_more; [| exact P]. intros x M. simpl in M |- *.
    destruct (String.eqb x "p"); [reflexivity | discriminate]. }
  unfold Stable.should_remove_container in S. cbn [attrs_of name_of uid_of].
  rewrite P, P' in S. cbn [negb] in S. rewrite !andb_false_r in S.
  destruct (_ || _) in S; [discriminate |].
  destruct (PyStr.mem nm ["p"; "article"]); [discriminate |].
  destruct (Nat.ltb 1 _); [discriminate |].
  destruct (PyStr.mem nm ["a"; "span"]); cbn [andb] in S; [| discriminate].
  destruct (has_parent_named ["p"] u root) eqn:HP; [discriminate |].
  destruct (Nat.ltb (PyStr.word_count _) 10) eqn:W; [| discriminate].
  split; [reflexivity |]. split; [now apply Nat.ltb_lt |].
  intros u' U. inversion U; subst. exact HP.
Qed.

Lemma stable_keeps_paragraph_containers_witness :
  PyStr.mem "span" ["a"; "span"] = true
  /\ PyStr.word_count
       (get_text_strip (Elem 2 "span" [] [Elem 3 "p" [] [Text "hi"]])) < 10
  /\ (forall u, uid_of (Elem 2 "span" [] [Elem 3 "p" [] [Text "hi"]]) = Some u ->
      has_parent_named ["p"] u
        (mk_soup [Elem 1 "div" [] [Elem 2 "span" [] [Elem 3 "p" [] [Text "hi"]]]])
      = false).
Proof.
  apply (stable_keeps_paragraph_containers
           (mk_soup [Elem 1 "div" [] [Elem 2 "span" [] [Elem 3 "p" [] [Text "hi"]]]])
           (Elem 2 "span" [] [Elem 3 "p" [] [Text "hi"]])).
  - vm_compute. reflexivity.
  - vm_compute. reflexivity.
Defined.

(** ** Media normalization *)

Lemma other_attrs_set k v a :
  PyStr.mem k sizing_keys = true -> other_attrs (attr_set k v a) = other_attrs a.
Proof.
  intros M. induction a as [| [k' v'] a IH]; cbn [attr_set].
  - unfold other_attrs. cbn [filter fst]. now rewrite M.
  - destruct (String.eqb_spec k' k) as [-> | N].
    + unfold other_attrs. cbn [filter fst]. now rewrite M.
    + unfold other_attrs in *. cbn [filter fst]. now rewrite IH.
Qed.

Lemma other_attrs_del k a :
  PyStr.mem k sizing_keys = true -> other_attrs (attr_del k a) = other_attrs a.
Proof.
  intros M. unfold other_attrs, attr_del. induction a as [| [k' v'] a IH]; [reflexivity |].
  cbn [filter fst]. destruct (String.eqb_spec k' k) as [-> | N]; cbn [negb].
  - rewrite M. cbn [negb]. exact IH.
  - cbn [filter fst]. now rewrite IH.
Qed.

Lemma other_attrs_standardize nm a :
  other_attrs (standardize_tag nm a) = other_attrs a.
Proof.
  unfold standardize_tag.
  assert (K : other_attrs (if media_selected nm a then standardize_attrs nm a else a)
              = other_attrs a).
  { destruct (media_selected nm a); [| reflexivity].
    unfold standardize_attrs. destruct (String.eqb nm "source").
    - now rewrite !other_attrs_set by reflexivity.
    - rewrite !other_attrs_del by reflexivity.
      now rewrite !other_attrs_set by reflexivity. }
  destruct (String.eqb nm "picture"); [| exact K].
  rewrite other_attrs_set by reflexivity. exact K.
Qed.

Lemma erase_standardize_below n : erase_sizing (standardize_below n) = erase_sizing n.
Proof.
  induction n as [s | u nm a cs IH] using node_induction; [reflexivity |].
  simpl. rewrite other_attrs_standardize. f_equal.
  induction cs as [| c r IHr]; [reflexivity |].
  inversion IH as [| ? ? IHc IHrest]; subst. simpl. now rewrite IHc, (IHr IHrest).
Qed.

(** X7.  Media normalization changes nothing but the attributes [style],
    [width], [height], [data-width], [data-height] and [sizes]: without
    these the soup is the same before and after, with the same tags,
    strings and other attributes in the same order. *)
Theorem standardize_changes_sizing_only (soup : node) :
  erase_sizing (standardize_media_dimensions soup) = erase_sizing soup.
Proof.
  destruct soup as [| u nm a cs]; [reflexivity |]. simpl. f_equal.
  induction cs as [| c r IH]; [reflexivity |].
  simpl. now rewrite erase_standardize_below, IH.
Qed.

Lemma attr_get_del_same k a : attr_get k (attr_del k a) = None.
Proof.
  unfold attr_del. induction a as [| [k' v'] a IH]; [reflexivity |].
  cbn [filter fst]. destruct (String.eqb k' k) eqn:E; cbn [negb]; [exact IH |].
  cbn [attr_get]. now rewrite E.
Qed.

Lemma attr_del_absent k a : attr_get k a = None -> attr_del k a = a.
Proof.
  unfold attr_del. induction a as [| [k' v'] a IH]; [reflexivity |].
  cbn [attr_get filter fst]. destruct (String.eqb k' k); [discriminate |].
  intros H. cbn [negb]. now rewrite IH.
Qed.

Lemma attr_set_present k v a : attr_get k a = Some v -> attr_set k v a = a.
Proof.
  induction a as [| [k' v'] a IH]; [discriminate |].
  cbn [attr_get attr_set]. destruct (String.eqb_spec k' k) as [-> | N].
  - intros H. inversion H. reflexivity.
  - intros H. now rewrite IH.
Qed.

Lemma attr_set_set k v v' a : attr_set k v (attr_set k v' a) = attr_set k v a.
Proof.
  induction a as [| [k0 v0] a IH]; cbn [attr_set].
  - now rewrite String.eqb_refl.
  - destruct (String.eqb k0 k) eqn:E; cbn [attr_set].
    + now rewrite String.eqb_refl.
    + now rewrite E, IH.
Qed.

Lemma attr_del_set k k' v a :
  k <> k' -> attr_del k' (attr_set k v a) = attr_set k v (attr_del k' a).
Proof.
  intros N. unfold attr_del. induction a as [| [k0 v0] a IH]; cbn [attr_set filter fst].
  - destruct (String.eqb_spec k k'); [contradiction | reflexivity].
  - destruct (String.eqb_spec k0 k) as [-> | N0]; cbn [filter fst].
    + destruct (String.eqb_spec k k'); [contradiction |]. cbn [negb attr_set].
      now rewrite String.eqb_refl.
    + destruct (String.eqb_spec k0 k'); cbn [negb]; [exact IH |].
      cbn [attr_set]. destruct (String.eqb_spec k0 k); [contradiction |].
      now rewrite IH.
Qed.

Lemma media_selected_not_source nm a :
  media_selected nm a = true -> String.eqb nm "source" = false.
Proof.
  unfold media_selected. destruct (String.eqb_spec nm "source") as [-> |]; [| reflexivity].
  intros H. vm_compute in H. discriminate.
Qed.

Lemma picture_selected a : media_selected "picture" a = true.
Proof. reflexivity. Qed.

Lemma standardize_tag_normalized nm a :
  media_selected nm a = true -> normalized nm (standardize_tag nm a).
Proof.
  intros S. unfold standardize_tag, standardize_attrs, normalized, final_style.
  rewrite S, (media_selected_not_source _ _ S).
  set (b := attr_set "height" _ _).
  assert (B : attr_get "style" b = Some (AStr media_style)
              /\ attr_get "width" b = Some (AStr "256")
              /\ attr_get "height" b = Some (AStr "256")).
  { unfold b. split; [| split].
    - rewrite attr_get_set_other by discriminate.
      rewrite attr_get_set_other by discriminate. apply attr_get_set_same.
    - rewrite attr_get_set_other by discriminate. apply attr_get_set_same.
    - apply attr_get_set_same. }
  destruct B as (Bs & Bw & Bh).
  set (c := attr_del "sizes" _).
  assert (C : attr_get "style" c = Some (AStr media_style)
              /\ attr_get "width" c = Some (AStr "256")
              /\ attr_get "height" c = Some (AStr "256")
              /\ attr_get "data-width" c = None
              /\ attr_get "data-height" c = None
              /\ attr_get "sizes" c = None).
  { unfold c. repeat split.
    - now rewrite !attr_get_del_other by discriminate.
    - now rewrite !attr_get_del_other by discriminate.
    - now rewrite !attr_get_del_other by discriminate.
    - rewrite attr_get_del_other by discriminate.
      rewrite attr_get_del_other by discriminate. apply attr_get_del_same.
    - rewrite attr_get_del_other by discriminate. apply attr_get_del_same.
    - apply attr_get_del_same. }
  destruct C as (Cs & Cw & Ch & C1 & C2 & C3).
  destruct (String.eqb nm "picture").
  - rewrite attr_get_set_same. rewrite !attr_get_set_other by discriminate. auto 6.
  - auto 6.
Qed.

Lemma media_selected_standardize nm a :
  media_selected nm (standardize_tag nm a) = media_selected nm a.
Proof.
  unfold media_selected. f_equal. f_equal.
  assert (K : attr_get "src" (standardize_tag nm a) = attr_get "src" a).
  { unfold standardize_tag, standardize_attrs.
    destruct (media_selected nm a), (String.eqb nm "picture"), (String.eqb nm "source");
      rewrite ?attr_get_set_other by discriminate;
      rewrite ?attr_get_del_other by discriminate;
      rewrite ?attr_get_set_other by discriminate; reflexivity. }
  unfold media_selected in K. now rewrite K.
Qed.

(** X8.  After media normalization every [img], [video] and [picture]
    tag, and every [iframe] whose [src] holds "video", has [width] and
    [height] "256" and the sizing style ([picture] the inline-block one),
    and has no [data-width], [data-height] or [sizes] attribute. *)
Theorem standardized_media_attributes (soup e : node) :
  In e (descendants (standardize_media_dimensions soup)) ->
  media_selected (name_of e) (attrs_of e) = true ->
  normalized (name_of e) (attrs_of e).
Proof.
  intros I S.
  assert (K : forall n, Forall (fun x => media_selected (name_of x) (attrs_of x) = true ->
                                         normalized (name_of x) (attrs_of x))
                               (self_and_descendants (standardize_below n))).
  { clear. induction n as [s | u nm a cs IH] using node_induction; [constructor |].
    simpl. constructor.
    - simpl. rewrite media_selected_standardize. apply standardize_tag_normalized.
    - induction cs as [| c r IHr]; [constructor |].
      inversion IH as [| ? ? IHc IHrest]; subst. simpl.
      apply Forall_app. split; auto. }
  destruct soup as [| u nm a cs]; [destruct I |].
  unfold descendants in I. simpl in I. apply in_flat_map in I.
  destruct I as (c & Ic & I). apply in_map_iff in Ic. destruct Ic as (c0 & <- & _).
  specialize (K c0). rewrite Forall_forall in K. now apply K.
Qed.

Lemma standardized_media_attributes_witness :
  normalized "iframe"
    (attrs_of (Elem 2 "iframe"
                 [("src", AStr "https://example.org/video/1");
                  ("style", AStr media_style); ("width", AStr "256");
                  ("height", AStr "256")] [])).
Proof.
  apply (standardized_media_attributes MoreExamples.media_soup
           (Elem 2 "iframe"
              [("src", AStr "https://example.org/video/1");
               ("style", AStr media_style); ("width", AStr "256");
               ("height", AStr "256")] [])).
  - vm_compute. tauto.
  - vm_compute. reflexivity.
Defined.

Lemma normalized_fixed nm a :
  media_selected nm a = true -> normalized nm a -> standardize_tag nm a = a.
Proof.
  intros S (Hs & Hw & Hh & H1 & H2 & H3). unfold standardize_tag, standardize_attrs.
  rewrite S, (media_selected_not_source _ _ S). unfold final_style in Hs.
  assert (K : forall b,
             attr_get "width" b = Some (AStr "256") ->
             attr_get "height" b = Some (AStr "256") ->
             attr_get "data-width" b = None ->
             attr_get "data-height" b = None ->
             attr_get "sizes" b = None ->
             attr_del "sizes" (attr_del "data-height" (attr_del "data-width"
               (attr_set "height" (AStr "256") (attr_set "width" (AStr "256") b)))) = b).
  { intros b Bw Bh B1 B2 B3.
    rewrite (attr_set_present "width" _ b Bw), (attr_set_present "height" _ b Bh).
    rewrite (attr_del_absent "data-width" b B1), (attr_del_absent "data-height" b B2).
    apply (attr_del_absent "sizes" b B3). }
  destruct (String.eqb nm "picture").
  - rewrite K; try (rewrite attr_get_set_other by discriminate; assumption).
    rewrite attr_set_set. now apply attr_set_present.
  - rewrite (attr_set_present "style" _ a Hs). now apply K.
Qed.

Lemma standardize_tag_idempotent nm a :
  standardize_tag nm (standardize_tag nm a) = standardize_tag nm a.
Proof.
  destruct (media_selected nm a) eqn:S.
  - apply normalized_fixed.
    + now rewrite media_selected_standardize.
    + now apply standardize_tag_normalized.
  - assert (E : standardize_tag nm a = a).
    { unfold standardize_tag. rewrite S.
      destruct (String.eqb_spec nm "picture") as [-> |]; [| reflexivity].
      rewrite picture_selected in S. discriminate. }
    now rewrite !E.
Qed.

Lemma standardize_below_idempotent n :
  standardize_below (standardize_below n) = standardize_below n.
Proof.
  induction n as [s | u nm a cs IH] using node_induction; [reflexivity |].
  simpl. rewrite standardize_tag_idempotent. f_equal.
  rewrite map_map. induction cs as [| c r IHr]; [reflexivity |].
  inversion IH as [| ? ? IHc IHrest]; subst. simpl. now rewrite IHc, (IHr IHrest).
Qed.

(** X9.  Media normalization is idempotent: a soup that went through it
    is left as it is by a second run. *)
Theorem standardize_idempotent (soup : node) :
  standardize_media_dimensions (standardize_media_dimensions soup)
  = standardize_media_dimensions soup.
Proof.
  destruct soup as [| u nm a cs]; [reflexivity |]. simpl. f_equal.
  rewrite map_map. induction cs as [| c r IH]; [reflexivity |].
  simpl. now rewrite standardize_below_idempotent, IH.
Qed.

(** ** The merge *)

Lemma is_duplicate_elem seen u nm a cs :
  is_duplicate seen (Elem u nm a cs)
  = if PyStr.mem nm ["p"; "h1"; "h2"; "h3"; "h4"; "h5"; "h6"] then
      let text := get_text_strip (Elem u nm a cs) in
      if PyStr.mem text (seen_text seen) then (DupBool true, seen)
      else (DupBool false, mk_seen (text :: seen_text seen) (seen_images seen))
    else if PyStr.mem nm ["img"; "picture"; "figure"] then
      let img_src := src_of (Elem u nm a cs) in
      if PyStr.mem img_src (seen_images seen) then (DupBool true, seen)
      else
        let images := img_src :: seen_images seen in
        if String.eqb nm "figure" then
          let '(dup, images') :=
            nested_images_seen (find_all ["img"] (Elem u nm a cs)) images in
          (DupBool dup, mk_seen (seen_text seen) images')
        else (DupBool false, mk_seen (seen_text seen) images)
    else if String.eqb nm "header" then
      let '(kept, seen') := header_walk is_duplicate false cs seen in
      match kept with
      | [] => (DupHeader None, seen')
      | _ => (DupHeader (Some (Elem 0 "header" [("class", AList ["article-header"])] kept)),
              seen')
      end
    else (DupBool false, seen).
Proof. reflexivity. Qed.

Lemma grows_refl s : grows s s.
Proof. apply incl_refl. Qed.

Lemma grows_trans s1 s2 s3 : grows s1 s2 -> grows s2 s3 -> grows s1 s3.
Proof. unfold grows. apply incl_tran. Qed.

Lemma header_walk_grows dup l :
  Forall (fun c => forall seen, grows seen (snd (dup seen c))) l ->
  forall skip seen, grows seen (snd (header_walk dup skip l seen)).
Proof.
  induction 1 as [| c r Hc _ IH]; intros skip seen; [apply grows_refl |].
  cbn [header_walk]. destruct skip; [apply IH |].
  destruct (is_tag c); [| apply IH].
  specialize (Hc seen). destruct (dup seen c) as [res seen1]. cbn [snd] in Hc.
  destruct (dup_truth res).
  - eapply grows_trans; [exact Hc | apply IH].
  - specialize (IH true seen1). destruct (header_walk dup true r seen1) as [k seen2].
    cbn [snd] in *. eapply grows_trans; eauto.
Qed.

Lemma is_duplicate_grows e : forall seen, grows seen (snd (is_duplicate seen e)).
Proof.
  induction e as [s | u nm a cs IH] using node_induction; intros seen.
  - apply grows_refl.
  - rewrite is_duplicate_elem.
    destruct (PyStr.mem nm ["p"; "h1"; "h2"; "h3"; "h4"; "h5"; "h6"]).
    + cbv zeta. destruct (PyStr.mem _ (seen_text seen)); [apply grows_refl |].
      unfold grows. cbn [snd seen_text]. apply incl_tl, incl_refl.
    + destruct (PyStr.mem nm ["img"; "picture"; "figure"]).
      * cbv zeta. destruct (PyStr.mem _ (seen_images seen)); [apply grows_refl |].
        destruct (String.eqb nm "figure");
          [| unfold grows; cbn [snd seen_text]; apply incl_refl].
        destruct (nested_images_seen _ _).
        unfold grows. cbn [snd seen_text]. apply incl_refl.
      * destruct (String.eqb nm "header"); [| apply grows_refl].
        pose proof (header_walk_grows is_duplicate cs IH false seen) as G.
        destruct (header_walk is_duplicate false cs seen) as [kept seen'].
        cbn [snd] in G. destruct kept; exact G.
Qed.

(** what [is_duplicate] answers for a tag whose text it compares *)
Lemma is_duplicate_text_tag seen e :
  text_tag e = true ->
  is_duplicate seen e
  = if PyStr.mem (get_text_strip e) (seen_text seen) then (DupBool true, seen)
    else (DupBool false,
          mk_seen (get_text_strip e :: seen_text seen) (seen_images seen)).
Proof.
  intros T. destruct e as [| u nm a cs]; [discriminate |].
  rewrite is_duplicate_elem. unfold text_tag, named in T. cbn [is_tag name_of andb] in T.
  now rewrite T.
Qed.

Lemma mem_In x l : PyStr.mem x l = true <-> In x l.
Proof.
  unfold PyStr.mem. rewrite existsb_exists. split.
  - intros (y & I & E). apply String.eqb_eq in E. now subst.
  - intros I. exists x. split; [exact I | apply String.eqb_refl].
Qed.

Lemma is_duplicate_header seen e :
  is_tag e = true -> name_of e = "header" ->
  exists kept seen',
    header_walk is_duplicate false (contents_of e) seen = (kept, seen')
    /\ is_duplicate seen e
       = (match kept with
          | [] => DupHeader None
          | _ => DupHeader (Some (Elem 0 "header"
                                    [("class", AList ["article-header"])] kept))
          end, seen').
Proof.
  intros T N. destruct e as [| u nm a cs]; [discriminate |]. simpl in N. subst nm.
  rewrite is_duplicate_elem. cbn [contents_of].
  change (PyStr.mem "header" ["p"; "h1"; "h2"; "h3"; "h4"; "h5"; "h6"]) with false.
  change (PyStr.mem "header" ["img"; "picture"; "figure"]) with false.
  change (String.eqb "header" "header") with true. cbv iota.
  destruct (header_walk is_duplicate false cs seen) as [kept seen'].
  exists kept, seen'. split; [reflexivity |]. destruct kept; reflexivity.
Qed.

Lemma fresh_texts_weaken seen seen1 seen2 out :
  grows seen seen1 -> fresh_texts seen1 seen2 out -> fresh_texts seen seen2 out.
Proof.
  intros G (G' & F & N). split; [eapply grows_trans; eauto |]. split; [| exact N].
  intros e I T. destruct (F e I T) as [A B]. split; [exact A |].
  intros H. apply B. now apply G.
Qed.

Lemma merge_children_fresh l :
  forall skip seen,
    fresh_texts seen (snd (merge_children skip l seen)) (fst (merge_children skip l seen)).
Proof.
  induction l as [| element rest IH]; intros skip seen.
  - simpl. split; [apply grows_refl |]. split; [intros e [] | constructor].
  - cbn [merge_children]. destruct skip; [apply IH |].
    destruct (is_tag element) eqn:T; [| apply IH].
    pose proof (is_duplicate_grows element seen) as G.
    destruct (String.eqb_spec (name_of element) "header") as [Hd | Hd].
    + destruct (is_duplicate_header seen element T Hd) as (kept & seen' & _ & E).
      rewrite E in *. cbn [snd] in G.
      destruct kept as [| k0 kept].
      * eapply fresh_texts_weaken; [exact G | apply IH].
      * specialize (IH false seen').
        destruct (merge_children false rest seen') as [k seen2]. cbn [fst snd] in *.
        apply (fresh_texts_weaken _ _ _ _ G).
        destruct IH as (G' & F & N). split; [exact G' |]. split.
        -- intros e [<- | I] Te; [discriminate | now apply F].
        -- cbn [filter]. change (text_tag (Elem 0 "header" _ (k0 :: kept))) with false.
           exact N.
    + destruct (is_duplicate seen element) as [r seen1] eqn:E. cbn [snd] in G.
      destruct (dup_truth r) eqn:D.
      * eapply fresh_texts_weaken; [exact G | apply IH].
      * specialize (IH true seen1).
        destruct (merge_children true rest seen1) as [k seen2]. cbn [fst snd] in *.
        destruct IH as (G' & F & N).
        split; [eapply grows_trans; eauto |].
        destruct (text_tag element) eqn:Te.
        -- rewrite (is_duplicate_text_tag seen element Te) in E.
           destruct (PyStr.mem (get_text_strip element) (seen_text seen)) eqn:M;
             inversion E; subst; [discriminate |].
           assert (NI : ~ In (get_text_strip element) (seen_text seen)).
           { intros H. apply mem_In in H. congruence. }
           split.
           ++ intros e [<- | I] Te'.
              ** split; [apply G'; now left | exact NI].
              ** destruct (F e I Te') as [A B]. split; [exact A |].
                 intros H. apply B. now right.
           ++ cbn [filter]. rewrite Te. cbn [map]. constructor; [| exact N].
              intros H. apply in_map_iff in H. destruct H as (x & Ex & Ix).
              apply filter_In in Ix. destruct Ix as [Ix Tx].
              destruct (F x Ix Tx) as [_ B]. apply B. rewrite Ex. now left.
        -- split.
           ++ intros e [<- | I] Te'; [congruence |].
              destruct (F e I Te') as [A B]. split; [exact A |].
              intros H. apply B. now apply G.
           ++ cbn [filter]. rewrite Te. exact N.
Qed.

(** X10.  In the container [_merge_content] builds, the paragraphs and
    headings that are its direct children have texts that are all
    different: a paragraph or heading at the top of the header or body
    fragment whose stripped text was emitted before is dropped. *)
Theorem merged_top_level_texts_differ
    (parse : string -> list node) (header body : node) :
  NoDup (map get_text_strip
           (filter text_tag (contents_of (merge_content parse header body)))).
Proof.
  unfold merge_content.
  pose proof (merge_children_fresh (contents_of (reparse parse header)) false
                (mk_seen [] [])) as F1.
  destruct (merge_children false (contents_of (reparse parse header)) (mk_seen [] []))
    as [from_header seen1]. cbn [fst snd] in F1.
  pose proof (merge_children_fresh
                (contents_of (prune ["h1"] (reparse parse body))) false seen1) as F2.
  destruct (merge_children false (contents_of (prune ["h1"] (reparse parse body))) seen1)
    as [from_body seen2]. cbn [fst snd] in F2. cbn [contents_of].
  destruct F1 as (_ & A1 & N1), F2 as (_ & A2 & N2).
  rewrite filter_app, map_app. apply NoDup_app; [exact N1 | exact N2 |].
  intros t I1 I2. apply in_map_iff in I1, I2.
  destruct I1 as (x & <- & Ix), I2 as (y & Ey & Iy).
  apply filter_In in Ix, Iy. destruct Ix as [Ix Tx], Iy as [Iy Ty].
  destruct (A1 x Ix Tx) as [S1 _]. destruct (A2 y Iy Ty) as [_ S2].
  apply S2. now rewrite Ey.
Qed.

Lemma count_named_cons names c l :
  count_named names (c :: l) = count_named names [c] + count_named names l.
Proof.
  unfold count_named. cbn [flat_map]. rewrite app_nil_r, filter_app, length_app.
  reflexivity.
Qed.

Lemma count_named_app names l1 l2 :
  count_named names (l1 ++ l2) = count_named names l1 + count_named names l2.
Proof.
  unfold count_named. now rewrite flat_map_app, filter_app, length_app.
Qed.

Lemma count_named_elem names u nm a cs :
  count_named names [Elem u nm a cs]
  = (if PyStr.mem nm names then 1 else 0) + count_named names cs.
Proof.
  unfold count_named. cbn [flat_map self_and_descendants]. rewrite app_nil_r.
  cbn [filter]. unfold named at 1. cbn [is_tag name_of andb].
  destruct (PyStr.mem nm names); reflexivity.
Qed.

Lemma find_all_count names n :
  length (find_all names n) = count_named names (contents_of n).
Proof. reflexivity. Qed.

Lemma header_walk_count names dup l :
  forall skip seen,
    count_named names (fst (header_walk dup skip l seen)) <= count_named names l.
Proof.
  induction l as [| c r IH]; intros skip seen; [simpl; lia |].
  cbn [header_walk]. rewrite (count_named_cons names c r).
  destruct skip; [specialize (IH false seen); lia |].
  destruct (is_tag c); [| specialize (IH false seen); lia].
  destruct (dup seen c) as [res seen1]. destruct (dup_truth res).
  - specialize (IH false seen1). lia.
  - specialize (IH true seen1). destruct (header_walk dup true r seen1) as [k seen2].
    cbn [fst] in *. rewrite (count_named_cons names c k). lia.
Qed.

Lemma merge_children_count l :
  forall skip seen,
    count_named ["h1"] (fst (merge_children skip l seen)) <= count_named ["h1"] l.
Proof.
  induction l as [| element rest IH]; intros skip seen; [simpl; lia |].
  cbn [merge_children]. rewrite (count_named_cons _ element rest).
  destruct skip; [specialize (IH false seen); lia |].
  destruct (is_tag element) eqn:T; [| specialize (IH false seen); lia].
  destruct (String.eqb_spec (name_of element) "header") as [Hd | Hd].
  - destruct (is_duplicate_header seen element T Hd) as (kept & seen' & W & E).
    rewrite E. pose proof (header_walk_count ["h1"] is_duplicate
                             (contents_of element) false seen) as C.
    rewrite W in C. cbn [fst] in C.
    assert (CE : count_named ["h1"] (contents_of element)
                 <= count_named ["h1"] [element]).
    { destruct element as [| u nm a cs]; [discriminate |].
      rewrite count_named_elem. cbn [contents_of]. lia. }
    destruct kept as [| k0 kept].
    + specialize (IH false seen'). lia.
    + specialize (IH false seen').
      destruct (merge_children false rest seen') as [k seen2]. cbn [fst] in *.
      rewrite (count_named_cons _ _ k), count_named_elem.
      change (PyStr.mem "header" ["h1"]) with false. cbv iota. lia.
  - destruct (is_duplicate seen element) as [r seen1]. destruct (dup_truth r).
    + specialize (IH false seen1). lia.
    + specialize (IH true seen1).
      destruct (merge_children true rest seen1) as [k seen2]. cbn [fst] in *.
      rewrite (count_named_cons _ element k). lia.
Qed.

Lemma prune_no_named names n : count_named names (contents_of (prune names n)) = 0.
Proof.
  induction n as [s | u nm a cs IH] using node_induction; [reflexivity |].
  cbn [prune contents_of]. induction cs as [| c r IHr]; [reflexivity |].
  inversion IH as [| ? ? IHc IHrest]; subst. specialize (IHr IHrest).
  cbn [flat_map]. destruct (named names c) eqn:N; cbn [app]; [exact IHr |].
  rewrite count_named_cons, IHr.
  destruct c as [| u' nm' a' cs']; [reflexivity |].
  cbn [prune]. rewrite count_named_elem.
  unfold named in N. cbn [is_tag name_of andb] in N. rewrite N.
  cbn [prune contents_of] in IHc. rewrite IHc. reflexivity.
Qed.

(** X11.  The merged container has no [h1] from the body: it has at most
    as many [h1] tags as the parser finds in the header container. *)
Theorem merged_h1_from_header (parse : string -> list node) (header body : node) :
  length (find_all ["h1"] (merge_content parse header body))
  <= length (find_all ["h1"] (reparse parse header)).
Proof.
  rewrite !find_all_count. unfold merge_content.
  pose proof (merge_children_count (contents_of (reparse parse header)) false
                (mk_seen [] [])) as C1.
  destruct (merge_children false (contents_of (reparse parse header)) (mk_seen [] []))
    as [from_header seen1]. cbn [fst] in C1.
  pose proof (merge_children_count
                (contents_of (prune ["h1"] (reparse parse body))) false seen1) as C2.
  destruct (merge_children false (contents_of (prune ["h1"] (reparse parse body))) seen1)
    as [from_body seen2]. cbn [fst] in C2. cbn [contents_of].
  rewrite count_named_app. rewrite prune_no_named in C2. lia.
Qed.

(** ** The body locator *)

Lemma score_container_in element :
  forall c, snd (score_container element) = Some c ->
            In c (self_and_descendants element).
Proof.
  induction element as [s | u nm a cs IH] using node_induction; intros c H.
  - discriminate.
  - cbn [score_container] in H.
    match type of H with
    | context [fold_left ?f cs _] => set (step := f) in H
    end.
    assert (K : forall l best,
               Forall (fun e => forall c, snd (score_container e) = Some c ->
                                          In c (self_and_descendants e)) l ->
               (forall c, snd best = Some c -> In c (flat_map self_and_descendants cs)) ->
               incl l cs ->
               forall c, snd (fold_left step l best) = Some c ->
                         In c (flat_map self_and_descendants cs)).
    { clear H. induction l as [| e l IHl]; intros best F B Inc x X; [now apply B |].
      inversion F as [| ? ? Fe Fl]; subst. cbn [fold_left] in X.
      apply (IHl (step best e)); auto.
      - unfold step. destruct (named _ e); [| exact B].
        destruct (score_container e) as [sc cc] eqn:Se.
        destruct (Qltb (fst best) sc); [| exact B].
        intros y Y. cbn [snd] in *. apply in_flat_map. exists e.
        split; [apply Inc; now left | now apply Fe].
      - intros y Y. apply Inc. now right. }
    specialize (K cs (Qnat 0, None) IH).
    revert H K. generalize (fold_left step cs (Qnat 0, None)).
    intros [bs [bc |]] H K.
    + specialize (K (fun _ X => ltac:(discriminate X)) (incl_refl cs)).
      destruct (Qltb bs _); cbn [snd] in H; inversion H; subst.
      * now left.
      * right. now apply K.
    + cbn [snd] in H. inversion H; subst. now left.
Qed.

Lemma candidates_of_in seeds sc :
  In sc (candidates_of seeds) ->
  exists seed, In seed seeds /\ In (snd sc) (self_and_descendants seed).
Proof.
  unfold candidates_of. intros I. apply in_flat_map in I.
  destruct I as (seed & Is & I). exists seed. split; [exact Is |].
  destruct (score_container seed) as [score [container |]] eqn:S; [| destruct I].
  destruct (Qltb (Qnat 0) score); [| destruct I].
  destruct I as [<- | []]. cbn [snd]. apply score_container_in. now rewrite S.
Qed.

Lemma contents_in_descendants n c :
  In c (contents_of n) -> is_tag c = true -> In c (descendants n).
Proof.
  intros I T. unfold descendants. apply in_flat_map. exists c. split; [exact I |].
  rewrite self_and_descendants_tag, T. now left.
Qed.

Lemma self_and_descendants_below n seed c :
  In seed (descendants n) -> In c (self_and_descendants seed) -> In c (descendants n).
Proof.
  intros I C. rewrite self_and_descendants_tag in C.
  destruct (is_tag seed); [| destruct C].
  destruct C as [<- | C]; [exact I | now apply (descendants_trans n seed I)].
Qed.

(** X12.  The container the body locator returns is a tag of the soup it
    searched, with at least [min_paragraph_count] (3) paragraphs and
    [min_text_length] (150) characters of text. *)
Theorem find_article_container_sound (soup body : node) :
  find_article_container soup = Some body ->
  In body (descendants soup)
  /\ min_paragraph_count <= p_count body
  /\ min_text_length <= text_length body.
Proof.
  intros H. split; [| now apply (find_article_container_thresholds soup)].
  unfold find_article_container in H.
  destruct (article_candidates soup) as [| c0 cands] eqn:A; [discriminate |].
  set (ok := fun sc : Q * node => _) in H.
  destruct (filter ok (c0 :: cands)) as [| c r] eqn:F; [discriminate |].
  inversion H; subst; clear H.
  assert (I : In (max_by_score c r) (article_candidates soup)).
  { rewrite A. eapply filter_In. rewrite F. apply max_by_score_in. }
  unfold article_candidates in I.
  assert (S : exists seed, In seed (descendants soup)
                           /\ In (snd (max_by_score c r)) (self_and_descendants seed)).
  { destruct (candidates_of (root_seeds soup)) eqn:R.
    - apply candidates_of_in in I. destruct I as (seed & Is & I).
      exists seed. split; [| exact I].
      unfold fallback_seeds in Is. now apply find_all_in_descendants in Is.
    - rewrite <- R in I. apply candidates_of_in in I. destruct I as (seed & Is & I).
      exists seed. split; [| exact I].
      unfold root_seeds in Is. apply find_all_direct_spec in Is.
      destruct Is as [Is N]. apply contents_in_descendants; [exact Is |].
      now apply named_is_tag in N. }
  destruct S as (seed & Is & I'). eapply self_and_descendants_below; eauto.
Qed.

Lemma find_article_container_sound_witness :
  In MoreExamples.article_body (descendants MoreExamples.article_soup)
  /\ min_paragraph_count <= p_count MoreExamples.article_body
  /\ min_text_length <= text_length MoreExamples.article_body.
Proof.
  apply (find_article_container_sound MoreExamples.article_soup
           MoreExamples.article_body).
  vm_compute. reflexivity.
Defined.

(** ** The header locator *)

Lemma header_like_parent_spec parents p :
  header_like_parent parents = Some p ->
  In p parents
  /\ PyStr.mem (name_of p) ["div"; "section"] = true
  /\ looks_like_header p = true.
Proof.
  induction parents as [| q rest IH]; [discriminate |].
  cbn [header_like_parent]. destruct (String.eqb (name_of q) "body"); [discriminate |].
  destruct (PyStr.mem (name_of q) ["div"; "section"] && looks_like_header q) eqn:E.
  - intros H. inversion H; subst. apply andb_prop in E. destruct E. split; [now left | auto].
  - intros H. destruct (IH H) as (I & M & L). split; [now right | auto].
Qed.

(** X13.  [_find_h1_container] returns [None] exactly when the soup has
    no [h1].  The container it returns otherwise is a [header] tag (an
    ancestor of the first [h1], or the one it builds), or a [div] or
    [section] whose class or id looks like a header. *)
Theorem find_h1_container_result (parse : string -> list node) (soup : node) :
  (find_h1_container parse soup = None <-> find_all ["h1"] soup = [])
  /\ (forall container,
        find_h1_container parse soup = Some container ->
        name_of container = "header"
        \/ (PyStr.mem (name_of container) ["div"; "section"] = true
            /\ looks_like_header container = true)).
Proof.
  unfold find_h1_container.
  destruct (find_all ["h1"] soup) as [| h1 rest] eqn:F.
  - split; [tauto | discriminate].
  - assert (I : In h1 (find_all ["h1"] soup)) by (rewrite F; now left).
    destruct (find_all_uid _ _ _ I) as [u U]. rewrite U.
    set (parents := match ancestors_in u soup with Some ps => ps | None => [] end).
    destruct (find (named ["header"]) parents) as [hc |] eqn:Fh.
    + split; [split; discriminate |].
      intros c H. inversion H; subst. left.
      apply find_some in Fh. destruct Fh as [_ N].
      unfold named in N. apply andb_prop in N. destruct N as [_ N]. simpl in N.
      destruct (String.eqb_spec (name_of c) "header"); [assumption | discriminate].
    + destruct (header_like_parent parents) as [p |] eqn:Hp.
      * split; [split; discriminate |].
        intros c H. inversion H; subst. right.
        apply header_like_parent_spec in Hp. tauto.
      * split; [split; discriminate |].
        intros c H. inversion H; subst. left. reflexivity.
Qed.

Lemma find_h1_container_result_witness :
  name_of (Elem 2 "header" [] [Elem 3 "h1" [] [Text "Title"]]) = "header"
  \/ (PyStr.mem (name_of (Elem 2 "header" [] [Elem 3 "h1" [] [Text "Title"]]))
                ["div"; "section"] = true
      /\ looks_like_header (Elem 2 "header" [] [Elem 3 "h1" [] [Text "Title"]]) = true).
Proof.
  apply (proj2 (find_h1_container_result Fixture.parse MoreExamples.article_soup)
           (Elem 2 "header" [] [Elem 3 "h1" [] [Text "Title"]])).
  vm_compute. reflexivity.
Defined.

(** ** More on noise filtering *)

(** X14.  When noise filtering returns, it has removed every [audio],
    [time] and [svg] tag, protected or not, and every tag outside the
    protected set that has "audio", "player", "podcast" or "sound" in an
    attribute value. *)
Theorem audio_noise_removed (soup out element : node) (u : nat) :
  NoDup (uids (descendants soup)) ->
  In element (descendants soup) ->
  uid_of element = Some u ->
  named ["audio"; "time"; "svg"] element = true
  \/ (in_protected (protect soup) soup element = false
      /\ audio_match (attrs_str (attrs_of element)) = true) ->
  remove_noise soup = Returned out ->
  ~ In u (uids (descendants out)).
Proof.
  intros N I U H R. apply (listed_removed soup out u N); [| exact R].
  apply in_or_app. right. unfold noise_audio. apply in_or_app.
  assert (HU : has_uid u element = true).
  { destruct element; [discriminate |]. simpl in *. inversion U. apply Nat.eqb_refl. }
  destruct H as [Nm | [P A]].
  - left. apply in_uids. exists element. split; [| exact HU].
    unfold find_all. apply filter_In. auto.
  - right. apply in_uids. exists element. split; [| exact HU].
    apply filter_In. split; [exact I |]. now rewrite P, A.
Qed.

(** X15.  Noise filtering creates no tag: each tag of the soup it
    leaves, when it returns and when it raises, is a tag of the soup it
    got, with the same identity and name, and identities that were
    unique stay unique. *)
Theorem noise_filter_creates_no_tag (soup : node) :
  (forall out, remove_noise soup = Returned out -> out = remove_noise_soup soup)
  /\ (forall e, In e (descendants (remove_noise_soup soup)) ->
        exists e0, In e0 (descendants soup)
                   /\ uid_of e0 = uid_of e /\ name_of e0 = name_of e)
  /\ (NoDup (uids (descendants soup)) ->
      NoDup (uids (descendants (remove_noise_soup soup)))).
Proof.
  split; [apply remove_noise_returned |].
  apply shrunk_descendants, remove_noise_soup_shrunk.
Qed.

Lemma audio_noise_removed_witness :
  ~ In 3 (uids (descendants (remove_noise_soup MoreExamples.time_soup))).
Proof.
  apply (audio_noise_removed MoreExamples.time_soup
           (remove_noise_soup MoreExamples.time_soup)
           (Elem 3 "time" [("datetime", AStr "2024-01-01")] [Text "today"]) 3).
  - vm_compute. repeat (constructor; [simpl; intuition congruence |]). constructor.
  - vm_compute. tauto.
  - reflexivity.
  - left. reflexivity.
  - vm_compute. reflexivity.
Defined.

Lemma noise_filter_creates_no_tag_witness :
  NoDup (uids (descendants (remove_noise_soup Examples.nested_links_soup))).
Proof.
  apply (proj2 (proj2 (noise_filter_creates_no_tag Examples.nested_links_soup))).
  vm_compute. repeat (constructor; [simpl; intuition congruence |]). constructor.
Defined.

(** ** Links inside paragraphs *)

(** An edit cuts the strings of the tag it replaces out of the strings of
    the tree and puts those of the replacement in their place. *)
Lemma edit_strings i repl n :
  forall n', edit i repl n = Some n' ->
  exists e s1 s2,
    find_node i n = Some e /\
    all_strings n = (s1 ++ all_strings e ++ s2)%list /\
    all_strings n' = (s1 ++ flat_map all_strings (repl e) ++ s2)%list.
Proof.
  induction n as [s | u nm a cs IH] using node_induction; intros n' H.
  - discriminate.
  - simpl in H. simpl find_node.
    match type of H with
    | option_map _ ?g = _ => destruct g as [cs' |] eqn:E; [| discriminate]
    end.
    inversion H; subst; clear H. cbn [all_strings].
    revert cs' E. induction cs as [| c r IHr]; intros cs' E; [discriminate |].
    inversion IH as [| ? ? IHc IHrest]; subst.
    destruct (has_uid i c) eqn:Hc.
    + inversion E; subst. exists c, [], (flat_map all_strings r). repeat split.
      simpl. now rewrite flat_map_app.
    + destruct (edit i repl c) as [c' |] eqn:Ec.
      * inversion E; subst.
        destruct (IHc _ eq_refl) as (e & s1 & s2 & Fe & L & L').
        exists e, s1, (s2 ++ flat_map all_strings r)%list.
        rewrite Fe. repeat split; simpl.
        -- rewrite L. now rewrite <- !app_assoc.
        -- rewrite L'. now rewrite <- !app_assoc.
      * apply edit_none_iff in Ec. rewrite Ec.
        match type of E with
        | option_map _ ?g = _ => destruct g as [r' |] eqn:Er; [| discriminate]
        end.
        inversion E; subst.
        destruct (IHr IHrest _ eq_refl) as (e & s1 & s2 & Fe & L & L').
        exists e, (all_strings c ++ s1)%list, s2. repeat split; auto; simpl.
        -- rewrite L. now rewrite <- !app_assoc.
        -- rewrite L'. now rewrite <- !app_assoc.
Qed.

Lemma rstrip_idempotent s : PyStr.rstrip (PyStr.rstrip s) = PyStr.rstrip s.
Proof.
  induction s as [| c r IH]; [reflexivity |].
  cbn [PyStr.rstrip]. destruct (PyStr.rstrip r) as [| c' r'] eqn:R.
  - destruct (PyStr.is_space c) eqn:S; [reflexivity |].
    cbn [PyStr.rstrip]. now rewrite S.
  - cbn [PyStr.rstrip] in *. now rewrite IH.
Qed.

Lemma rstrip_head c r c' r' :
  PyStr.rstrip (String c r) = String c' r' -> c' = c.
Proof.
  cbn [PyStr.rstrip]. destruct (PyStr.rstrip r).
  - destruct (PyStr.is_space c); [discriminate |]. intros H. now inversion H.
  - intros H. now inversion H.
Qed.

Lemma lstrip_head s c r :
  PyStr.lstrip s = String c r -> PyStr.is_space c = false.
Proof.
  induction s as [| d s IH]; [discriminate |].
  cbn [PyStr.lstrip]. destruct (PyStr.is_space d) eqn:S; [exact IH |].
  intros H. inversion H; subst. exact S.
Qed.

Lemma strip_trimmed x : PyStr.strip x <> "" -> trimmed (PyStr.strip x).
Proof.
  intros NE. split; [exact NE |]. unfold PyStr.strip in *. split.
  - destruct (PyStr.lstrip x) as [| c r] eqn:L; [now elim NE |].
    pose proof (lstrip_head _ _ _ L) as S.
    destruct (PyStr.rstrip (String c r)) as [| c' r'] eqn:R; [now elim NE |].
    apply rstrip_head in R. subst c'. cbn [PyStr.lstrip]. now rewrite S.
  - apply rstrip_idempotent.
Qed.

Lemma rstrip_app a b : b <> "" -> PyStr.rstrip b = b -> PyStr.rstrip (a ++ b) = a ++ b.
Proof.
  intros NE R. induction a as [| c a IH]; [exact R |].
  cbn [append PyStr.rstrip]. rewrite IH.
  destruct (a ++ b) eqn:E; [| reflexivity].
  destruct a; [simpl in E; contradiction | discriminate].
Qed.

Lemma trimmed_app a b : trimmed a -> trimmed b -> trimmed (a ++ b).
Proof.
  intros (NA & LA & RA) (NB & LB & RB). split; [| split].
  - destruct a; [contradiction | discriminate].
  - destruct a as [| c a]; [contradiction |].
    cbn [append PyStr.lstrip] in *. destruct (PyStr.is_space c); [| reflexivity].
    exfalso. assert (L : String.length (PyStr.lstrip a) <= String.length a).
    { clear. induction a as [| d a IH]; [simpl; lia |].
      cbn [PyStr.lstrip]. destruct (PyStr.is_space d); simpl in *; lia. }
    rewrite LA in L. simpl in L. lia.
  - now apply rstrip_app.
Qed.

Lemma append_empty_r s : s ++ "" = s.
Proof. induction s as [| c s IH]; [reflexivity | simpl; now rewrite IH]. Qed.

Lemma append_assoc_string a b c : (a ++ b) ++ c = a ++ (b ++ c).
Proof. induction a as [| x a IH]; [reflexivity | simpl; now rewrite IH]. Qed.

Lemma concat_empty_cons x l : String.concat "" (x :: l) = x ++ String.concat "" l.
Proof. destruct l; simpl; [now rewrite append_empty_r | reflexivity]. Qed.

Lemma concat_empty_app l1 l2 :
  String.concat "" (l1 ++ l2) = String.concat "" l1 ++ String.concat "" l2.
Proof.
  induction l1 as [| x l1 IH]; [reflexivity |].
  cbn [app]. rewrite !concat_empty_cons, IH. now rewrite append_assoc_string.
Qed.

Lemma text_of_app l1 l2 : text_of (l1 ++ l2) = text_of l1 ++ text_of l2.
Proof. unfold text_of. now rewrite map_app, filter_app, concat_empty_app. Qed.

Lemma get_text_strip_text_of n : get_text_strip n = text_of (all_strings n).
Proof. reflexivity. Qed.

Lemma text_of_trimmed l : text_of l = "" \/ trimmed (text_of l).
Proof.
  induction l as [| x l IH]; [now left |].
  change (x :: l) with ([x] ++ l)%list. rewrite text_of_app.
  assert (X : text_of [x] = "" \/ trimmed (text_of [x])).
  { unfold text_of. cbn [map filter]. destruct (PyStr.strip x) eqn:S.
    - now left.
    - right. cbn [PyStr.is_empty negb String.concat]. rewrite <- S.
      apply strip_trimmed. rewrite S. discriminate. }
  destruct X as [-> | X]; [exact IH |].
  destruct IH as [-> | IH]; [rewrite append_empty_r; now right |].
  right. now apply trimmed_app.
Qed.

Lemma text_of_single t : trimmed t -> text_of [t] = t.
Proof.
  intros (NE & L & R). unfold text_of. cbn [map filter].
  assert (S : PyStr.strip t = t) by (unfold PyStr.strip; now rewrite L, R).
  rewrite S. destruct t; [contradiction | reflexivity].
Qed.

Lemma is_empty_spec s : PyStr.is_empty s = true <-> s = "".
Proof. destruct s; simpl; split; congruence. Qed.

Lemma has_parent_parents names i t :
  has_parent_named names i t = existsb (named names) (parents_in i t).
Proof.
  unfold has_parent_named, parents_in. now destruct (ancestors_in i t).
Qed.

(** X16.  A turn of the loop over the links changes no text when the
    link is inside a paragraph of the soup: the turn does not raise, and
    the link is replaced by its own stripped text, or removed when it
    has none, so [get_text(strip=True)] of the soup is the same after
    the turn. *)
Theorem paragraph_link_keeps_text
    (prot : protected_set) (st : link_state) (i : nat) :
  has_uid i (links_soup st) = false ->
  has_parent_named ["p"] i (links_soup st) = true ->
  get_text_strip (links_soup (remove_link_step prot st i))
  = get_text_strip (links_soup st)
  /\ links_raised (remove_link_step prot st i) = links_raised st.
Proof.
  intros NR InP. unfold remove_link_step.
  destruct (links_raised st) eqn:Rs; [now rewrite Rs |].
  set (root := links_soup st) in *.
  destruct (find_node i root) as [link |] eqn:F.
  2:{ unfold has_parent_named in InP. apply ancestors_none_iff in F.
      rewrite F in InP. discriminate. }
  unfold link_turn_in, link_action_of. rewrite <- has_parent_parents, InP.
  assert (E : forall repl, exists r',
             edit i repl root = Some r').
  { intros repl. destruct (edit i repl root) eqn:E; [eauto |].
    apply edit_none_iff in E. congruence. }
  destruct (in_protected_among prot _ link); [now split |].
  destruct (_ || _); [| now split].
  destruct (negb (PyStr.is_empty (get_text_strip link))) eqn:NE;
    cbn [links_soup links_raised]; (split; [| reflexivity]).
  - destruct (E (fun _ => [Text (get_text_strip link)])) as [r' Er].
    unfold apply_edit. rewrite Er.
    destruct (edit_strings _ _ _ _ Er) as (e & s1 & s2 & Fe & L & L').
    assert (e = link) by congruence. subst e.
    rewrite !get_text_strip_text_of, L, L'. cbn [flat_map all_strings app].
    rewrite !text_of_app. f_equal.
    change (get_text_strip link :: s2) with ([get_text_strip link] ++ s2)%list.
    rewrite text_of_app. f_equal.
    rewrite get_text_strip_text_of. apply text_of_single.
    destruct (text_of_trimmed (all_strings link)) as [Z | T]; [| exact T].
    rewrite get_text_strip_text_of, Z in NE. discriminate.
  - destruct root as [| u nm a cs] eqn:Er0; [discriminate |].
    unfold decompose. simpl in NR. rewrite NR.
    destruct (E (fun _ => [])) as [r' Er]. unfold apply_edit. rewrite Er.
    destruct (edit_strings _ _ _ _ Er) as (e & s1 & s2 & Fe & L & L').
    assert (e = link) by congruence. subst e.
    rewrite !get_text_strip_text_of, L, L'. cbn [flat_map app].
    rewrite !text_of_app. f_equal.
    apply negb_false_iff, is_empty_spec in NE.
    rewrite get_text_strip_text_of in NE. now rewrite NE.
Qed.

Lemma paragraph_link_keeps_text_witness :
  get_text_strip
    (links_soup (remove_link_step (protect MoreExamples.link_soup)
                   (mk_links MoreExamples.link_soup [] [] false) 4))
  = get_text_strip MoreExamples.link_soup
  /\ links_raised (remove_link_step (protect MoreExamples.link_soup)
                     (mk_links MoreExamples.link_soup [] [] false) 4)
     = false.
Proof.
  apply (paragraph_link_keeps_text (protect MoreExamples.link_soup)
           (mk_links MoreExamples.link_soup [] [] false) 4); vm_compute; reflexivity.
Defined.

(** ** The header walk of the stable file *)

Lemma stable_walk_parity ps :
  Forall (fun c => StableHeader.passed c = true) ps ->
  StableHeader.walk ps
  = if Nat.odd (length ps) then StableHeader.NoParent else StableHeader.Stop None.
Proof.
  assert (K : forall n ps, length ps <= n ->
              Forall (fun c => StableHeader.passed c = true) ps ->
              StableHeader.walk ps
              = if Nat.odd (length ps) then StableHeader.NoParent
                else StableHeader.Stop None).
  { induction n as [| n IH]; intros l L F.
    - destruct l; [reflexivity | simpl in L; lia].
    - destruct l as [| c [| d r]]; [reflexivity | |].
      + inversion F as [| ? ? P _]; subst. unfold StableHeader.passed in P.
        apply andb_prop in P. destruct P as [P P3]. apply andb_prop in P.
        destruct P as [P1 P2]. apply negb_true_iff in P1, P2, P3.
        cbn [StableHeader.walk]. now rewrite P1, P2, P3.
      + inversion F as [| ? ? P F']; subst. inversion F' as [| ? ? _ F'']; subst.
        unfold StableHeader.passed in P.
        apply andb_prop in P. destruct P as [P P3]. apply andb_prop in P.
        destruct P as [P1 P2]. apply negb_true_iff in P1, P2, P3.
        cbn [StableHeader.walk]. rewrite P1, P2, P3.
        rewrite (IH r); [| simpl in L; lia | exact F''].
        cbn [length]. now rewrite Nat.odd_succ_succ. }
  apply (K (length ps)). lia.
Qed.

Lemma stable_walk_stop ps c :
  StableHeader.walk ps = StableHeader.Stop (Some c) ->
  In c ps /\ PyStr.mem (name_of c) ["article"; "main"; "div"] = true.
Proof.
  assert (K : forall n ps, length ps <= n ->
              StableHeader.walk ps = StableHeader.Stop (Some c) ->
              In c ps /\ PyStr.mem (name_of c) ["article"; "main"; "div"] = true).
  { induction n as [| n IH]; intros l L W.
    - destruct l; [discriminate | simpl in L; lia].
    - destruct l as [| x r]; [discriminate |]. cbn [StableHeader.walk] in W.
      destruct (String.eqb (name_of x) "body"); [discriminate |].
      destruct (PyStr.mem (name_of x) ["article"; "main"]) eqn:M.
      + inversion W; subst. split; [now left |]. simpl in M |- *.
        destruct (String.eqb (name_of c) "article"); [reflexivity |].
        destruct (String.eqb (name_of c) "main"); [reflexivity | discriminate].
      + destruct (String.eqb (name_of x) "div" && StableHeader.has_content x) eqn:D.
        * inversion W; subst. split; [now left |]. apply andb_prop in D.
          destruct D as [D _]. simpl. rewrite D. now rewrite !orb_true_r.
        * destruct r as [| y r']; [discriminate |].
          destruct (IH r') as [I N]; [simpl in L; lia | exact W |].
          split; [right; now right | exact N]. }
  apply (K (length ps)). lia.
Qed.

(** X17.  [_find_h1_container] of the stable file, which walks up from
    the first [h1] two parents at a time: it returns [None] when the soup
    has no [h1]; a container it returns is an ancestor of the first
    [h1]; and when no ancestor is [body], [article], [main] or a [div]
    with content, it raises if the [h1] has an odd number of ancestors
    (the soup included) and returns [None] if the number is even. *)
Theorem stable_find_h1_container_walk (soup : node) :
  (find_all ["h1"] soup = [] ->
   StableHeader.find_h1_container soup = Returned None)
  /\ (forall h1 rest u parents,
        find_all ["h1"] soup = h1 :: rest ->
        uid_of h1 = Some u ->
        ancestors_in u soup = Some parents ->
        (forall c, StableHeader.find_h1_container soup = Returned (Some c) ->
                   In c parents)
        /\ (Forall (fun c => StableHeader.passed c = true) parents ->
            StableHeader.find_h1_container soup
            = if Nat.odd (length parents) then Raised else Returned None)).
Proof.
  unfold StableHeader.find_h1_container. split; [now intros -> |].
  intros h1 rest u parents F U A. rewrite F, U, A. split.
  - intros c. destruct (StableHeader.walk parents) as [[x |] | |] eqn:W;
      try discriminate.
    + intros H. inversion H; subst. now apply stable_walk_stop in W.
    + destruct (find (named ["div"; "header"]) parents) as [x |] eqn:Fd.
      * intros H. inversion H; subst. apply find_some in Fd. tauto.
      * destruct parents as [| p ps]; [discriminate |].
        intros H. inversion H; subst. now left.
  - intros P. rewrite (stable_walk_parity parents P).
    destruct (Nat.odd (length parents)); reflexivity.
Qed.

Lemma stable_find_h1_container_walk_witness :
  StableHeader.find_h1_container
    (mk_soup [Elem 1 "h1" [] [Text "Title"]; Elem 2 "p" [] [Text "Some text."]])
  = Raised.
Proof.
  destruct (proj2 (stable_find_h1_container_walk
                     (mk_soup [Elem 1 "h1" [] [Text "Title"];
                               Elem 2 "p" [] [Text "Some text."]]))
              (Elem 1 "h1" [] [Text "Title"]) [] 1
              [mk_soup [Elem 1 "h1" [] [Text "Title"];
                        Elem 2 "p" [] [Text "Some text."]]]
              eq_refl eq_refl eq_refl) as [_ P].
  apply P. repeat constructor.
Defined.

(** ** URL fragments *)

Lemma prefix_cons a p b s :
  String.prefix (String a p) (String b s) = Ascii.eqb a b && String.prefix p s.
Proof.
  simpl. destruct (ascii_dec a b) as [-> | N].
  - now rewrite Ascii.eqb_refl.
  - apply Ascii.eqb_neq in N. now rewrite N.
Qed.

Lemma contains_cons needle c s :
  PyStr.contains needle (String c s)
  = String.prefix needle (String c s) || PyStr.contains needle s.
Proof. cbn [PyStr.contains]. now destruct (String.prefix needle (String c s)). Qed.

Lemma contains_prefix needle s :
  String.prefix needle s = true -> PyStr.contains needle s = true.
Proof. intros P. destruct s; cbn [PyStr.contains]; now rewrite P. Qed.

Lemma replace_pair_head s :
  String.prefix "/" (Url.replace "//" "" s) = true ->
  String.prefix "//" s = false ->
  String.prefix "/" s = true.
Proof.
  destruct s as [| c r]; [discriminate |]. intros H N.
  unfold Url.replace in H. cbn [Url.replace_from] in H. rewrite N in H.
  rewrite prefix_cons in H |- *. apply andb_prop in H. destruct H as [H _].
  rewrite H. now destruct r.
Qed.

Lemma replace_pair_clean s : PyStr.contains "//" (Url.replace "//" "" s) = false.
Proof.
  assert (K : forall n s, String.length s <= n ->
              PyStr.contains "//" (Url.replace "//" "" s) = false).
  { induction n as [| n IH]; intros t L.
    - destruct t; [reflexivity | simpl in L; lia].
    - destruct t as [| c r]; [reflexivity |].
      unfold Url.replace. cbn [Url.replace_from].
      destruct (String.prefix "//" (String c r)) eqn:P.
      + destruct r as [| d r'].
        * rewrite prefix_cons in P. apply andb_prop in P. destruct P; discriminate.
        * cbn [String.length Nat.sub Url.replace_from String.append].
          apply (IH r'). simpl in L. lia.
      + fold (Url.replace "//" "" r). rewrite contains_cons.
        rewrite (IH r) by (simpl in L; lia). rewrite orb_false_r.
        rewrite prefix_cons. destruct (Ascii.eqb "/" c) eqn:C; [| reflexivity].
        cbn [andb]. destruct (String.prefix "/" (Url.replace "//" "" r)) eqn:Q;
          [| reflexivity].
        rewrite prefix_cons, C in P. cbn [andb] in P.
        destruct (String.prefix "//" r) eqn:PP.
        * destruct r as [| d r']; [discriminate |]. rewrite prefix_cons in PP.
          apply andb_prop in PP. destruct PP as [PP _].
          rewrite prefix_cons, PP in P. destruct r'; discriminate.
        * apply replace_pair_head in Q; [| exact PP]. congruence. }
  apply (K (String.length s)). lia.
Qed.

Lemma prefix_before p sep s :
  String.prefix p (Url.before sep s) = true -> String.prefix p s = true.
Proof.
  revert p. induction s as [| c r IH]; intros p H; [exact H |].
  destruct p as [| a p]; [reflexivity |]. cbn [Url.before] in H.
  destruct (Ascii.eqb c sep); [discriminate |].
  rewrite prefix_cons in H |- *. apply andb_prop in H. destruct H as [H1 H2].
  rewrite H1. now apply IH.
Qed.

Lemma contains_before needle sep s :
  PyStr.contains needle s = false ->
  PyStr.contains needle (Url.before sep s) = false.
Proof.
  induction s as [| c r IH]; intros H; [exact H |].
  destruct (String.prefix needle (Url.before sep (String c r))) eqn:P.
  - apply prefix_before in P. apply contains_prefix in P. congruence.
  - rewrite contains_cons in H. apply orb_false_elim in H. destruct H as [H1 H2].
    cbn [Url.before] in P |- *. destruct (Ascii.eqb c sep).
    + cbn [PyStr.contains]. now rewrite P.
    + now rewrite contains_cons, P, (IH H2).
Qed.

Lemma before_clean sep s :
  PyStr.contains (String sep EmptyString) (Url.before sep s) = false.
Proof.
  induction s as [| c r IH]; [reflexivity |]. cbn [Url.before].
  destruct (Ascii.eqb c sep) eqn:E; [reflexivity |].
  rewrite contains_cons, IH, prefix_cons, Ascii.eqb_sym, E. reflexivity.
Qed.

Lemma before_absent sep s :
  PyStr.contains (String sep EmptyString) s = false -> Url.before sep s = s.
Proof.
  induction s as [| c r IH]; intros H; [reflexivity |].
  rewrite contains_cons in H. apply orb_false_elim in H. destruct H as [H1 H2].
  cbn [Url.before]. rewrite prefix_cons, Ascii.eqb_sym in H1.
  destruct (Ascii.eqb c sep).
  - destruct r; discriminate.
  - now rewrite (IH H2).
Qed.

Lemma replace_absent old new s :
  PyStr.contains old s = false -> Url.replace old new s = s.
Proof.
  unfold Url.replace. induction s as [| c r IH]; intros H; [reflexivity |].
  rewrite contains_cons in H. apply orb_false_elim in H. destruct H as [H1 H2].
  cbn [Url.replace_from]. now rewrite H1, (IH H2).
Qed.

Lemma prefix_contains_suffix a b s :
  String.prefix (String.append a b) s = true -> PyStr.contains b s = true.
Proof.
  revert s. induction a as [| x a IH]; intros s H.
  - now apply contains_prefix.
  - destruct s as [| c r]; [discriminate |]. cbn [String.append] in H.
    rewrite prefix_cons in H. apply andb_prop in H. destruct H as [_ H].
    rewrite contains_cons, (IH r H). apply orb_true_r.
Qed.

Lemma contains_suffix a b s :
  PyStr.contains b s = false -> PyStr.contains (String.append a b) s = false.
Proof.
  induction s as [| c r IH]; intros H.
  - destruct (PyStr.contains (String.append a b) EmptyString) eqn:E; [| reflexivity].
    cbn [PyStr.contains] in E.
    destruct (String.prefix (String.append a b) EmptyString) eqn:P; [| discriminate].
    apply prefix_contains_suffix in P. congruence.
  - destruct (String.prefix (String.append a b) (String c r)) eqn:P.
    + apply prefix_contains_suffix in P. congruence.
    + rewrite contains_cons in H. apply orb_false_elim in H. destruct H as [_ H].
      now rewrite contains_cons, P, (IH H).
Qed.

(** X18.  [clean_url_fragment] gives a string with no question mark and
    no two slashes in a row, and cleaning a cleaned string changes
    nothing. *)
Theorem clean_url_fragment_clean (url : string) :
  PyStr.contains "?" (Url.clean_url_fragment url) = false
  /\ PyStr.contains "//" (Url.clean_url_fragment url) = false
  /\ Url.clean_url_fragment (Url.clean_url_fragment url) = Url.clean_url_fragment url.
Proof.
  assert (Q : PyStr.contains "?" (Url.clean_url_fragment url) = false)
    by apply before_clean.
  assert (S : PyStr.contains "//" (Url.clean_url_fragment url) = false)
    by (apply contains_before, replace_pair_clean).
  split; [exact Q |]. split; [exact S |].
  unfold Url.clean_url_fragment at 1. cbv zeta.
  rewrite (replace_absent "https://"), (replace_absent "http://"),
    (replace_absent "//"); try exact S.
  - now apply before_absent.
  - exact (contains_suffix "http:" "//" _ S).
  - exact (contains_suffix "https:" "//" _ S).
Qed.
